(** * FAHMunge: merging Folding@Home trajectories (src/FAHMunge/fah.py)

    A shallow embedding of [keynat], [strip_water], [concatenate_core17],
    [concatenate_core17_filenames] and [concatenate_ocore], and the
    properties of the resumable merge / derive engine.

    Conventions of the embedding.
    - Identifiers (file and folder paths) are byte strings: [string].
    - An HDF5 trajectory file is a [Store]: its frames, the string arrays
      hanging off its root (the ledgers), and its topology.
    - The file system, the standard output and the order of the container
      operations are explicit state: a [World] threaded through a small
      state-and-exception monad [M].
    - What the module only calls (glob, listdir, tarfile + md.load, int(),
      Topology.subset) is a field of the environment [Env]. *)

From Stdlib Require Import ZArith Ascii String Sorted.
From stdpp Require Import base tactics option list gmap strings pretty.

Local Open Scope string_scope.
Local Open Scope list_scope.
Local Open Scope Z_scope.

(** ** Python exceptions and the result of a call *)

Inductive exn :=
  | ValueError (msg : string)
  | TypeError (msg : string)
  | NameError (name : string)
  | AttributeError (msg : string)
  | RuntimeError (msg : string)
  | IOError (msg : string)
  | OSError (msg : string)
  | NodeError (msg : string)
  | NoSuchNodeError (node : string)
  | IndexError (msg : string).

#[global] Instance exn_eq_dec : EqDecision exn.
Proof. solve_decision. Defined.

(** [inl e]: the call raised [e]; [inr a]: it returned [a]. *)
Definition result (A : Type) : Type := exn + A.

Definition raised {A} (r : result A) : Prop := ∃ e, r = inl e.

(** ** sorted(l, key=...) (Python builtin)

    [sort_by lt] sorts a list of (key, element) pairs with the comparison
    [lt] of the keys, which may raise. An element goes after the elements
    of what follows it whose key is smaller, and before the others, so equal
    keys keep their order. *)

Section Sorting.
Context {K A : Type} (lt : K → K → result bool).

Fixpoint insert_by (x : K * A) (l : list (K * A)) : result (list (K * A)) :=
  match l with
  | [] => inr [x]
  | y :: l' =>
      match lt (fst y) (fst x) with
      | inl e => inl e
      | inr true =>
          match insert_by x l' with
          | inl e => inl e
          | inr l'' => inr (y :: l'')
          end
      | inr false => inr (x :: y :: l')
      end
  end.

Fixpoint sort_by (l : list (K * A)) : result (list (K * A)) :=
  match l with
  | [] => inr []
  | x :: l' =>
      match sort_by l' with
      | inl e => inl e
      | inr s => insert_by x s
      end
  end.
End Sorting.

(** ** keynat (fah.py 40-60) *)

Module Keynat.

(** The elements of the list [r]: an int or a one-character string. *)
Inductive item :=
| Num (n : Z)
| Chr (c : ascii).

#[global] Instance item_eq_dec : EqDecision item.
Proof. solve_decision. Defined.

Definition code (c : ascii) : Z := Z.of_N (N_of_ascii c).

Definition is_digit (c : ascii) : bool := (48 <=? code c) && (code c <=? 57).

(** [int(c)] on a one-character byte string: the digit, or ValueError
  ([None]). *)
Definition int_char (c : ascii) : option Z :=
if is_digit c then Some (code c - 48) else None.

(** One turn of [for c in string]. [r[-1]] raises IndexError on the empty
  list; [r[-1] * 10 + c] raises TypeError when [r[-1]] is a string (the
  string is repeated ten times, and adding an int to it fails). Both are
  caught by the inner [except], which appends the digit. *)
Definition keynat_step (r : list item) (c : ascii) : list item :=
match int_char c with
| Some d =>
    match last r with
    | Some (Num n) => <[pred (length r) := Num (n * 10 + d)]> r
    | Some (Chr _) => r ++ [Num d]
    | None => r ++ [Num d]
    end
| None => r ++ [Chr c]
end.

Fixpoint keynat_loop (r : list item) (s : string) : list item :=
match s with
| EmptyString => r
| String c s' => keynat_loop (keynat_step r c) s'
end.

Definition keynat (s : string) : list item := keynat_loop [] s.

(** *** Comparing keys

  The keys are compared by Python's list comparison, [a < b]: the first
  position where the two lists differ (by [==]) decides, and a strict
  prefix is smaller. An int and a string are never equal; [int < str]
  holds in Python 2 and raises TypeError in Python 3. *)

Inductive pyver := Py2 | Py3.

Definition item_lt (v : pyver) (a b : item) : result bool :=
match a, b with
| Num x, Num y => inr (x <? y)
| Chr x, Chr y => inr (code x <? code y)
| Num _, Chr _ =>
    match v with Py2 => inr true | Py3 => inl (TypeError "unorderable types: int() < str()") end
| Chr _, Num _ =>
    match v with Py2 => inr false | Py3 => inl (TypeError "unorderable types: str() < int()") end
end.

Fixpoint list_lt (v : pyver) (a b : list item) : result bool :=
match a, b with
| [], [] => inr false
| [], _ :: _ => inr true
| _ :: _, [] => inr false
| x :: a', y :: b' => if decide (x = y) then list_lt v a' b' else item_lt v x y
end.

(** *** sorted(filenames, key=keynat)

  The key of each element is computed once; the sort is stable and only
  uses [<] on keys. It is modelled as a stable insertion sort: when the
  keys it compares are comparable this is the one stable sorted order. *)

Definition sorted_keynat (v : pyver) (l : list string) : result (list string) :=
match sort_by (list_lt v) (map (λ s, (keynat s, s)) l) with
| inl e => inl e
| inr s => inr (map snd s)
end.

(** *** Digit runs (vocabulary of the properties) *)

Fixpoint all_digits (s : string) : bool :=
match s with
| EmptyString => true
| String c s' => is_digit c && all_digits s'
end.

(** The integer a run of digits denotes, read from the left. *)
Fixpoint decimal_from (acc : Z) (s : string) : Z :=
match s with
| EmptyString => acc
| String c s' => decimal_from (acc * 10 + (code c - 48)) s'
end.

Definition decimal (s : string) : Z := decimal_from 0 s.

Definition starts_with_digit (s : string) : bool :=
match s with
| String c _ => is_digit c
| EmptyString => false
end.

Fixpoint ends_with_digit (s : string) : bool :=
match s with
| EmptyString => false
| String c EmptyString => is_digit c
| String _ s' => ends_with_digit s'
end.

End Keynat.

(** ** Strings as the module builds and stores them *)

Fixpoint last_char (s : string) : option ascii :=
  match s with
  | EmptyString => None
  | String c EmptyString => Some c
  | String _ s' => last_char s'
  end.

(** [os.path.join(a, b)] (posixpath, two arguments). *)
Definition os_path_join (a b : string) : string :=
  if String.prefix "/" b then b
  else if bool_decide (a = "") || bool_decide (last_char a = Some "/"%char) then a +:+ b
  else a +:+ "/" +:+ b.

Fixpoint rstrip_nul (s : string) : string :=
  match s with
  | EmptyString => EmptyString
  | String c s' =>
      match rstrip_nul s' with
      | EmptyString => if bool_decide (c = Ascii.zero) then EmptyString else String c EmptyString
      | t => String c t
      end
  end.

(** A value of a [tables.StringAtom(itemsize)] column (numpy dtype
    S<itemsize>): converting a Python string to it keeps the first
    [itemsize] bytes, the field is padded with NUL bytes, and a value read
    back has its trailing NUL bytes removed. *)
Definition StringAtom (itemsize : nat) (s : string) : string :=
  rstrip_nul (String.substring 0 itemsize s).

(** The strings a [StringAtom(1024)] column stores unchanged: at most 1024
    bytes, not ending in a NUL byte. *)
Definition fits (s : string) : Prop := StringAtom 1024 s = s.

#[global] Instance fits_dec s : Decision (fits s).
Proof. unfold fits. apply _. Defined.

(** ** Data model: frames, stores, the world *)

Inductive Mode := ModeR | ModeA.

#[global] Instance Mode_eq_dec : EqDecision Mode.
Proof. solve_decision. Defined.

Section Model.
Context {real Topology Top : Type}.

Definition vec3 : Type := real * real * real.

(** One frame of an HDF5 trajectory file, with the nine fields that
    [HDF5TrajectoryFile.read] returns; a field that was not written is
    [None]. *)
Record Frame := mkFrame {
  coordinates : list vec3;
  time : option real;
  cell_lengths : option vec3;
  cell_angles : option vec3;
  velocities : option (list vec3);
  kineticEnergy : option real;
  potentialEnergy : option real;
  temperature : option real;
  alchemicalLambda : option real
}.

(** One frame of a loaded [md.Trajectory]. *)
Record TrajFrame := mkTrajFrame {
  xyz : list vec3;
  unitcell_lengths : option vec3;
  unitcell_angles : option vec3;
  frame_time : real
}.

(** An HDF5 trajectory file. [frames = None]: no frame was ever written
    (there is no coordinates node, and [len] raises NoSuchNodeError).
    [arrays]: the extendable string arrays under the root, by name. *)
Record Store := mkStore {
  frames : option (list Frame);
  arrays : gmap string (list string);
  topology : option Topology
}.

Definition empty_store : Store :=
  {| frames := None; arrays := ∅; topology := None |}.

(** What a call does, in the order it does it. *)
Inductive Event :=
  | EvPrint (line : string)
  | EvOpen (path : string) (mode : Mode)
  | EvLoad (unit_id : string)
  | EvWrite (path : string) (block : list Frame)
  | EvAppend (path name : string) (rows : list string).

Record World := mkWorld {
  fs : gmap string Store;
  log : list Event
}.

(** What the module calls and does not define. *)
Record Env := mkEnv {
  python : Keynat.pyver;
  (* glob.glob(pattern) *)
  glob : string → list string;
  (* os.listdir(path) *)
  listdir : string → result (list string);
  (* int(value) on a folder name *)
  int_str : string → result Z;
  (* tarfile.open(filename); extract("positions.xtc"); md.load(..., top=top) *)
  load_positions : string → Top → result (list TrajFrame);
  (* md.load(xtc_filename, top=top) *)
  md_load : string → Top → result (list TrajFrame);
  (* md.load(top_filename % vars()), vars() = path, top_filename, output_filename *)
  md_load_top : string → string → string → result Top;
  (* top.topology *)
  topology_of : Top → Topology;
  (* Topology.subset(atom_indices) *)
  subset : Topology → list Z → result Topology
}.

(** *** The monad: state [World], exceptions [exn] *)

Definition M (A : Type) : Type := World → result A * World.

Definition ret {A} (a : A) : M A := λ w, (inr a, w).

Definition bind {A B} (m : M A) (k : A → M B) : M B :=
  λ w, match m w with
       | (inl e, w') => (inl e, w')
       | (inr a, w') => k a w'
       end.

Definition raise {A} (e : exn) : M A := λ w, (inl e, w).

Definition lift {A} (r : result A) : M A := λ w, (r, w).

(** [try: body except <catches>: handler] *)
Definition try_except {A} (body : M A) (catches : exn → bool) (handler : M A) : M A :=
  λ w, match body w with
       | (inl e, w') => if catches e then handler w' else (inl e, w')
       | (inr a, w') => (inr a, w')
       end.

Definition emit (e : Event) : M unit :=
  λ w, (inr tt, {| fs := fs w; log := log w ++ [e] |}).

Definition print (line : string) : M unit := emit (EvPrint line).

Fixpoint for_each {A} (l : list A) (body : A → M unit) : M unit :=
  match l with
  | [] => ret tt
  | x :: l' => bind (body x) (λ _, for_each l' body)
  end.

(** *** The container operations the module uses *)

(** [os.path.exists(path)] *)
Definition path_exists (path : string) : M bool :=
  λ w, (inr (bool_decide (is_Some (fs w !! path))), w).

Definition get_store (path : string) : M Store :=
  λ w, match fs w !! path with
       | Some st => (inr st, w)
       | None => (inl (IOError path), w)
       end.

Definition put_store (path : string) (st : Store) : M unit :=
  λ w, (inr tt, {| fs := <[path := st]> (fs w); log := log w |}).

(** [HDF5TrajectoryFile(filename, mode)]: mode 'r' needs the file, mode
    'a' creates it when it is missing. The handle is the path. *)
Definition HDF5TrajectoryFile (filename : string) (mode : Mode) : M unit :=
  bind (path_exists filename) (λ ex,
  bind (match mode, ex with
        | ModeR, false => raise (IOError filename)
        | ModeA, false => put_store filename empty_store
        | _, true => ret tt
        end) (λ _,
  emit (EvOpen filename mode))).

(** [len(trj)] *)
Definition len_frames (path : string) : M nat :=
  bind (get_store path) (λ st,
  match frames st with
  | Some l => ret (length l)
  | None => raise (NoSuchNodeError "coordinates")
  end).

(** [hasattr(trj.root, name)] *)
Definition hasattr_root (path name : string) : M bool :=
  bind (get_store path) (λ st, ret (bool_decide (is_Some (arrays st !! name)))).

(** [getattr(trj.root, name)], read as its rows *)
Definition getattr_root (path name : string) : M (list string) :=
  bind (get_store path) (λ st,
  match arrays st !! name with
  | Some rows => ret rows
  | None => raise (NoSuchNodeError name)
  end).

(** [trj._create_earray(where='/', name=name, atom=StringAtom(1024), shape=(0,))] *)
Definition create_earray (path name : string) : M unit :=
  bind (get_store path) (λ st,
  match arrays st !! name with
  | Some _ => raise (NodeError name)
  | None =>
      put_store path {| frames := frames st; arrays := <[name := []]> (arrays st);
                        topology := topology st |}
  end).

(** [trj.topology] and [trj.topology = t] *)
Definition get_topology (path : string) : M (option Topology) :=
  bind (get_store path) (λ st, ret (topology st)).

Definition set_topology (path : string) (t : Topology) : M unit :=
  bind (get_store path) (λ st,
  put_store path {| frames := frames st; arrays := arrays st; topology := Some t |}).

(** [trj.write(...)]: appends the frames of the block, and creates the
    coordinates node with the first one. The checks of the container on
    the shape of what is written are not modelled: a write succeeds. *)
Definition write (path : string) (block : list Frame) : M unit :=
  bind (emit (EvWrite path block)) (λ _,
  bind (get_store path) (λ st,
  put_store path {| frames := Some (default [] (frames st) ++ block);
                    arrays := arrays st; topology := topology st |})).

(** [getattr(trj.root, name).append(rows)]: the array has atom
    [StringAtom(1024)]. *)
Definition earray_append (path name : string) (rows : list string) : M unit :=
  bind (emit (EvAppend path name rows)) (λ _,
  bind (get_store path) (λ st,
  match arrays st !! name with
  | Some old =>
      put_store path {| frames := frames st;
                        arrays := <[name := old ++ map (StringAtom 1024) rows]> (arrays st);
                        topology := topology st |}
  | None => raise (NoSuchNodeError name)
  end)).

(** [trj.seek(pos); trj.read()]: the frames from [pos] on. *)
Definition seek_read (path : string) (pos : nat) : M (list Frame) :=
  bind (get_store path) (λ st, ret (drop pos (default [] (frames st)))).

(** [except tables.NodeError] also catches NoSuchNodeError, its
    subclass. *)
Definition is_NodeError (e : exn) : bool :=
  match e with NodeError _ | NoSuchNodeError _ => true | _ => false end.

Definition is_NoSuchNodeError (e : exn) : bool :=
  match e with NoSuchNodeError _ => true | _ => false end.

Definition is_RuntimeError (e : exn) : bool :=
  match e with RuntimeError _ => true | _ => false end.

(** *** numpy: coordinates[:, protein_atom_indices] *)

Definition take_index {A} (row : list A) (i : Z) : result A :=
  let n := Z.of_nat (length row) in
  let j := if i <? 0 then n + i else i in
  if (0 <=? j) && (j <? n) then
    match row !! Z.to_nat j with
    | Some a => inr a
    | None => inl (IndexError "index out of bounds")
    end
  else inl (IndexError "index out of bounds").

Fixpoint gather {A} (row : list A) (indices : list Z) : result (list A) :=
  match indices with
  | [] => inr []
  | i :: rest =>
      match take_index row i with
      | inl e => inl e
      | inr a =>
          match gather row rest with
          | inl e => inl e
          | inr l => inr (a :: l)
          end
      end
  end.

(** The frame that [strip_water] writes for a frame it read: coordinates
    at the atom indices, time and unit cell; the other fields are not
    passed to [write]. *)
Definition strip_frame (indices : list Z) (f : Frame) : result Frame :=
  match gather (coordinates f) indices with
  | inl e => inl e
  | inr c =>
      inr {| coordinates := c; time := time f;
             cell_lengths := cell_lengths f; cell_angles := cell_angles f;
             velocities := None; kineticEnergy := None; potentialEnergy := None;
             temperature := None; alchemicalLambda := None |}
  end.

Fixpoint strip_block (indices : list Z) (block : list Frame) : result (list Frame) :=
  match block with
  | [] => inr []
  | f :: rest =>
      match strip_frame indices f with
      | inl e => inl e
      | inr f' =>
          match strip_block indices rest with
          | inl e => inl e
          | inr l => inr (f' :: l)
          end
      end
  end.

(** The frame that the merge loop writes for a frame of a loaded
    trajectory. *)
Definition frame_of (t : TrajFrame) : Frame :=
  {| coordinates := xyz t; time := Some (frame_time t);
     cell_lengths := unitcell_lengths t; cell_angles := unitcell_angles t;
     velocities := None; kineticEnergy := None; potentialEnergy := None;
     temperature := None; alchemicalLambda := None |}.

End Model.

Arguments Frame : clear implicits.
Arguments TrajFrame : clear implicits.
Arguments Store : clear implicits.
Arguments Event : clear implicits.
Arguments World : clear implicits.
Arguments Env : clear implicits.
Arguments M : clear implicits.

Declare Scope py_scope.
Delimit Scope py_scope with py.
Notation "'let*' x := m 'in' k" := (bind m (λ x, k))
  (at level 10, x name, m at level 100, k at level 200) : py_scope.
Notation "'let*' '_' := m 'in' k" := (bind m (λ _, k))
  (at level 10, m at level 100, k at level 200) : py_scope.
Local Open Scope py_scope.

(** [sorted(l, key=f)] where [f] may raise: the keys are computed first, in
    the order of the list. *)
Fixpoint with_keys {K A} (f : A → result K) (l : list A) : result (list (K * A)) :=
  match l with
  | [] => inr []
  | x :: l' =>
      match f x with
      | inl e => inl e
      | inr k =>
          match with_keys f l' with
          | inl e => inl e
          | inr r => inr ((k, x) :: r)
          end
      end
  end.

Definition sorted_by_int (f : string → result Z) (l : list string) : result (list string) :=
  match with_keys f l with
  | inl e => inl e
  | inr keyed =>
      match sort_by (λ a b : Z, inr (a <? b)) keyed with
      | inl e => inl e
      | inr s => inr (map snd s)
      end
  end.

(** The lines [strip_water] prints and the messages of its errors. *)
Definition msg_skipping (allatom_filename : string) : string :=
  "Skipping, " +:+ allatom_filename +:+ " not found".

Definition msg_allatom (allatom_filename : string) (n : nat) : string :=
  "all-atom trajectory " +:+ allatom_filename +:+ " has " +:+ pretty n +:+ " frames".

Definition msg_must (min_num_frames : Z) (allatom_filename : string) : string :=
  "Must have at least " +:+ pretty min_num_frames +:+ " frames in "
  +:+ allatom_filename +:+ " to proceed!".

Definition msg_found (n_files_allatom n_files_protein n_frames_allatom n_frames_protein : nat)
    (allatom_filename protein_filename : string) : string :=
  "Found " +:+ pretty n_files_allatom +:+ "," +:+ pretty n_files_protein
  +:+ " filenames and " +:+ pretty n_frames_allatom +:+ "," +:+ pretty n_frames_protein
  +:+ " frames in " +:+ allatom_filename +:+ " and " +:+ protein_filename
  +:+ ", respectively.".

Definition msg_same : string := "Same number of frames and filenames found, skipping.".

Definition err_no_key (allatom_filename : string) : exn :=
  ValueError ("Can't find processed files in " +:+ allatom_filename).

Definition err_no_subset : exn :=
  AttributeError "'NoneType' object has no attribute 'subset'".

Definition err_more_frames (n_frames_protein n_frames_allatom : nat) : exn :=
  ValueError ("Found more frames in protein trajectory (" +:+ pretty n_frames_protein
              +:+ ") than allatom trajectory (" +:+ pretty n_frames_allatom +:+ ")").

Definition err_more_files (n_files_protein n_files_allatom : nat) : exn :=
  ValueError ("Found more filenames in protein trajectory (" +:+ pretty n_files_protein
              +:+ ") than allatom trajectory (" +:+ pretty n_files_allatom +:+ ")").

Definition err_lockstep : exn :=
  ValueError "The trajectories must match in BOTH n_frames and n_filenames or NEITHER.".

Section Engine.
Context {real Topology Top : Type}.
Abbreviation M := (M real Topology).
Abbreviation Env := (Env real Topology Top).
Abbreviation TrajFrame := (TrajFrame real).

(** ** strip_water (fah.py 67-147) *)

Definition strip_water (env : Env) (allatom_filename protein_filename : string)
    (protein_atom_indices : list Z) (min_num_frames : Z) : M unit :=
  let* ex := path_exists allatom_filename in
  if negb ex then
    print (msg_skipping allatom_filename)
  else
  let* _ := HDF5TrajectoryFile allatom_filename ModeR in
  let* n := len_frames allatom_filename in
  let* _ := print (msg_allatom allatom_filename n) in
  let* n := len_frames allatom_filename in
  if bool_decide (Z.of_nat n < min_num_frames) then
    print (msg_must min_num_frames allatom_filename)
  else
  let* has_filenames := hasattr_root allatom_filename "processed_filenames" in
  let* has_directories := hasattr_root allatom_filename "processed_directories" in
  let* key :=
    if has_filenames then ret "processed_filenames"
    else if has_directories then ret "processed_directories"
    else raise (err_no_key allatom_filename) in
  let* _ := HDF5TrajectoryFile protein_filename ModeA in
  let* _ :=
    try_except
      (let* _ := create_earray protein_filename key in
       let* t := get_topology allatom_filename in
       match t with
       | None => raise err_no_subset
       | Some t =>
           let* t' := lift (subset env t protein_atom_indices) in
           set_topology protein_filename t'
       end)
      is_NodeError (ret tt) in
  let* n_frames_allatom := len_frames allatom_filename in
  let* n_frames_protein :=
    try_except (len_frames protein_filename) is_NoSuchNodeError (ret 0%nat) in
  let* filenames_allatom := getattr_root allatom_filename key in
  let* filenames_protein := getattr_root protein_filename key in
  let n_files_allatom := length filenames_allatom in
  let n_files_protein := length filenames_protein in
  let* _ := print (msg_found n_files_allatom n_files_protein n_frames_allatom
                     n_frames_protein allatom_filename protein_filename) in
  if bool_decide (n_frames_allatom < n_frames_protein)%nat then
    raise (err_more_frames n_frames_protein n_frames_allatom)
  else if bool_decide (n_files_allatom < n_files_protein)%nat then
    raise (err_more_files n_files_protein n_files_allatom)
  else if bool_decide (n_frames_protein = n_frames_allatom)
          || bool_decide (n_files_allatom = n_files_protein) then
    if negb (bool_decide (n_frames_protein = n_frames_allatom)
             && bool_decide (n_files_allatom = n_files_protein)) then
      raise err_lockstep
    else
      print msg_same
  else
  let* block := seek_read allatom_filename n_frames_protein in
  let* stripped := lift (strip_block protein_atom_indices block) in
  let* _ := write protein_filename stripped in
  earray_append protein_filename key (drop n_files_protein filenames_allatom).

(** ** The merge loop (fah.py 181-194, 238-251, 294-305)

    The three functions run the same loop body on each unit: skip the unit
    when its identifier is a row of the ledger, else load it, write its
    frames one by one, then append its identifier to the ledger. They
    differ in the name of the ledger and in how a unit is loaded. *)

Definition merge_unit (output_filename ledger : string)
    (load : string → result (list TrajFrame)) (unit_id : string) : M unit :=
  let* rows := getattr_root output_filename ledger in
  if bool_decide (unit_id ∈ rows) then
    print ("Already processed " +:+ unit_id)
  else
  let* _ := print ("Processing " +:+ unit_id) in
  let* _ := emit (EvLoad unit_id) in
  let* trj := lift (load unit_id) in
  let* _ := for_each trj (λ frame, write output_filename [frame_of frame]) in
  earray_append output_filename ledger [unit_id].

(** [trj_file = HDF5TrajectoryFile(output_filename, mode='a')] and the
    guarded creation of the ledger and of the topology. *)
Definition open_output (env : Env) (output_filename ledger : string) (top : Top) : M unit :=
  let* _ := HDF5TrajectoryFile output_filename ModeA in
  try_except
    (let* _ := create_earray output_filename ledger in
     set_topology output_filename (topology_of env top))
    is_NodeError (ret tt).

(** ** concatenate_core17 (fah.py 149-194) *)

Definition concatenate_core17 (env : Env) (path : string) (top : Top)
    (output_filename : string) : M unit :=
  let glob_input := os_path_join path "results-*.tar.bz2" in
  let filenames := glob env glob_input in
  let* filenames := lift (Keynat.sorted_keynat (python env) filenames) in
  if bool_decide (length filenames ≤ 0)%nat then ret tt
  else
  let* _ := open_output env output_filename "processed_filenames" top in
  for_each filenames
    (merge_unit output_filename "processed_filenames" (λ f, load_positions env f top)).

(** ** concatenate_core17_filenames (fah.py 196-260)

    The handler of [except RuntimeError] formats its message with the
    names [run] and [clone], which the module does not define: evaluating
    it raises NameError. *)

Definition concatenate_core17_filenames (env : Env) (path top_filename output_filename : string)
    : M unit :=
  let* _ := print output_filename in
  let* top := lift (md_load_top env path top_filename output_filename) in
  let glob_input := os_path_join path "results-*.tar.bz2" in
  let filenames := glob env glob_input in
  let* filenames := lift (Keynat.sorted_keynat (python env) filenames) in
  if bool_decide (length filenames ≤ 0)%nat then ret tt
  else
  let* _ := open_output env output_filename "processed_filenames" top in
  try_except
    (for_each filenames
       (merge_unit output_filename "processed_filenames" (λ f, load_positions env f top)))
    is_RuntimeError
    (raise (NameError "run")).

(** ** concatenate_ocore (fah.py 262-305) *)

Definition concatenate_ocore (env : Env) (path : string) (top : Top)
    (output_filename : string) : M unit :=
  let* names := lift (listdir env path) in
  let* sorted_folders := lift (sorted_by_int (int_str env) names) in
  let sorted_folders := map (os_path_join path) sorted_folders in
  if bool_decide (length sorted_folders ≤ 0)%nat then ret tt
  else
  let* _ := open_output env output_filename "processed_folders" top in
  for_each sorted_folders
    (merge_unit output_filename "processed_folders"
       (λ folder, md_load env (os_path_join folder "frames.xtc") top)).

End Engine.

(** ** Vocabulary of the properties *)

Section Vocabulary.
Context {real Topology : Type}.
Abbreviation Frame' := (Frame real).
Abbreviation Store' := (Store real Topology).
Abbreviation World' := (World real Topology).
Abbreviation Event' := (Event real).

(** The frames of the store at [path] (none when the file or its
    coordinates node is missing) and the rows of its array [name]. *)
Definition frames_at (w : World') (path : string) : list Frame' :=
  match fs w !! path with
  | Some st => default [] (frames st)
  | None => []
  end.

Definition rows_at (w : World') (path name : string) : list string :=
  match fs w !! path with
  | Some st => default [] (arrays st !! name)
  | None => []
  end.

(** [key] as [strip_water] chooses it (fah.py 100-105). *)
Definition ledger_key (st : Store') : option string :=
  if bool_decide (is_Some (arrays st !! "processed_filenames")) then Some "processed_filenames"
  else if bool_decide (is_Some (arrays st !! "processed_directories"))
       then Some "processed_directories"
  else None.

(** Every row of a string array is a value of [StringAtom(1024)]. *)
Definition wf_rows (rows : list string) : Prop := Forall fits rows.

Definition is_write (path : string) (e : Event') : bool :=
  match e with EvWrite p _ => bool_decide (p = path) | _ => false end.

Definition is_append (e : Event') : bool :=
  match e with EvAppend _ _ _ => true | _ => false end.

Definition is_open (path : string) (mode : Mode) (e : Event') : bool :=
  match e with EvOpen p m => bool_decide (p = path ∧ m = mode) | _ => false end.

(** The units named by the ledger appends of a trace, in order. *)
Fixpoint appended (path name : string) (trace : list Event') : list string :=
  match trace with
  | [] => []
  | EvAppend p n rows :: rest =>
      if bool_decide (p = path ∧ n = name) then rows ++ appended path name rest
      else appended path name rest
  | _ :: rest => appended path name rest
  end.

(** *** One run of the merge loop, unit by unit

    [loop_plan load units rows] lists what the loop does with each unit
    when it starts with the ledger rows [rows]: skip it, merge its frames,
    or stop at its failing load. *)
Inductive action :=
  | Skip
  | Merge (trj : list (TrajFrame real))
  | Fail (e : exn).

Fixpoint loop_plan (load : string → result (list (TrajFrame real)))
    (units rows : list string) : list (string * action) :=
  match units with
  | [] => []
  | u :: us =>
      if bool_decide (u ∈ rows) then (u, Skip) :: loop_plan load us rows
      else match load u with
           | inr trj => (u, Merge trj) :: loop_plan load us (rows ++ [StringAtom 1024 u])
           | inl e => [(u, Fail e)]
           end
  end.

Fixpoint plan_result (plan : list (string * action)) : result unit :=
  match plan with
  | [] => inr tt
  | (_, Fail e) :: _ => inl e
  | _ :: rest => plan_result rest
  end.

(** The unit whose load failed, with the exception. *)
Fixpoint plan_failure (plan : list (string * action)) : option (string * exn) :=
  match plan with
  | [] => None
  | (u, Fail e) :: _ => Some (u, e)
  | _ :: rest => plan_failure rest
  end.

Fixpoint plan_merged (plan : list (string * action)) : list string :=
  match plan with
  | [] => []
  | (u, Merge _) :: rest => u :: plan_merged rest
  | _ :: rest => plan_merged rest
  end.

Fixpoint plan_frames (plan : list (string * action)) : list Frame' :=
  match plan with
  | [] => []
  | (_, Merge trj) :: rest => map frame_of trj ++ plan_frames rest
  | _ :: rest => plan_frames rest
  end.

Definition unit_events (path name : string) (step : string * action) : list Event' :=
  match step with
  | (u, Skip) => [EvPrint ("Already processed " +:+ u)]
  | (u, Merge trj) =>
      [EvPrint ("Processing " +:+ u); EvLoad u]
        ++ map (λ f, EvWrite path [frame_of f]) trj ++ [EvAppend path name [u]]
  | (u, Fail _) => [EvPrint ("Processing " +:+ u); EvLoad u]
  end.

Fixpoint plan_events (path name : string) (plan : list (string * action)) : list Event' :=
  match plan with
  | [] => []
  | step :: rest => unit_events path name step ++ plan_events path name rest
  end.

Definition add_frames (old : option (list Frame')) (new : list Frame') : option (list Frame') :=
  match new with
  | [] => old
  | _ => Some (default [] old ++ new)
  end.

(** The store after [open_output]: the file as it was, or with the ledger
    and the topology it lacked. *)
Definition opened_store (old : option Store') (name : string) (t : Topology) : Store' :=
  let st := default empty_store old in
  match arrays st !! name with
  | Some _ => st
  | None => {| frames := frames st; arrays := <[name := []]> (arrays st); topology := Some t |}
  end.

Definition merged_store (st : Store') (name : string) (plan : list (string * action)) : Store' :=
  {| frames := add_frames (frames st) (plan_frames plan);
     arrays := <[name := default [] (arrays st !! name)
                          ++ map (StringAtom 1024) (plan_merged plan)]> (arrays st);
     topology := topology st |}.

(** [open_output] followed by the merge loop over [units], as one step
    on the world. *)
Definition merge_run (path name : string) (t : Topology)
    (load : string → result (list (TrajFrame real))) (units : list string) (w : World')
    : result unit * World' :=
  let st := opened_store (fs w !! path) name t in
  let plan := loop_plan load units (default [] (arrays st !! name)) in
  (plan_result plan,
   {| fs := <[path := merged_store st name plan]> (fs w);
      log := log w ++ EvOpen path ModeA :: plan_events path name plan |}).

(** What [except RuntimeError] of concatenate_core17_filenames turns the
    result of its loop into. *)
Definition runtime_handler (r : result unit) : result unit :=
  match r with
  | inl e => if is_RuntimeError e then inl (NameError "run") else inl e
  | inr a => inr a
  end.

End Vocabulary.

(** ** strip_water as one step on the world *)

Section DeriveVocabulary.
Context {real Topology Top : Type}.

(** The derived store after it is opened for appending and the ledger and
    the topology are set up (fah.py 107-113), with what that raised. *)
Definition init_derived (env : Env real Topology Top) (full : Store real Topology)
    (old : option (Store real Topology)) (key : string) (indices : list Z)
    : result unit * Store real Topology :=
  let st_open := default empty_store old in
  match arrays st_open !! key with
  | Some _ => (inr tt, st_open)
  | None =>
      let st_new := {| frames := frames st_open;
                       arrays := <[key := []]> (arrays st_open);
                       topology := topology st_open |} in
      match topology full with
      | None => (inl err_no_subset, st_new)
      | Some t =>
          match subset env t indices with
          | inl e => (if is_NodeError e then inr tt else inl e, st_new)
          | inr t' =>
              (inr tt, {| frames := frames st_new; arrays := arrays st_new;
                          topology := Some t' |})
          end
      end
  end.

Definition derive_run (env : Env real Topology Top)
    (allatom_filename protein_filename : string) (indices : list Z) (min_num_frames : Z)
    (w : World real Topology) : result unit * World real Topology :=
  match fs w !! allatom_filename with
  | None =>
      (inr tt, {| fs := fs w; log := log w ++ [EvPrint (msg_skipping allatom_filename)] |})
  | Some full =>
      match frames full with
      | None =>
          (inl (NoSuchNodeError "coordinates"),
           {| fs := fs w; log := log w ++ [EvOpen allatom_filename ModeR] |})
      | Some fa =>
          let log1 := log w ++ [EvOpen allatom_filename ModeR;
                                EvPrint (msg_allatom allatom_filename (length fa))] in
          if bool_decide (Z.of_nat (length fa) < min_num_frames) then
            (inr tt, {| fs := fs w;
                        log := log1 ++ [EvPrint (msg_must min_num_frames allatom_filename)] |})
          else
            match ledger_key full with
            | None => (inl (err_no_key allatom_filename), {| fs := fs w; log := log1 |})
            | Some key =>
                let init := init_derived env full (fs w !! protein_filename) key indices in
                let st1 := init.2 in
                let fs1 := <[protein_filename := st1]> (fs w) in
                let log2 := log1 ++ [EvOpen protein_filename ModeA] in
                match init.1 with
                | inl e => (inl e, {| fs := fs1; log := log2 |})
                | inr _ =>
                    let n_frames_allatom := length fa in
                    let n_frames_protein := length (default [] (frames st1)) in
                    let filenames_allatom := default [] (arrays full !! key) in
                    let filenames_protein := default [] (arrays st1 !! key) in
                    let n_files_allatom := length filenames_allatom in
                    let n_files_protein := length filenames_protein in
                    let log3 := log2 ++ [EvPrint (msg_found n_files_allatom n_files_protein
                                                    n_frames_allatom n_frames_protein
                                                    allatom_filename protein_filename)] in
                    if bool_decide (n_frames_allatom < n_frames_protein)%nat then
                      (inl (err_more_frames n_frames_protein n_frames_allatom),
                       {| fs := fs1; log := log3 |})
                    else if bool_decide (n_files_allatom < n_files_protein)%nat then
                      (inl (err_more_files n_files_protein n_files_allatom),
                       {| fs := fs1; log := log3 |})
                    else if bool_decide (n_frames_protein = n_frames_allatom)
                            || bool_decide (n_files_allatom = n_files_protein) then
                      if negb (bool_decide (n_frames_protein = n_frames_allatom)
                               && bool_decide (n_files_allatom = n_files_protein)) then
                        (inl err_lockstep, {| fs := fs1; log := log3 |})
                      else
                        (inr tt, {| fs := fs1; log := log3 ++ [EvPrint msg_same] |})
                    else
                      match strip_block indices (drop n_frames_protein fa) with
                      | inl e => (inl e, {| fs := fs1; log := log3 |})
                      | inr block =>
                          let rows := drop n_files_protein filenames_allatom in
                          (inr tt,
                           {| fs := <[protein_filename :=
                                        {| frames := Some (default [] (frames st1) ++ block);
                                           arrays := <[key := filenames_protein
                                                                ++ map (StringAtom 1024) rows]>
                                                       (arrays st1);
                                           topology := topology st1 |}]> (fs w);
                              log := log3 ++ [EvWrite protein_filename block;
                                              EvAppend protein_filename key rows] |})
                      end
                end
            end
      end
  end.

End DeriveVocabulary.

(** ** The three merge functions, side by side *)

Section Adapters.
Context {real Topology Top : Type}.
Abbreviation Env' := (Env real Topology Top).

Inductive adapter :=
  | Core17 (top : Top)
  | Core17Filenames (top_filename : string)
  | OCore (top : Top).

Definition merge (env : Env') (a : adapter) (path output_filename : string)
    : M real Topology unit :=
  match a with
  | Core17 top => concatenate_core17 env path top output_filename
  | Core17Filenames top_filename =>
      concatenate_core17_filenames env path top_filename output_filename
  | OCore top => concatenate_ocore env path top output_filename
  end.

(** The name of the ledger. *)
Definition ledger_name (a : adapter) : string :=
  match a with
  | OCore _ => "processed_folders"
  | _ => "processed_filenames"
  end.


(** The sorted list of units the loop goes through. *)
Definition discover (env : Env') (a : adapter) (path : string) : result (list string) :=
  match a with
  | OCore _ =>
      match listdir env path with
      | inl e => inl e
      | inr names =>
          match sorted_by_int (int_str env) names with
          | inl e => inl e
          | inr sorted_folders => inr (map (os_path_join path) sorted_folders)
          end
      end
  | _ => Keynat.sorted_keynat (python env) (glob env (os_path_join path "results-*.tar.bz2"))
  end.

(** What comes before discovery: concatenate_core17_filenames prints the
    output file name and loads the topology file. *)
Definition prelude_events (a : adapter) (output_filename : string) : list (Event real) :=
  match a with
  | Core17Filenames _ => [EvPrint output_filename]
  | _ => []
  end.

Definition prelude_top (env : Env') (a : adapter) (path output_filename : string)
    : result Top :=
  match a with
  | Core17 top | OCore top => inr top
  | Core17Filenames top_filename => md_load_top env path top_filename output_filename
  end.

(** How a unit is loaded, given the topology object. *)
Definition loader (env : Env') (a : adapter) (top : Top)
    : string → result (list (TrajFrame real)) :=
  match a with
  | OCore _ => λ folder, md_load env (os_path_join folder "frames.xtc") top
  | _ => λ f, load_positions env f top
  end.

(** The exception a failing load leaves the function with. *)
Definition surfaced (a : adapter) (e : exn) : exn :=
  match a with
  | Core17Filenames _ => if is_RuntimeError e then NameError "run" else e
  | _ => e
  end.

End Adapters.

(** ** Worked inputs

    A small environment for the examples: coordinates are integers, a
    topology is the list of its atom names, and the topology object is that
    list. Directory clone holds two archives, directory broken an archive
    that loads and one that does not, directory damaged one archive that
    does not load, directory empty none, and the deep directory one archive
    whose path is longer than 1024 bytes. *)

Module Demo.

Fixpoint repeat_string (n : nat) (s : string) : string :=
  match n with
  | O => ""
  | S n' => s +:+ repeat_string n' s
  end.

(** Six nested directories with names of 200 bytes. *)
Definition deep : string :=
  repeat_string 6 (String "/" (repeat_string 200 "d")).

Definition deep_unit : string := os_path_join deep "results-1.tar.bz2".

Definition frame_at (n : Z) : TrajFrame Z :=
  {| xyz := [(n, n, n); (n + 1, n + 1, n + 1); (n + 2, n + 2, n + 2)];
     unitcell_lengths := Some (4, 4, 4);
     unitcell_angles := Some (90, 90, 90);
     frame_time := n |}.

Definition env : Env Z (list string) (list string) :=
  {| python := Keynat.Py3;
     glob := λ pattern,
       if bool_decide (pattern = "clone/results-*.tar.bz2")
       then ["clone/results-10.tar.bz2"; "clone/results-9.tar.bz2"]
       else if bool_decide (pattern = "broken/results-*.tar.bz2")
       then ["broken/results-2.tar.bz2"; "broken/results-1.tar.bz2"]
       else if bool_decide (pattern = "damaged/results-*.tar.bz2")
       then ["damaged/results-1.tar.bz2"]
       else if bool_decide (pattern = os_path_join deep "results-*.tar.bz2")
       then [deep_unit]
       else [];
     listdir := λ path,
       if bool_decide (path = "stream") then inr ["10"; "9"]
       else if bool_decide (path = "idle") then inr []
       else inl (OSError path);
     int_str := λ value,
       if Keynat.all_digits value && negb (bool_decide (value = ""))
       then inr (Keynat.decimal value)
       else inl (ValueError value);
     load_positions := λ filename _,
       if bool_decide (filename = "clone/results-9.tar.bz2") then inr [frame_at 0; frame_at 1]
       else if bool_decide (filename = "clone/results-10.tar.bz2") then inr [frame_at 2]
       else if bool_decide (filename = "broken/results-1.tar.bz2") then inr [frame_at 0]
       else if bool_decide (filename = deep_unit) then inr [frame_at 0]
       else inl (IOError filename);
     md_load := λ filename _,
       if bool_decide (filename = "stream/9/frames.xtc") then inr [frame_at 0]
       else if bool_decide (filename = "stream/10/frames.xtc") then inr [frame_at 1; frame_at 2]
       else inl (IOError filename);
     md_load_top := λ _ _ _, inr ["N"; "CA"; "O"];
     topology_of := λ top, top;
     subset := λ t indices, gather t indices |}.

Definition top : list string := ["N"; "CA"; "O"].

Definition nothing : World Z (list string) := {| fs := ∅; log := [] |}.

(** The world after merging directory clone into full.h5. *)
Definition merged : World Z (list string) :=
  (concatenate_core17 env "clone" top "full.h5" nothing).2.

(** The world after the failing merge of directory broken: the first
    unit is merged, the second one failed to load. *)
Definition stalled : World Z (list string) :=
  (concatenate_core17 env "broken" top "broken.h5" nothing).2.

(** The world after the failing merge of directory damaged: damaged.h5
    has its ledger and its topology, and no frame was ever written. *)
Definition unstarted : World Z (list string) :=
  (concatenate_core17 env "damaged" top "damaged.h5" nothing).2.

Definition stored_frame (n : Z) : Frame Z := frame_of (frame_at n).

Definition full_store : Store Z (list string) :=
  {| frames := Some [stored_frame 0; stored_frame 1];
     arrays := {[ "processed_filenames" :=
                    ["clone/results-9.tar.bz2"; "clone/results-10.tar.bz2"] ]};
     topology := Some top |}.

(** A derived store with more frames and more ledger rows than its full
    store. *)
Definition ahead : World Z (list string) :=
  {| fs := {[ "full.h5" := {| frames := Some [stored_frame 0; stored_frame 1];
                              arrays := {[ "processed_filenames" := ["clone/results-9.tar.bz2"] ]};
                              topology := Some top |};
              "protein.h5" := {| frames := Some [stored_frame 0; stored_frame 1; stored_frame 2];
                                 arrays := {[ "processed_filenames" :=
                                                ["clone/results-9.tar.bz2";
                                                 "clone/results-10.tar.bz2"] ]};
                                 topology := Some top |} ]};
     log := [] |}.

(** A derived store with as many frames as its full store and fewer
    ledger rows. *)
Definition off_lockstep : World Z (list string) :=
  {| fs := {[ "full.h5" := full_store;
              "protein.h5" := {| frames := Some [stored_frame 0; stored_frame 1];
                                 arrays := {[ "processed_filenames" :=
                                                ["clone/results-9.tar.bz2"] ]};
                                 topology := Some top |} ]};
     log := [] |}.

(** The call of strip_water that derives protein.h5 from full.h5, with
    the second and the last atom. *)
Definition derived : result unit * World Z (list string) :=
  strip_water env "full.h5" "protein.h5" [1; -1] 1 merged.

End Demo.

(** ** Vocabulary of the further properties *)

Section MoreVocabulary.
Context {real Topology : Type}.



(** The string array [name] of the file at [path], when both exist. *)
Definition array_at (w : World real Topology) (path name : string) : option (list string) :=
  match fs w !! path with
  | Some st => arrays st !! name
  | None => None
  end.

Definition topology_at (w : World real Topology) (path : string) : option Topology :=
  match fs w !! path with
  | Some st => topology st
  | None => None
  end.

(** An index numpy accepts on an axis of length [n]. *)
Definition in_range (n : nat) (i : Z) : Prop := - Z.of_nat n ≤ i < Z.of_nat n.

End MoreVocabulary.

(** The world after a call of strip_water on the merged full store whose
    set-up fails: the last atom index is out of the topology, and
    restricting the topology raises after the ledger of protein.h5 was
    created. *)
Module DemoDerive.

Definition half_set_up : World Z (list string) :=
  (strip_water Demo.env "full.h5" "protein.h5" [1; 3] 1 Demo.merged).2.

(** The world after merging the stream directory into stream.h5 with
    concatenate_ocore. *)
Definition streamed : World Z (list string) :=
  (concatenate_ocore Demo.env "stream" Demo.top "stream.h5" Demo.nothing).2.

End DemoDerive.

(** * Properties *)

(** ** keynat *)

Module KeynatFacts.
Import Keynat.

Lemma keynat_loop_app s1 : ∀ r s2,
keynat_loop r (s1 +:+ s2) = keynat_loop (keynat_loop r s1) s2.
Proof. induction s1 as [|c s1 IH]; intros r s2; simpl; [done | apply IH]. Qed.

Lemma insert_last {A} (r : list A) (x y : A) :
<[pred (length (r ++ [x])) := y]> (r ++ [x]) = r ++ [y].
Proof.
rewrite length_app, Nat.add_1_r. simpl.
induction r as [|a r IH]; simpl; [done | by rewrite IH].
Qed.

Lemma keynat_step_digit_num r n c :
is_digit c = true →
keynat_step (r ++ [Num n]) c = r ++ [Num (n * 10 + (code c - 48))].
Proof.
intros Hc. unfold keynat_step, int_char. rewrite Hc, last_snoc.
apply insert_last.
Qed.

Lemma keynat_step_digit_other r c :
is_digit c = true → (∀ n, last r ≠ Some (Num n)) →
keynat_step r c = r ++ [Num (code c - 48)].
Proof.
intros Hc Hr. unfold keynat_step, int_char. rewrite Hc.
destruct (last r) as [[n|c']|] eqn:E; [by destruct (Hr n) | done | done].
Qed.

Lemma keynat_step_char r c :
is_digit c = false → keynat_step r c = r ++ [Chr c].
Proof. intros Hc. unfold keynat_step, int_char. by rewrite Hc. Qed.

(** A run of digits after a number extends that number. *)
Lemma keynat_loop_digits ds : ∀ r n,
all_digits ds = true →
keynat_loop (r ++ [Num n]) ds = r ++ [Num (decimal_from n ds)].
Proof.
induction ds as [|c ds IH]; intros r n Hds; simpl in *; [done|].
apply andb_true_iff in Hds as [Hc Hds].
rewrite keynat_step_digit_num by done. by apply IH.
Qed.

(** A maximal run of digits becomes one number, its value. *)
Lemma keynat_loop_run ds r :
all_digits ds = true → ds ≠ "" → (∀ n, last r ≠ Some (Num n)) →
keynat_loop r ds = r ++ [Num (decimal ds)].
Proof.
destruct ds as [|c ds]; [done|]. simpl. intros Hds _ Hr.
apply andb_true_iff in Hds as [Hc Hds].
rewrite keynat_step_digit_other by done.
rewrite keynat_loop_digits by done. done.
Qed.

Lemma keynat_step_app r1 r2 c :
r2 ≠ [] → keynat_step (r1 ++ r2) c = r1 ++ keynat_step r2 c.
Proof.
intros Hr2. destruct (exists_last Hr2) as (r & x & ->).
unfold keynat_step. rewrite app_assoc, !last_snoc.
destruct (int_char c) as [d|]; [|by rewrite <- !app_assoc].
destruct x as [n|c'].
- rewrite !insert_last. by rewrite <- app_assoc.
- by rewrite <- !app_assoc.
Qed.

Lemma keynat_step_nonempty r c : keynat_step r c ≠ [].
Proof.
unfold keynat_step. destruct (int_char c) as [d|]; [|by destruct r].
destruct (last r) as [[n|c']|] eqn:E; try by destruct r.
intros H. apply (f_equal length) in H. rewrite length_insert in H.
destruct r; [done | discriminate].
Qed.

Lemma keynat_loop_frame s : ∀ r1 r2,
r2 ≠ [] → keynat_loop (r1 ++ r2) s = r1 ++ keynat_loop r2 s.
Proof.
induction s as [|c s IH]; intros r1 r2 Hr2; simpl; [done|].
rewrite keynat_step_app by done. apply IH, keynat_step_nonempty.
Qed.

Lemma keynat_loop_keynat r s :
starts_with_digit s = false ∨ (∀ n, last r ≠ Some (Num n)) →
keynat_loop r s = r ++ keynat s.
Proof.
unfold keynat. destruct s as [|c s]; simpl; [by rewrite app_nil_r|].
intros H.
assert (keynat_step r c = r ++ keynat_step [] c) as ->.
{ destruct (is_digit c) eqn:Hc.
  - destruct H as [H|H]; [congruence|].
    rewrite keynat_step_digit_other by done.
    by rewrite (keynat_step_digit_other []) by done.
  - by rewrite !keynat_step_char. }
apply keynat_loop_frame, keynat_step_nonempty.
Qed.

Lemma keynat_loop_ends_char s : ∀ r,
ends_with_digit s = false → s ≠ "" → ∃ r' c, keynat_loop r s = r' ++ [Chr c].
Proof.
induction s as [|c s IH]; intros r Hs Hne; [done|].
destruct s as [|c' s].
- simpl in *. rewrite keynat_step_char by done. by eexists _, _.
- change (keynat_loop r (String c (String c' s)))
    with (keynat_loop (keynat_step r c) (String c' s)).
  apply IH; done.
Qed.

Lemma last_keynat p n : ends_with_digit p = false → last (keynat p) ≠ Some (Num n).
Proof.
intros Hp. destruct (decide (p = "")) as [->|Hne]; [done|].
destruct (keynat_loop_ends_char p [] Hp Hne) as (r' & c & E).
unfold keynat. rewrite E, last_snoc. done.
Qed.

(** The key of a concatenation is the concatenation of the keys, unless a
  digit run straddles the seam. *)
Lemma keynat_app p s :
ends_with_digit p = false ∨ starts_with_digit s = false →
keynat (p +:+ s) = keynat p ++ keynat s.
Proof.
intros H. unfold keynat at 1. rewrite keynat_loop_app.
apply keynat_loop_keynat. destruct H as [H|H]; [right|by left].
intros n. by apply last_keynat.
Qed.

Lemma keynat_digits_then ds s :
all_digits ds = true → ds ≠ "" → starts_with_digit s = false →
keynat (ds +:+ s) = Num (decimal ds) :: keynat s.
Proof.
intros Hds Hne Hs. unfold keynat at 1.
rewrite keynat_loop_app, (keynat_loop_run ds []) by done.
rewrite keynat_loop_keynat by (by left). done.
Qed.

Lemma keynat_char_then c s :
is_digit c = false → keynat (String c s) = Chr c :: keynat s.
Proof.
intros Hc. unfold keynat at 1. simpl. rewrite keynat_step_char by done.
rewrite keynat_loop_keynat; [done|]. right. intros n. done.
Qed.

Lemma list_lt_app v k a b : list_lt v (k ++ a) (k ++ b) = list_lt v a b.
Proof. induction k as [|x k IH]; simpl; [done|]. by rewrite decide_True. Qed.



End KeynatFacts.



(** ** Rows that fit the ledger column *)

Lemma rstrip_nul_length (s : string) : (String.length (rstrip_nul s) ≤ String.length s)%nat.
Proof.
  induction s as [|c s IH]; simpl; [done|].
  destruct (rstrip_nul s) as [|c' t] eqn:E; simpl in *.
  - case_bool_decide; simpl; lia.
  - lia.
Qed.

Lemma rstrip_nul_idemp (s : string) : rstrip_nul (rstrip_nul s) = rstrip_nul s.
Proof.
  induction s as [|c s IH]; simpl; [done|].
  destruct (rstrip_nul s) as [|c' t] eqn:E.
  - case_bool_decide as Hc; simpl; [done|]. by rewrite bool_decide_false.
  - change (rstrip_nul (String c (String c' t)))
      with (match rstrip_nul (String c' t) with
            | EmptyString =>
                if bool_decide (c = Ascii.zero) then EmptyString else String c EmptyString
            | t' => String c t'
            end).
    rewrite IH. done.
Qed.

Lemma substring_all (n : nat) : ∀ s : string,
  (String.length s ≤ n)%nat → String.substring 0 n s = s.
Proof.
  induction n as [|n IH]; intros [|c s] Hlen; simpl in *; try done; try lia.
  rewrite IH by lia. done.
Qed.

Lemma substring_length_le (n : nat) : ∀ s : string,
  (String.length (String.substring 0 n s) ≤ n)%nat.
Proof.
  induction n as [|n IH]; intros [|c s]; simpl; try lia.
  specialize (IH s). lia.
Qed.

(** What a [StringAtom(1024)] column holds is stored unchanged. *)
Lemma StringAtom_fits (s : string) : fits (StringAtom 1024 s).
Proof.
  unfold fits, StringAtom.
  rewrite (substring_all 1024 (rstrip_nul _)).
  - apply rstrip_nul_idemp.
  - etrans; [apply rstrip_nul_length | apply substring_length_le].
Qed.

Lemma fits_length (s : string) : fits s → (String.length s ≤ 1024)%nat.
Proof.
  unfold fits, StringAtom. intros <-.
  etrans; [apply rstrip_nul_length | apply substring_length_le].
Qed.

Lemma map_StringAtom_fits (l : list string) :
  Forall fits l → map (StringAtom 1024) l = l.
Proof.
  induction 1 as [|x l Hx _ IH]; simpl; [done|]. unfold fits in Hx. by rewrite Hx, IH.
Qed.

(** ** The container operations, run on a world *)

Section RunFacts.
Context {real Topology Top : Type}.
Abbreviation W := (World real Topology).
Abbreviation St := (Store real Topology).
Abbreviation Tf := (TrajFrame real).
Implicit Types (w : W) (st : St) (path name : string) (rows : list string).

Lemma getattr_root_run w st path name rows :
  fs w !! path = Some st → arrays st !! name = Some rows →
  getattr_root path name w = (inr rows, w).
Proof.
  intros Hst Hrows. unfold getattr_root, bind, get_store, ret.
  by rewrite Hst, Hrows.
Qed.

Lemma write_run w st path block :
  fs w !! path = Some st →
  write path block w =
    (inr tt,
     {| fs := <[path := {| frames := Some (default [] (frames st) ++ block);
                           arrays := arrays st; topology := topology st |}]> (fs w);
        log := log w ++ [EvWrite path block] |}).
Proof.
  intros Hst. unfold write, bind, emit, get_store, put_store. simpl.
  by rewrite Hst.
Qed.

Lemma earray_append_run w st path name rows new :
  fs w !! path = Some st → arrays st !! name = Some rows →
  earray_append path name new w =
    (inr tt,
     {| fs := <[path := {| frames := frames st;
                           arrays := <[name := rows ++ map (StringAtom 1024) new]> (arrays st);
                           topology := topology st |}]> (fs w);
        log := log w ++ [EvAppend path name new] |}).
Proof.
  intros Hst Hrows. unfold earray_append, bind, emit, get_store, put_store. simpl.
  by rewrite Hst, Hrows.
Qed.

Lemma add_frames_snoc (old : option (list (Frame real))) f l :
  add_frames (Some (default [] old ++ [f])) l = add_frames old (f :: l).
Proof. destruct l; simpl; [done|]. by rewrite <- app_assoc. Qed.

Lemma add_frames_app (old : option (list (Frame real))) a b :
  add_frames (add_frames old a) b = add_frames old (a ++ b).
Proof.
  destruct a as [|x a]; [done|]. destruct b as [|y b]; simpl.
  - by rewrite app_nil_r.
  - by rewrite <- app_assoc.
Qed.

(** [for frame in trj: trj_file.write(...)] *)
Lemma write_frames_run (trj : list Tf) : ∀ w st path,
  fs w !! path = Some st →
  for_each trj (λ frame, write path [frame_of frame]) w =
    (inr tt,
     {| fs := <[path := {| frames := add_frames (frames st) (map frame_of trj);
                           arrays := arrays st; topology := topology st |}]> (fs w);
        log := log w ++ map (λ f, EvWrite path [frame_of f]) trj |}).
Proof.
  induction trj as [|f trj IH]; intros w st path Hst.
  - simpl. unfold ret. f_equal. destruct w as [fs0 log0]; simpl in *.
    f_equal; [|by rewrite app_nil_r].
    destruct st. by rewrite insert_id.
  - simpl. unfold bind at 1. rewrite (write_run _ st) by done.
    erewrite IH by (simpl; apply lookup_insert_eq). simpl.
    rewrite insert_insert_eq, <- app_assoc. simpl.
    by rewrite add_frames_snoc.
Qed.

Lemma merged_store_id st name rows (plan : list (string * action)) :
  arrays st !! name = Some rows →
  plan_merged plan = [] → plan_frames (real:=real) plan = [] →
  merged_store st name plan = st.
Proof.
  intros Hrows Hm Hf. unfold merged_store. rewrite Hrows, Hm, Hf. simpl.
  rewrite app_nil_r, insert_id by done. by destruct st.
Qed.

(** The merge loop does what [loop_plan] lists. *)
Lemma merge_loop_run path name (load : string → result (list Tf)) units : ∀ w st rows,
  fs w !! path = Some st → arrays st !! name = Some rows →
  for_each units (merge_unit path name load) w =
    (plan_result (loop_plan load units rows),
     {| fs := <[path := merged_store st name (loop_plan load units rows)]> (fs w);
        log := log w ++ plan_events path name (loop_plan load units rows) |}).
Proof.
  induction units as [|u units IH]; intros w st rows Hst Hrows.
  - cbn [for_each loop_plan plan_result plan_events]. unfold ret.
    erewrite merged_store_id by done.
    rewrite insert_id, app_nil_r by done. by destruct w.
  - cbn [for_each loop_plan]. unfold bind at 1, merge_unit at 1.
    unfold bind at 1. erewrite getattr_root_run by done.
    case_bool_decide as Hin.
    + unfold print, emit. cbn [fst snd].
      erewrite IH by (simpl; done). simpl. by rewrite <- app_assoc.
    + unfold print, emit, bind, lift. cbn [fs log].
      destruct (load u) as [e|trj] eqn:Hload.
      * cbn [plan_result plan_events unit_events].
        erewrite merged_store_id by done. rewrite insert_id by done.
        by rewrite <- app_assoc, app_nil_r.
      * erewrite write_frames_run by (simpl; done). cbn [fs log].
        erewrite earray_append_run; [|simpl; apply lookup_insert_eq|simpl; done].
        cbn [fs log].
        erewrite IH; [|simpl; apply lookup_insert_eq|simpl; apply lookup_insert_eq].
        cbn [fs log plan_result plan_events unit_events].
        f_equal. f_equal.
        -- rewrite !insert_insert_eq. f_equal. unfold merged_store.
           cbn [frames arrays topology plan_frames plan_merged map].
           rewrite lookup_insert_eq, Hrows, insert_insert_eq.
           cbn [default id]. rewrite add_frames_app, <- app_assoc. done.
        -- rewrite <- !app_assoc. done.
Qed.

Lemma opened_store_rows (old : option St) name (t : Topology) :
  arrays (opened_store old name t) !! name
  = Some (default [] (arrays (opened_store old name t) !! name)).
Proof.
  unfold opened_store. destruct (arrays (default empty_store old) !! name) eqn:E.
  - by rewrite E.
  - simpl. by rewrite lookup_insert_eq.
Qed.

Lemma open_output_run (env : Env real Topology Top) path name top w :
  open_output env path name top w =
    (inr tt,
     {| fs := <[path := opened_store (fs w !! path) name (topology_of env top)]> (fs w);
        log := log w ++ [EvOpen path ModeA] |}).
Proof.
  unfold open_output, HDF5TrajectoryFile, path_exists, try_except, create_earray,
    set_topology, bind, emit, get_store, put_store, raise, ret, opened_store.
  destruct (fs w !! path) as [st|] eqn:Hst; simpl.
  - rewrite Hst.
    destruct (arrays st !! name) as [rows|] eqn:Hrows; simpl.
    + rewrite insert_id by done. done.
    + rewrite lookup_insert_eq. simpl. rewrite insert_insert_eq. done.
  - rewrite lookup_insert_eq. simpl. rewrite lookup_empty. cbn [fs log].
    rewrite lookup_insert_eq. simpl. rewrite !insert_insert_eq. done.
Qed.

Lemma open_then_merge_run (env : Env real Topology Top) path name top load units w :
  bind (open_output env path name top) (λ _, for_each units (merge_unit path name load)) w
  = merge_run path name (topology_of env top) load units w.
Proof.
  unfold bind at 1. rewrite open_output_run.
  erewrite merge_loop_run;
    [|simpl; apply lookup_insert_eq|apply opened_store_rows].
  unfold merge_run. simpl. rewrite insert_insert_eq, <- app_assoc. done.
Qed.

(** concatenate_core17 on a world: discovery and sorting, then nothing for
    an empty list, else [merge_run]. *)
Lemma concatenate_core17_run (env : Env real Topology Top) path top output_filename w :
  concatenate_core17 env path top output_filename w =
    match Keynat.sorted_keynat (python env) (glob env (os_path_join path "results-*.tar.bz2")) with
    | inl e => (inl e, w)
    | inr [] => (inr tt, w)
    | inr units =>
        merge_run output_filename "processed_filenames" (topology_of env top)
          (λ f, load_positions env f top) units w
    end.
Proof.
  unfold concatenate_core17. unfold bind at 1, lift.
  destruct (Keynat.sorted_keynat _ _) as [e|[|u units]]; [done|done|].
  rewrite bool_decide_false by (simpl; lia).
  apply open_then_merge_run.
Qed.

Lemma concatenate_core17_filenames_run (env : Env real Topology Top)
    path top_filename output_filename w :
  concatenate_core17_filenames env path top_filename output_filename w =
    let w0 := {| fs := fs w; log := log w ++ [EvPrint output_filename] |} in
    match md_load_top env path top_filename output_filename with
    | inl e => (inl e, w0)
    | inr top =>
        match Keynat.sorted_keynat (python env)
                (glob env (os_path_join path "results-*.tar.bz2")) with
        | inl e => (inl e, w0)
        | inr [] => (inr tt, w0)
        | inr units =>
            let run := merge_run output_filename "processed_filenames" (topology_of env top)
                         (λ f, load_positions env f top) units w0 in
            (runtime_handler (fst run), snd run)
        end
    end.
Proof.
  unfold concatenate_core17_filenames. unfold bind at 1, print, emit.
  unfold bind at 1, lift. cbn zeta.
  destruct (md_load_top _ _ _ _) as [e|top]; [done|].
  unfold bind at 1.
  destruct (Keynat.sorted_keynat _ _) as [e|[|u units]]; [done|done|].
  rewrite bool_decide_false by (simpl; lia).
  unfold bind at 1. rewrite open_output_run.
  unfold try_except.
  erewrite merge_loop_run;
    [|simpl; apply lookup_insert_eq|apply opened_store_rows].
  unfold merge_run, runtime_handler, raise. cbn [fs log fst snd].
  rewrite insert_insert_eq, <- app_assoc.
  destruct (plan_result _) as [e|[]]; [|done].
  by destruct (is_RuntimeError e).
Qed.

Lemma concatenate_ocore_run (env : Env real Topology Top) path top output_filename w :
  concatenate_ocore env path top output_filename w =
    match listdir env path with
    | inl e => (inl e, w)
    | inr names =>
        match sorted_by_int (int_str env) names with
        | inl e => (inl e, w)
        | inr sorted_folders =>
            match map (os_path_join path) sorted_folders with
            | [] => (inr tt, w)
            | units =>
                merge_run output_filename "processed_folders" (topology_of env top)
                  (λ folder, md_load env (os_path_join folder "frames.xtc") top) units w
            end
        end
    end.
Proof.
  unfold concatenate_ocore. unfold bind at 1, lift.
  destruct (listdir env path) as [e|names]; [done|].
  unfold bind at 1.
  destruct (sorted_by_int _ _) as [e|folders]; [done|].
  destruct (map _ folders) as [|u units] eqn:E; [done|].
  rewrite bool_decide_false by (simpl; lia).
  apply open_then_merge_run.
Qed.

End RunFacts.

(** ** The plan of a run, and of the run after it *)

Section PlanFacts.
Context {real : Type}.
Variable load : string → result (list (TrajFrame real)).
Implicit Types (units rows : list string) (plan : list (string * action (real:=real))).

Abbreviation SA := (StringAtom 1024).

Lemma plan_result_failure plan :
  plan_result plan = match plan_failure plan with Some (_, e) => inl e | None => inr tt end.
Proof. induction plan as [|[u [|trj|e]] plan IH]; simpl; done. Qed.

(** A failing load ends the plan. *)
Lemma plan_failure_last plan u e :
  plan_failure plan = Some (u, e) →
  (∀ u' e', (u', Fail e') ∈ plan → ∃ plan0, plan = plan0 ++ [(u', Fail e')]) →
  ∃ plan0, plan = plan0 ++ [(u, Fail e)].
Proof.
  intros Hf Hlast. apply Hlast. clear Hlast.
  induction plan as [|[u0 [|trj|e0]] plan IH]; simpl in *; [done|..].
  - right. by apply IH.
  - right. by apply IH.
  - injection Hf as -> ->. left.
Qed.

Lemma loop_plan_fail_last units : ∀ rows u e,
  (u, Fail e) ∈ loop_plan load units rows →
  ∃ plan0, loop_plan load units rows = plan0 ++ [(u, Fail e)]
           ∧ load u = inl e
           ∧ (u ∉ rows ++ map SA (plan_merged plan0))
           ∧ plan_failure plan0 = None.
Proof.
  induction units as [|u0 units IH]; intros rows u e Hin; cbn [loop_plan] in *.
  - by apply elem_of_nil in Hin.
  - case_bool_decide as Hrows.
    + apply elem_of_cons in Hin as [Hin|Hin]; [done|].
      destruct (IH _ _ _ Hin) as (plan0 & -> & Hl & Hu & Hf).
      exists ((u0, Skip) :: plan0). done.
    + destruct (load u0) as [e0|trj] eqn:Hload.
      * apply list_elem_of_singleton in Hin. injection Hin as -> ->.
        exists []. simpl. by rewrite app_nil_r.
      * apply elem_of_cons in Hin as [Hin|Hin]; [done|].
        destruct (IH _ _ _ Hin) as (plan0 & -> & Hl & Hu & Hf).
        exists ((u0, Merge trj) :: plan0). simpl.
        by rewrite <- app_assoc in Hu.
Qed.

Lemma plan_failure_elem plan u e :
  plan_failure plan = Some (u, e) → (u, Fail e) ∈ plan.
Proof.
  induction plan as [|[u0 [|trj|e0]] plan IH]; simpl; intros Hf; [done|..].
  - right. by apply IH.
  - right. by apply IH.
  - injection Hf as -> ->. left.
Qed.

(** In a plan every merged unit loaded, and no unit was a row when its
    turn came. *)
Lemma loop_plan_merge_loaded units : ∀ rows u trj,
  (u, Merge trj) ∈ loop_plan load units rows → load u = inr trj.
Proof.
  induction units as [|u0 units IH]; intros rows u trj Hin; cbn [loop_plan] in *.
  - by apply elem_of_nil in Hin.
  - case_bool_decide as Hrows.
    + apply elem_of_cons in Hin as [Hin|Hin]; [done | by eapply IH].
    + destruct (load u0) as [e0|trj0] eqn:Hload.
      * by apply list_elem_of_singleton in Hin.
      * apply elem_of_cons in Hin as [Hin|Hin]; [by injection Hin as -> -> | by eapply IH].
Qed.

(** The run after: with the rows the first run left (up to their order
    and repetitions), the loop stops at the same failing unit, or at
    none. *)
Lemma rerun_failure units : ∀ rows R',
  (∀ x, x ∈ R' ↔ x ∈ rows ++ map SA (plan_merged (loop_plan load units rows))) →
  plan_failure (loop_plan load units R') = plan_failure (loop_plan load units rows).
Proof.
  induction units as [|u units IH]; intros rows R' HR; cbn [loop_plan] in *; [done|].
  destruct (decide (u ∈ rows)) as [Hu|Hu].
  - rewrite (bool_decide_true (u ∈ rows)) in * by done.
    rewrite bool_decide_true by (apply HR, elem_of_app; by left).
    cbn [plan_failure plan_merged] in *. by apply IH.
  - rewrite (bool_decide_false (u ∈ rows)) in * by done.
    destruct (load u) as [e|trj] eqn:Hload.
    + cbn [plan_merged map] in HR. rewrite app_nil_r in HR.
      rewrite bool_decide_false by (by rewrite HR). done.
    + cbn [plan_merged map] in HR.
      assert (∀ x, x ∈ R' ↔
                x ∈ (rows ++ [SA u])
                    ++ map SA (plan_merged (loop_plan load units (rows ++ [SA u]))))
        as HR' by (intros x; by rewrite HR, <- app_assoc).
      case_bool_decide as Hu'; cbn [plan_failure]; apply IH; [done|].
      intros x. rewrite elem_of_app, HR', list_elem_of_singleton.
      split; [|by left]. intros [Hx| ->]; [done|].
      apply elem_of_app. left. apply elem_of_app. right. left.
Qed.


End PlanFacts.

(** ** Sorting permutes *)

Section SortFacts.
Context {K A : Type} (lt : K → K → result bool).

Lemma insert_by_perm x (l : list (K * A)) : ∀ l',
  insert_by lt x l = inr l' → l' ≡ₚ x :: l.
Proof.
  induction l as [|y l IH]; intros l' H; simpl in H.
  - by injection H as <-.
  - destruct (lt y.1 x.1) as [e|[|]]; [done|..].
    + destruct (insert_by lt x l) as [e|l''] eqn:E; [done|].
      injection H as <-. rewrite (IH l'') by done. apply Permutation_swap.
    + by injection H as <-.
Qed.

Lemma sort_by_perm (l : list (K * A)) : ∀ l', sort_by lt l = inr l' → l' ≡ₚ l.
Proof.
  induction l as [|x l IH]; intros l' H; simpl in H.
  - by injection H as <-.
  - destruct (sort_by lt l) as [e|s] eqn:E; [done|].
    rewrite (insert_by_perm _ _ _ H). by rewrite (IH s).
Qed.
End SortFacts.


Lemma with_keys_snd {K A} (f : A → result K) (l : list A) : ∀ keyed,
  with_keys f l = inr keyed → map snd keyed = l.
Proof.
  induction l as [|x l IH]; intros keyed H; simpl in H.
  - by injection H as <-.
  - destruct (f x) as [e|k]; [done|].
    destruct (with_keys f l) as [e|r] eqn:E; [done|].
    injection H as <-. simpl. by rewrite (IH r).
Qed.


(** ** The merge functions as one step on the world *)

Section MergeFacts.
Context {real Topology Top : Type}.
Implicit Types (env : Env real Topology Top) (a : adapter (Top:=Top))
  (w : World real Topology) (path output_filename : string).

Lemma run_eta (x : result unit * World real Topology) :
  x = (match x.1 with inl e => inl e | inr y => inr y end, x.2).
Proof. by destruct x as [[e|[]] w']. Qed.

Lemma merge_run_eq env a path output_filename w :
  merge env a path output_filename w =
    let w0 := {| fs := fs w; log := log w ++ prelude_events a output_filename |} in
    match prelude_top env a path output_filename with
    | inl e => (inl e, w0)
    | inr top =>
        match discover env a path with
        | inl e => (inl e, w0)
        | inr [] => (inr tt, w0)
        | inr units =>
            let run := merge_run output_filename (ledger_name a) (topology_of env top)
                         (loader env a top) units w0 in
            (match fst run with inl e => inl (surfaced a e) | inr x => inr x end, snd run)
        end
    end.
Proof.
  destruct a as [top|top_filename|top]; cbn [merge prelude_events prelude_top discover].
  - rewrite concatenate_core17_run, app_nil_r. cbn zeta.
    replace {| fs := fs w; log := log w |} with w by (by destruct w).
    destruct (Keynat.sorted_keynat _ _) as [e|[|u units]]; [done|done|].
    cbn [ledger_name loader surfaced]. apply run_eta.
  - rewrite concatenate_core17_filenames_run. cbn zeta.
    destruct (md_load_top _ _ _ _) as [e|top]; [done|].
    destruct (Keynat.sorted_keynat _ _) as [e|[|u units]]; [done|done|].
    cbn [ledger_name loader].
    assert (∀ r : result unit,
              runtime_handler r =
              match r with
              | inl e => inl (surfaced (Top:=Top) (Core17Filenames top_filename) e)
              | inr x => inr x
              end) as Hh.
    { intros [e|[]]; simpl; [by destruct (is_RuntimeError e) | done]. }
    by rewrite Hh.
  - rewrite concatenate_ocore_run, app_nil_r. cbn zeta.
    replace {| fs := fs w; log := log w |} with w by (by destruct w).
    destruct (listdir env path) as [e|names]; [done|].
    destruct (sorted_by_int _ _) as [e|folders]; [done|].
    destruct (map _ folders) as [|u units]; [done|].
    cbn [ledger_name loader surfaced]. apply run_eta.
Qed.


End MergeFacts.

(** ** The trace of the merge loop *)


Section TraceFacts.
Context {real : Type}.
Variable load : string → result (list (TrajFrame real)).
Variables path name : string.
Implicit Types (units rows : list string) (plan : list (string * action (real:=real)))
  (pre post : list (Event real)).





Lemma appended_app (t1 t2 : list (Event real)) :
  appended path name (t1 ++ t2) = appended path name t1 ++ appended path name t2.
Proof.
  induction t1 as [|[| | | |p n rs] t1 IH]; simpl; try done.
  case_bool_decide; [|done]. by rewrite IH, app_assoc.
Qed.

Lemma appended_writes (trj : list (TrajFrame real)) :
  appended path name (map (λ f, EvWrite path [frame_of f]) trj) = [].
Proof. induction trj; simpl; done. Qed.

Lemma appended_plan plan : appended path name (plan_events path name plan) = plan_merged plan.
Proof.
  induction plan as [|[u [|trj|e]] plan IH]; cbn [plan_events unit_events plan_merged];
    rewrite ?appended_app, ?appended_writes; simpl; try done.
  rewrite bool_decide_true by done. simpl. by rewrite IH.
Qed.


Lemma plan_merged_fresh units : ∀ rows u,
  u ∈ plan_merged (loop_plan load units rows) → u ∉ rows.
Proof.
  induction units as [|u0 units IH]; intros rows u; cbn [loop_plan].
  - by intros ?%elem_of_nil.
  - case_bool_decide as Hrows; cbn [plan_merged]; [apply IH|].
    destruct (load u0); cbn [plan_merged]; [by intros ?%elem_of_nil|].
    intros [->|Hin]%elem_of_cons; [done|].
    apply IH in Hin. intros ?. apply Hin, elem_of_app. by left.
Qed.

End TraceFacts.

(** ** The merge functions: what they leave in the store and in the trace *)

Section MergeClaims.
Context {real Topology Top : Type}.
Implicit Types (env : Env real Topology Top) (a : adapter (Top:=Top))
  (w : World real Topology) (path output_filename : string).


Lemma appended_prelude a output_filename name :
  appended output_filename name (prelude_events (real:=real) a output_filename) = [].
Proof. by destruct a. Qed.

Lemma rows_at_opened (old : option (Store real Topology)) name (t : Topology) :
  default [] (arrays (opened_store old name t) !! name)
  = match old with Some st => default [] (arrays st !! name) | None => [] end.
Proof.
  unfold opened_store. destruct old as [st|]; simpl.
  - destruct (arrays st !! name) eqn:E; [by rewrite E|]. simpl. by rewrite lookup_insert_eq.
  - rewrite lookup_empty. simpl. by rewrite lookup_insert_eq.
Qed.

Lemma rows_at_merge_run output_filename name (t : Topology) load units w :
  rows_at (merge_run output_filename name t load units w).2 output_filename name
  = rows_at w output_filename name
      ++ map (StringAtom 1024)
           (plan_merged (loop_plan load units (rows_at w output_filename name))).
Proof.
  unfold rows_at at 1, merge_run. cbn [snd fs]. rewrite lookup_insert_eq.
  unfold merged_store. cbn [arrays]. rewrite lookup_insert_eq. cbn [default].
  by rewrite rows_at_opened.
Qed.

(** C10. When the list of discovered units is empty the merge function
    returns without touching the file system: the world after the call is
    the world before it, but for the line that concatenate_core17_filenames
    prints first; no file is opened. (concatenate_core17_filenames has
    loaded the topology file before, and raises if that fails.) *)
Theorem merge_of_nothing env a path output_filename w :
  discover env a path = inr [] →
  merge env a path output_filename w =
    (match prelude_top env a path output_filename with
     | inl e => inl e
     | inr _ => inr tt
     end,
     {| fs := fs w; log := log w ++ prelude_events a output_filename |}).
Proof.
  intros Hd. rewrite merge_run_eq. cbn zeta.
  destruct (prelude_top _ _ _ _); [done|]. by rewrite Hd.
Qed.



(** The rows of the ledger stay values of its column: every row a merge
    call appends fits. *)
Lemma merge_keeps_rows_wf env a path output_filename w :
  wf_rows (rows_at w output_filename (ledger_name a)) →
  wf_rows (rows_at (merge env a path output_filename w).2 output_filename (ledger_name a)).
Proof.
  intros Hwf. rewrite merge_run_eq. cbn zeta.
  destruct (prelude_top env a path output_filename) as [e|top]; [done|].
  destruct (discover env a path) as [e|[|u0 units]]; [done|done|].
  cbn [snd]. rewrite rows_at_merge_run. apply Forall_app. split; [done|].
  apply Forall_forall. intros x (u & -> & _)%list_elem_of_fmap. apply StringAtom_fits.
Qed.

End MergeClaims.

(** ** Running a merge function again *)

Section AgainFacts.
Context {real Topology : Type}.
Variable load : string → result (list (TrajFrame real)).
Variables path name : string.
Variable t : Topology.
Implicit Types (units rows : list string) (plan : list (string * action (real:=real)))
  (w : World real Topology).

Lemma plan_events_snoc plan step :
  plan_events path name (plan ++ [step])
  = plan_events path name plan ++ unit_events path name step.
Proof.
  induction plan as [|s plan IH]; cbn [app plan_events].
  - by rewrite app_nil_r.
  - by rewrite IH, app_assoc.
Qed.

Lemma plan_merged_snoc_fail plan u e :
  plan_merged (plan ++ [(u, Fail e)]) = plan_merged plan.
Proof. induction plan as [|[u0 [|trj|e0]] plan IH]; simpl; congruence. Qed.

Lemma plan_failure_snoc plan u e :
  plan_failure plan = None → plan_failure (plan ++ [(u, Fail e)]) = Some (u, e).
Proof. induction plan as [|[u0 [|trj|e0]] plan IH]; simpl; auto; done. Qed.

Lemma load_in_plan_events plan u :
  EvLoad u ∈ plan_events path name plan →
  (∃ trj, (u, Merge trj) ∈ plan) ∨ (∃ e, (u, Fail e) ∈ plan).
Proof.
  induction plan as [|[u0 [|trj|e0]] plan IH]; cbn [plan_events unit_events].
  - by intros ?%elem_of_nil.
  - intros [Hin|Hin]%elem_of_app.
    + by apply list_elem_of_singleton in Hin.
    + destruct (IH Hin) as [[trj ?]|[e ?]]; [left; exists trj|right; exists e]; by right.
  - rewrite <- !app_assoc. intros [Hin|Hin]%elem_of_app.
    + apply elem_of_cons in Hin as [Hin|Hin]; [done|].
      apply list_elem_of_singleton in Hin. injection Hin as ->.
      left. exists trj. left.
    + apply elem_of_app in Hin as [Hin|Hin].
      { apply list_elem_of_fmap in Hin as (f & ? & _). done. }
      apply elem_of_cons in Hin as [Hin|Hin]; [done|].
      destruct (IH Hin) as [[trj' ?]|[e ?]]; [left; exists trj'|right; exists e]; by right.
  - intros [Hin|Hin]%elem_of_app.
    + apply elem_of_cons in Hin as [Hin|Hin]; [done|].
      apply list_elem_of_singleton in Hin. injection Hin as ->.
      right. exists e0. left.
    + destruct (IH Hin) as [[trj ?]|[e ?]]; [left; exists trj|right; exists e]; by right.
Qed.

(** A load that is attempted and fails is the last thing the loop does. *)
Lemma failing_load_ends units rows u e :
  EvLoad u ∈ plan_events path name (loop_plan load units rows) → load u = inl e →
  ∃ plan0,
    loop_plan load units rows = plan0 ++ [(u, Fail e)]
    ∧ plan_failure (loop_plan load units rows) = Some (u, e)
    ∧ (u ∉ rows ++ map (StringAtom 1024) (plan_merged (loop_plan load units rows))).
Proof.
  intros Hin Hload. apply load_in_plan_events in Hin as [[trj Hin]|[e' Hin]].
  { apply loop_plan_merge_loaded in Hin. congruence. }
  apply loop_plan_fail_last in Hin as (plan0 & Hplan & Hl & Hu & Hf).
  assert (e' = e) as -> by congruence.
  exists plan0. rewrite Hplan, plan_merged_snoc_fail.
  split; [done|]. split; [by apply plan_failure_snoc | done].
Qed.

Lemma failure_ends_plan units rows u e :
  plan_failure (loop_plan load units rows) = Some (u, e) →
  ∃ plan0, loop_plan load units rows = plan0 ++ [(u, Fail e)].
Proof.
  intros Hf. apply plan_failure_elem, loop_plan_fail_last in Hf as (plan0 & Hplan & _).
  by exists plan0.
Qed.

(** The second run starts from the store and the rows the first run
    left. *)
Lemma merge_run_second units w w1 :
  fs w1 = fs (merge_run path name t load units w).2 →
  let st0 := opened_store (fs w !! path) name t in
  let rows0 := default [] (arrays st0 !! name) in
  let plan1 := loop_plan load units rows0 in
  let st1 := merged_store st0 name plan1 in
  let plan2 := loop_plan load units (rows0 ++ map (StringAtom 1024) (plan_merged plan1)) in
  merge_run path name t load units w1
  = (plan_result plan2,
     {| fs := <[path := merged_store st1 name plan2]> (fs w1);
        log := log w1 ++ EvOpen path ModeA :: plan_events path name plan2 |}).
Proof.
  intros Hfs. cbn zeta. unfold merge_run at 1. rewrite Hfs.
  unfold merge_run. cbn [snd fs]. rewrite lookup_insert_eq.
  assert (∀ st plan,
            opened_store (Some (merged_store st name plan)) name t
            = merged_store st name plan) as Hopen.
  { intros st plan. unfold opened_store, merged_store. simpl.
    by rewrite lookup_insert_eq. }
  rewrite Hopen.
  assert (∀ (st : Store real Topology) plan,
            default [] (arrays (merged_store st name plan) !! name)
            = default [] (arrays st !! name) ++ map (StringAtom 1024) (plan_merged plan))
    as Hrows.
  { intros st plan. unfold merged_store. cbn [arrays]. by rewrite lookup_insert_eq. }
  rewrite Hrows. done.
Qed.

Lemma merged_store_lookup (st : Store real Topology) plan :
  arrays (merged_store st name plan) !! name
  = Some (default [] (arrays st !! name) ++ map (StringAtom 1024) (plan_merged plan)).
Proof. unfold merged_store. cbn [arrays]. by rewrite lookup_insert_eq. Qed.


(** A failing load, in the run where it happens and in the run after. *)
Lemma merge_run_failure units w u e new :
  log (merge_run path name t load units w).2 = log w ++ new →
  EvLoad u ∈ new → load u = inl e →
  (merge_run path name t load units w).1 = inl e
  ∧ (∃ pre, new = pre ++ [EvPrint ("Processing " +:+ u); EvLoad u])
  ∧ (u ∉ rows_at (merge_run path name t load units w).2 path name)
  ∧ ∀ w1, fs w1 = fs (merge_run path name t load units w).2 →
      (merge_run path name t load units w1).1 = inl e
      ∧ ∃ pre, log (merge_run path name t load units w1).2
               = log w1 ++ pre ++ [EvPrint ("Processing " +:+ u); EvLoad u].
Proof.
  intros Hlog Hin Hload.
  set (st0 := opened_store (fs w !! path) name t).
  set (rows0 := default [] (arrays st0 !! name)).
  set (plan1 := loop_plan load units rows0).
  assert (merge_run path name t load units w
          = (plan_result plan1,
             {| fs := <[path := merged_store st0 name plan1]> (fs w);
                log := log w ++ EvOpen path ModeA :: plan_events path name plan1 |}))
    as Hrun by done.
  rewrite Hrun in Hlog |- *. cbn [fst snd log] in *.
  apply app_inv_head in Hlog. subst new.
  apply elem_of_cons in Hin as [Hin|Hin]; [done|].
  destruct (failing_load_ends units rows0 u e Hin Hload) as (plan0 & Hplan & Hfail & Hu).
  fold plan1 in Hplan, Hfail, Hu.
  split; [by rewrite plan_result_failure, Hfail|].
  split.
  { exists (EvOpen path ModeA :: plan_events path name plan0).
    rewrite Hplan, plan_events_snoc. done. }
  split.
  { unfold rows_at. cbn [fs]. rewrite lookup_insert_eq. by rewrite merged_store_lookup. }
  intros w1 Hw1.
  pose proof (merge_run_second units w w1) as Hsecond.
  rewrite Hrun in Hsecond. specialize (Hsecond Hw1).
  cbn zeta in Hsecond. fold st0 rows0 plan1 in Hsecond.
  set (plan2 := loop_plan load units (rows0 ++ map (StringAtom 1024) (plan_merged plan1)))
    in Hsecond.
  assert (plan_failure plan2 = Some (u, e)) as Hfail2.
  { unfold plan2. rewrite (rerun_failure load units rows0) by done. exact Hfail. }
  destruct (failure_ends_plan units _ u e Hfail2) as (plan3 & Hplan3).
  fold plan2 in Hplan3.
  rewrite Hsecond. cbn [fst snd log].
  split; [by rewrite plan_result_failure, Hfail2|].
  exists (EvOpen path ModeA :: plan_events path name plan3).
  rewrite Hplan3, plan_events_snoc. done.
Qed.

End AgainFacts.

Section IdempotenceClaims.
Context {real Topology Top : Type}.
Implicit Types (env : Env real Topology Top) (a : adapter (Top:=Top))
  (w : World real Topology) (path output_filename : string).


End IdempotenceClaims.

Section FailureClaims.
Context {real Topology Top : Type}.
Implicit Types (env : Env real Topology Top) (a : adapter (Top:=Top))
  (w : World real Topology) (path output_filename : string).

Lemma load_not_in_prelude a output_filename u :
  EvLoad u ∉ prelude_events (real:=real) a output_filename.
Proof.
  destruct a; simpl; [by intros ?%elem_of_nil| |by intros ?%elem_of_nil].
  by intros ?%list_elem_of_singleton.
Qed.

(** C9. When a merge call attempts the load of a unit and the load
    raises, the call raises: the exception of the load, or NameError from
    the handler of concatenate_core17_filenames when that exception is a
    RuntimeError. The load is the last thing the call does, so the last
    line printed names the unit; the unit is no row of the ledger after the
    call; and a second call on the world the first one left gets to the
    same unit, attempts its load again and raises the same. *)
Theorem failed_load_aborts env a path output_filename w top u e new :
  prelude_top env a path output_filename = inr top →
  log (merge env a path output_filename w).2 = log w ++ new →
  EvLoad u ∈ new →
  loader env a top u = inl e →
  let once := merge env a path output_filename w in
  let again := merge env a path output_filename once.2 in
  once.1 = inl (surfaced a e)
  ∧ (∃ pre, new = pre ++ [EvPrint ("Processing " +:+ u); EvLoad u])
  ∧ (u ∉ rows_at once.2 output_filename (ledger_name a))
  ∧ again.1 = inl (surfaced a e)
  ∧ (∃ pre, log again.2 = log once.2 ++ pre ++ [EvPrint ("Processing " +:+ u); EvLoad u]).
Proof.
  intros Htop Hlog Hin Hload. cbn zeta.
  rewrite (merge_run_eq env a path output_filename w) in *. cbn zeta in *.
  rewrite Htop in *.
  destruct (discover env a path) as [e0|[|u0 units]] eqn:Hd.
  1,2: cbn [snd log] in Hlog; apply app_inv_head in Hlog; subst new;
       by apply load_not_in_prelude in Hin.
  cbn [fst snd] in *.
  set (w0 := {| fs := fs w; log := log w ++ prelude_events a output_filename |}) in *.
  set (run1 := merge_run output_filename (ledger_name a) (topology_of env top)
                 (loader env a top) (u0 :: units) w0) in *.
  assert (∃ new0, new = prelude_events a output_filename ++ new0
                  ∧ log run1.2 = log w0 ++ new0) as (new0 & -> & Hlog0).
  { exists (EvOpen output_filename ModeA
              :: plan_events output_filename (ledger_name a)
                   (loop_plan (loader env a top) (u0 :: units)
                      (default [] (arrays (opened_store (fs w0 !! output_filename)
                                             (ledger_name a) (topology_of env top))
                                   !! ledger_name a)))).
    split; [|done]. eapply app_inv_head. rewrite <- Hlog.
    unfold run1, merge_run. subst w0. cbn [snd log fs]. by rewrite <- app_assoc. }
  apply elem_of_app in Hin as [Hin|Hin]; [by apply load_not_in_prelude in Hin|].
  destruct (merge_run_failure (loader env a top) output_filename (ledger_name a)
              (topology_of env top) (u0 :: units) w0 u e new0 Hlog0 Hin Hload)
    as (Hr & (pre & ->) & Hu & Hagain).
  fold run1 in Hr, Hu, Hagain.
  split; [by rewrite Hr|].
  split; [exists (prelude_events a output_filename ++ pre); by rewrite <- app_assoc|].
  split; [done|].
  rewrite merge_run_eq. cbn zeta. rewrite Htop, Hd. cbn [fst snd].
  set (w1 := {| fs := fs run1.2; log := log run1.2 ++ prelude_events a output_filename |}).
  destruct (Hagain w1 eq_refl) as (Hr2 & pre2 & Hlog2).
  split; [by rewrite Hr2|].
  exists (prelude_events a output_filename ++ pre2).
  rewrite Hlog2. subst w1. cbn [log]. by rewrite <- !app_assoc.
Qed.

End FailureClaims.

(** ** strip_water on a world *)

Section DeriveFacts.
Context {real Topology Top : Type}.
Implicit Types (env : Env real Topology Top) (w : World real Topology)
  (st full : Store real Topology) (path name key : string).

Lemma len_frames_run w st path :
  fs w !! path = Some st →
  len_frames path w =
    (match frames st with
     | Some l => inr (length l)
     | None => inl (NoSuchNodeError "coordinates")
     end, w).
Proof.
  intros Hst. unfold len_frames, bind, get_store, ret, raise. rewrite Hst.
  by destruct (frames st).
Qed.

Lemma hasattr_root_run w st path name :
  fs w !! path = Some st →
  hasattr_root path name w = (inr (bool_decide (is_Some (arrays st !! name))), w).
Proof. intros Hst. unfold hasattr_root, bind, get_store, ret. by rewrite Hst. Qed.

Lemma open_append_run w path :
  HDF5TrajectoryFile path ModeA w =
    (inr tt, {| fs := <[path := default empty_store (fs w !! path)]> (fs w);
                log := log w ++ [EvOpen path ModeA] |}).
Proof.
  unfold HDF5TrajectoryFile, path_exists, bind, put_store, emit, ret.
  destruct (fs w !! path) as [st|] eqn:Hst; simpl; [|done].
  by rewrite insert_id.
Qed.

Lemma open_read_run w st path :
  fs w !! path = Some st →
  HDF5TrajectoryFile path ModeR w =
    (inr tt, {| fs := fs w; log := log w ++ [EvOpen path ModeR] |}).
Proof.
  intros Hst. unfold HDF5TrajectoryFile, path_exists, bind, emit, ret.
  by rewrite Hst.
Qed.

Lemma init_derived_same env full key indices :
  is_Some (arrays full !! key) →
  init_derived env full (Some full) key indices = (inr tt, full).
Proof. intros [rows Hrows]. unfold init_derived. simpl. by rewrite Hrows. Qed.

Lemma init_derived_key env full old key indices :
  (init_derived env full old key indices).1 = inr tt →
  is_Some (arrays (init_derived env full old key indices).2 !! key).
Proof.
  unfold init_derived. cbn zeta.
  destruct (arrays (default empty_store old) !! key) as [rows|] eqn:Hrows.
  { cbn [fst snd]. intros _. by rewrite Hrows. }
  destruct (topology full) as [t|]; [|done].
  destruct (subset env t indices) as [e|t']; simpl; intros _; by rewrite lookup_insert_eq.
Qed.

(** The guarded set-up of the derived store (fah.py 109-113). *)
Lemma setup_run env w full st_open allatom_filename protein_filename key indices :
  fs w !! protein_filename = Some st_open →
  fs w !! allatom_filename = Some full →
  is_Some (arrays full !! key) →
  try_except
    (let* _ := create_earray protein_filename key in
     let* t := get_topology allatom_filename in
     match t with
     | None => raise err_no_subset
     | Some t =>
         let* t' := lift (subset env t indices) in
         set_topology protein_filename t'
     end)
    is_NodeError (ret tt) w
  = ((init_derived env full (Some st_open) key indices).1,
     {| fs := <[protein_filename := (init_derived env full (Some st_open) key indices).2]> (fs w);
        log := log w |}).
Proof.
  intros Hp Ha [rows_a Hkey].
  unfold try_except, init_derived. cbn zeta. cbn [default from_option id].
  unfold bind at 1, create_earray. unfold bind at 1, get_store. rewrite Hp.
  destruct (arrays st_open !! key) as [rows|] eqn:Hrows.
  - unfold raise. cbn [is_NodeError fst snd]. unfold ret.
    rewrite insert_id by done. by destruct w.
  - assert (allatom_filename ≠ protein_filename) as Hne by (intros ->; congruence).
    unfold put_store. cbn [fst snd].
    unfold bind at 1, get_topology. unfold bind at 1, get_store. cbn [fs log].
    rewrite lookup_insert_ne by done. rewrite Ha. unfold ret.
    destruct (topology full) as [t|].
    + unfold bind at 1, lift.
      destruct (subset env t indices) as [e|t'].
      * destruct (is_NodeError e); done.
      * unfold set_topology, bind, get_store, put_store. cbn [fs log].
        rewrite lookup_insert_eq. cbn [fs log frames arrays topology fst snd].
        by rewrite insert_insert_eq.
    + unfold raise. done.
Qed.

Lemma ledger_key_Some full key :
  ledger_key full = Some key → is_Some (arrays full !! key).
Proof.
  unfold ledger_key. repeat case_bool_decide; intros ?; by simplify_eq.
Qed.

(** strip_water does what [derive_run] says. *)
Lemma strip_water_run env allatom_filename protein_filename indices min_num_frames w :
  strip_water env allatom_filename protein_filename indices min_num_frames w
  = derive_run env allatom_filename protein_filename indices min_num_frames w.
Proof.
  unfold strip_water, derive_run.
  unfold bind at 1, path_exists.
  destruct (fs w !! allatom_filename) as [full|] eqn:Ha; [|done].
  rewrite bool_decide_true by eauto. cbn [negb].
  unfold bind at 1. erewrite open_read_run by exact Ha.
  unfold bind at 1. erewrite len_frames_run by (cbn [fs]; exact Ha).
  destruct (frames full) as [fa|] eqn:Hfa; [|done].
  unfold bind at 1, print, emit. cbn [fs log].
  unfold bind at 1. erewrite len_frames_run by (cbn [fs]; exact Ha). rewrite Hfa.
  rewrite <- app_assoc. cbn [app].
  case_bool_decide as Hmin; [done|].
  unfold bind at 1. erewrite hasattr_root_run by (cbn [fs]; exact Ha).
  unfold bind at 1. erewrite hasattr_root_run by (cbn [fs]; exact Ha).
  set (w2 := {| fs := fs w; log := _ |}).
  assert (fs w2 !! allatom_filename = Some full) as Ha2 by done.
  assert (fs w2 = fs w) as Hfs2 by done.
  assert (log w2 = log w ++ [EvOpen allatom_filename ModeR;
                             EvPrint (msg_allatom allatom_filename (length fa))]) as Hlog2
    by done.
  clearbody w2.
  destruct (ledger_key full) as [key|] eqn:Hkey; unfold ledger_key in Hkey.
  2: { repeat case_bool_decide; done. }
  assert (is_Some (arrays full !! key)) as Hrows_a.
  { apply ledger_key_Some. exact Hkey. }
  assert (∀ k : string → M real Topology unit,
            bind (if bool_decide (is_Some (arrays full !! "processed_filenames"))
                  then ret "processed_filenames"
                  else if bool_decide (is_Some (arrays full !! "processed_directories"))
                       then ret "processed_directories"
                       else raise (err_no_key allatom_filename)) k w2
            = k key w2) as ->.
  { intros k. repeat case_bool_decide; by simplify_eq. }
  unfold bind at 1. rewrite open_append_run.
  unfold bind at 1.
  erewrite (setup_run env _ full);
    [|cbn [fs]; apply lookup_insert_eq| |exact Hrows_a].
  2: { cbn [fs]. destruct (decide (allatom_filename = protein_filename)) as [<-|Hne].
       - rewrite lookup_insert_eq, Ha2. done.
       - by rewrite lookup_insert_ne. }
  cbn [fs log]. rewrite insert_insert_eq, Hfs2, Hlog2.
  change (init_derived env full (Some (default empty_store (fs w !! protein_filename)))
            key indices)
    with (init_derived env full (fs w !! protein_filename) key indices).
  pose proof (init_derived_key env full (fs w !! protein_filename) key indices) as Hrows_p.
  assert (fs w !! allatom_filename = Some full →
          (init_derived env full (fs w !! protein_filename) key indices).1 = inr tt →
          <[protein_filename := (init_derived env full (fs w !! protein_filename)
                                   key indices).2]> (fs w) !! allatom_filename
          = Some full) as Ha3.
  { intros Ha' Hok. destruct (decide (allatom_filename = protein_filename)) as [<-|Hne].
    - rewrite Ha', init_derived_same by done. by rewrite lookup_insert_eq.
    - by rewrite lookup_insert_ne. }
  specialize (Ha3 Ha).
  destruct (init_derived env full (fs w !! protein_filename) key indices) as [r st1].
  cbn [fst snd] in *. destruct r as [e|[]]; [done|].
  specialize (Ha3 eq_refl). destruct (Hrows_p eq_refl) as [rows_p Hp].
  destruct Hrows_a as [rows_a Hrows_a]. clear Hrows_p.
  unfold bind at 1. erewrite len_frames_run by (cbn [fs]; exact Ha3). rewrite Hfa.
  unfold bind at 1, try_except.
  erewrite len_frames_run by (cbn [fs]; apply lookup_insert_eq).
  assert (∀ (k : nat → M real Topology unit) w0,
            match
              (let (r, w') :=
                 (match frames st1 with
                  | Some l => inr (length l)
                  | None => inl (NoSuchNodeError "coordinates")
                  end, w0) in
               match r with
               | inl e => if is_NoSuchNodeError e then ret 0%nat w' else (inl e, w')
               | inr a0 => (inr a0, w')
               end)
            with
            | (inl e, w') => (inl e, w')
            | (inr a0, w') => k a0 w'
            end = k (length (default [] (frames st1))) w0) as ->.
  { intros k w0. by destruct (frames st1). }
  unfold bind at 1. erewrite getattr_root_run by (cbn [fs]; done).
  unfold bind at 1. erewrite getattr_root_run by (cbn [fs]; done || apply lookup_insert_eq).
  unfold bind at 1. cbn [fs log]. rewrite Hrows_a, Hp. cbn [default from_option id].
  clear Hkey.
  repeat case_bool_decide; cbn [orb andb negb]; try done.
  unfold bind at 1. unfold seek_read at 1, bind at 1, get_store. cbn [fs log].
  rewrite Ha3. unfold ret. rewrite Hfa. cbn [default from_option id].
  unfold bind at 1, lift.
  destruct (strip_block indices _) as [e|block]; [done|].
  unfold bind at 1. erewrite write_run by (cbn [fs]; apply lookup_insert_eq).
  erewrite earray_append_run;
    [|cbn [fs]; apply lookup_insert_eq|cbn [arrays]; exact Hp].
  cbn [fs log frames arrays topology]. rewrite !insert_insert_eq, <- !app_assoc. done.
Qed.

End DeriveFacts.

(** ** strip_water: what a call that wrote frames did *)

Section DeriveClaims.
Context {real Topology Top : Type}.
Implicit Types (env : Env real Topology Top) (w : World real Topology)
  (st full : Store real Topology) (key : string).

Lemma init_derived_frames env full old key indices :
  frames (init_derived env full old key indices).2 = frames (default empty_store old).
Proof.
  unfold init_derived. cbn zeta.
  destruct (arrays (default empty_store old) !! key); [done|].
  destruct (topology full) as [t|]; [|done]. by destruct (subset env t indices).
Qed.

Lemma init_derived_rows env full old key indices :
  default [] (arrays (init_derived env full old key indices).2 !! key)
  = default [] (arrays (default empty_store old) !! key).
Proof.
  unfold init_derived. cbn zeta.
  destruct (arrays (default empty_store old) !! key) as [rows|] eqn:Hrows.
  { cbn [fst snd]. by rewrite Hrows. }
  destruct (topology full) as [t|].
  - destruct (subset env t indices) as [e|t']; cbn [fst snd arrays];
      by rewrite lookup_insert_eq.
  - cbn [fst snd arrays]. by rewrite lookup_insert_eq.
Qed.

Lemma frames_at_default w path :
  frames_at w path = default [] (frames (default empty_store (fs w !! path))).
Proof. unfold frames_at. by destruct (fs w !! path). Qed.

Lemma rows_at_default w path key :
  rows_at w path key = default [] (arrays (default empty_store (fs w !! path)) !! key).
Proof. unfold rows_at. destruct (fs w !! path); [done|]. simpl. by rewrite lookup_empty. Qed.

(** What the world looks like after a call that returned and wrote a
    block of frames to the derived store. *)
Lemma derive_run_wrote env allatom_filename protein_filename indices min_num_frames
    w block new :
  (derive_run env allatom_filename protein_filename indices min_num_frames w).1 = inr tt →
  log (derive_run env allatom_filename protein_filename indices min_num_frames w).2
    = log w ++ new →
  EvWrite protein_filename block ∈ new →
  ∃ full fa key st1,
    fs w !! allatom_filename = Some full ∧ frames full = Some fa
    ∧ ledger_key full = Some key
    ∧ allatom_filename ≠ protein_filename
    ∧ frames st1 = frames (default empty_store (fs w !! protein_filename))
    ∧ default [] (arrays st1 !! key) = rows_at w protein_filename key
    ∧ (length (frames_at w protein_filename) < length fa)%nat
    ∧ (length (rows_at w protein_filename key)
       < length (rows_at w allatom_filename key))%nat
    ∧ strip_block indices (drop (length (frames_at w protein_filename)) fa) = inr block
    ∧ fs (derive_run env allatom_filename protein_filename indices min_num_frames w).2
      = <[protein_filename :=
            {| frames := Some (frames_at w protein_filename ++ block);
               arrays := <[key := rows_at w protein_filename key
                                    ++ map (StringAtom 1024)
                                         (drop (length (rows_at w protein_filename key))
                                            (rows_at w allatom_filename key))]>
                           (arrays st1);
               topology := topology st1 |}]> (fs w).
Proof.
  unfold derive_run.
  destruct (fs w !! allatom_filename) as [full|] eqn:Ha.
  2: { cbn [fst snd log]. intros _ Hlog Hin; apply app_inv_head in Hlog; subst new.
       by repeat (apply elem_of_cons in Hin as [Hin|Hin]; [done|]); apply elem_of_nil in Hin. }
  destruct (frames full) as [fa|] eqn:Hfa; [|done].
  cbn zeta. case_bool_decide as Hmin.
  { cbn [fst snd log]. rewrite <- !app_assoc. intros _ Hlog Hin; apply app_inv_head in Hlog; subst new.
    by repeat (apply elem_of_cons in Hin as [Hin|Hin]; [done|]); apply elem_of_nil in Hin. }
  destruct (ledger_key full) as [key|] eqn:Hkey; [|done].
  pose proof (init_derived_frames env full (fs w !! protein_filename) key indices) as Hf1.
  pose proof (init_derived_rows env full (fs w !! protein_filename) key indices) as Hr1.
  assert (allatom_filename = protein_filename →
          init_derived env full (fs w !! protein_filename) key indices = (inr tt, full))
    as Hsame.
  { intros <-. rewrite Ha. apply init_derived_same. by eapply ledger_key_Some. }
  destruct (init_derived env full (fs w !! protein_filename) key indices) as [r st1].
  cbn [fst snd] in *. destruct r as [e|[]]; [done|].
  assert (rows_at w allatom_filename key = default [] (arrays full !! key)) as Hra.
  { unfold rows_at. by rewrite Ha. }
  rewrite <- rows_at_default in Hr1. rewrite Hf1, <- frames_at_default, Hr1, <- Hra.
  repeat case_bool_decide; cbn [orb andb negb fst snd log]; try done.
  all: try (rewrite <- !app_assoc; intros _ Hlog Hin; apply app_inv_head in Hlog; subst new;
            by repeat (apply elem_of_cons in Hin as [Hin|Hin]; [done|]);
               apply elem_of_nil in Hin).
  destruct (strip_block indices _) as [e|stripped] eqn:Hstrip; [done|].
  cbn [fst snd log fs]. rewrite <- !app_assoc.
  intros _ Hlog Hin; apply app_inv_head in Hlog; subst new.
  assert (stripped = block) as ->.
  { repeat (apply elem_of_cons in Hin as [Hin|Hin]; [by simplify_eq|]).
    by apply elem_of_nil in Hin. }
  exists full, fa, key, st1.
  assert (allatom_filename ≠ protein_filename) as Hne.
  { intros Heq. specialize (Hsame Heq). injection Hsame as <-. subst protein_filename.
    unfold frames_at in *. rewrite Ha, Hfa in *. simpl in *. lia. }
  repeat split; try done; lia.
Qed.

(** *** numpy indexing *)

Lemma take_index_spec {A} (row : list A) (i : Z) (a : A) :
  take_index row i = inr a →
  row !! Z.to_nat (if i <? 0 then Z.of_nat (length row) + i else i) = Some a.
Proof.
  unfold take_index. cbn zeta.
  destruct ((0 <=? _) && (_ <? _)); [|done].
  by destruct (row !! _) eqn:E; intros; simplify_eq.
Qed.

(** [gather] keeps one element for each index, in the order of the
    indices. *)
Lemma gather_spec {A} (row : list A) (indices : list Z) : ∀ out,
  gather row indices = inr out →
  length out = length indices
  ∧ ∀ k i, indices !! k = Some i →
      out !! k = row !! Z.to_nat (if i <? 0 then Z.of_nat (length row) + i else i)
      ∧ is_Some (out !! k).
Proof.
  induction indices as [|i0 indices IH]; intros out H; simpl in H.
  - injection H as <-. split; [done|]. intros k i Hk. by rewrite lookup_nil in Hk.
  - destruct (take_index row i0) as [e|a] eqn:Ha; [done|].
    destruct (gather row indices) as [e|l] eqn:Hl; [done|].
    injection H as <-. destruct (IH l eq_refl) as [Hlen Hk].
    split; [simpl; by rewrite Hlen|].
    intros [|k] i Hi; simpl in Hi.
    + injection Hi as <-. simpl. rewrite (take_index_spec _ _ _ Ha). eauto.
    + simpl. by apply Hk.
Qed.

Lemma strip_block_spec (indices : list Z) (block : list (Frame real)) : ∀ out,
  strip_block indices block = inr out →
  Forall2 (λ f g, strip_frame indices f = inr g) block out.
Proof.
  induction block as [|f block IH]; intros out H; simpl in H.
  - injection H as <-. constructor.
  - destruct (strip_frame indices f) as [e|g] eqn:Hg; [done|].
    destruct (strip_block indices block) as [e|l] eqn:Hl; [done|].
    injection H as <-. constructor; [done | by apply IH].
Qed.

(** C2. After a call of strip_water that returned and wrote frames to
    the derived store, the derived store has as many frames and as many
    ledger rows as the full store, which the call left as it was. The
    rows the derived ledger had are still its first rows; the rows after
    them are those of the full ledger from that offset on, in order, as a
    [StringAtom(1024)] column stores them: verbatim, since the rows of the
    full ledger are values of such a column. *)
Theorem derive_restores_lockstep env allatom_filename protein_filename indices
    min_num_frames w block new :
  (strip_water env allatom_filename protein_filename indices min_num_frames w).1 = inr tt →
  log (strip_water env allatom_filename protein_filename indices min_num_frames w).2
    = log w ++ new →
  EvWrite protein_filename block ∈ new →
  let w' := (strip_water env allatom_filename protein_filename indices min_num_frames w).2 in
  ∃ full key,
    fs w !! allatom_filename = Some full
    ∧ fs w' !! allatom_filename = Some full
    ∧ ledger_key full = Some key
    ∧ length (frames_at w' protein_filename) = length (frames_at w' allatom_filename)
    ∧ length (rows_at w' protein_filename key) = length (rows_at w' allatom_filename key)
    ∧ take (length (rows_at w protein_filename key)) (rows_at w' protein_filename key)
      = rows_at w protein_filename key
    ∧ drop (length (rows_at w protein_filename key)) (rows_at w' protein_filename key)
      = map (StringAtom 1024)
          (drop (length (rows_at w protein_filename key)) (rows_at w' allatom_filename key))
    ∧ (wf_rows (rows_at w' allatom_filename key) →
       drop (length (rows_at w protein_filename key)) (rows_at w' protein_filename key)
       = drop (length (rows_at w protein_filename key)) (rows_at w' allatom_filename key)).
Proof.
  rewrite strip_water_run. intros Hr Hlog Hin. cbn zeta.
  destruct (derive_run_wrote _ _ _ _ _ _ _ _ Hr Hlog Hin)
    as (full & fa & key & st1 & Ha & Hfa & Hkey & Hne & Hf1 & Hr1 & Hlt1 & Hlt2 & Hstrip & Hfs).
  exists full, key.
  assert (fs (derive_run env allatom_filename protein_filename indices min_num_frames w).2
            !! allatom_filename = Some full) as Ha'.
  { rewrite Hfs, lookup_insert_ne by done. exact Ha. }
  assert (∀ name, rows_at (derive_run env allatom_filename protein_filename indices
                             min_num_frames w).2 allatom_filename name
                  = rows_at w allatom_filename name) as Hrows_a.
  { intros name. unfold rows_at. by rewrite Ha', Ha. }
  assert (frames_at (derive_run env allatom_filename protein_filename indices
                       min_num_frames w).2 allatom_filename = fa) as Hframes_a.
  { unfold frames_at. by rewrite Ha', Hfa. }
  assert (rows_at (derive_run env allatom_filename protein_filename indices
                     min_num_frames w).2 protein_filename key
          = rows_at w protein_filename key
              ++ map (StringAtom 1024)
                   (drop (length (rows_at w protein_filename key))
                      (rows_at w allatom_filename key))) as Hrows_p.
  { unfold rows_at at 1. rewrite Hfs, lookup_insert_eq. cbn [arrays].
    by rewrite lookup_insert_eq. }
  assert (frames_at (derive_run env allatom_filename protein_filename indices
                       min_num_frames w).2 protein_filename
          = frames_at w protein_filename ++ block) as Hframes_p.
  { unfold frames_at at 1. by rewrite Hfs, lookup_insert_eq. }
  pose proof (Forall2_length _ _ _ (strip_block_spec _ _ _ Hstrip)) as Hlen.
  rewrite length_drop in Hlen.
  rewrite Hframes_a, Hframes_p, Hrows_a, Hrows_p.
  repeat split; try done.
  - rewrite length_app. lia.
  - rewrite length_app, length_map, length_drop. lia.
  - by rewrite take_app_length.
  - by rewrite drop_app_length.
  - intros Hwf. rewrite drop_app_length.
    assert (Forall fits (drop (length (rows_at w protein_filename key))
                           (rows_at w allatom_filename key))) as Hd
      by (by apply Forall_drop).
    by apply map_StringAtom_fits.
Qed.

(** C7. The frames that strip_water appends to the derived store are
    the frames of the full store from the derived frame count on, each
    turned into a frame with the coordinates at the atom indices, in the
    order of the indices ([numpy]: a negative index counts from the end),
    the same time and unit cell, and no velocities, energies, temperature
    or alchemical lambda. Each has as many coordinates as there are
    indices. *)
Theorem derived_frames_are_projections env allatom_filename protein_filename indices
    min_num_frames w block new :
  (strip_water env allatom_filename protein_filename indices min_num_frames w).1 = inr tt →
  log (strip_water env allatom_filename protein_filename indices min_num_frames w).2
    = log w ++ new →
  EvWrite protein_filename block ∈ new →
  let w' := (strip_water env allatom_filename protein_filename indices min_num_frames w).2 in
  frames_at w' protein_filename = frames_at w protein_filename ++ block
  ∧ Forall2
      (λ f g,
         time g = time f ∧ cell_lengths g = cell_lengths f ∧ cell_angles g = cell_angles f
         ∧ velocities g = None ∧ kineticEnergy g = None ∧ potentialEnergy g = None
         ∧ temperature g = None ∧ alchemicalLambda g = None
         ∧ length (coordinates g) = length indices
         ∧ ∀ k i, indices !! k = Some i →
             is_Some (coordinates g !! k)
             ∧ coordinates g !! k
               = coordinates f
                   !! Z.to_nat (if i <? 0 then Z.of_nat (length (coordinates f)) + i else i))
      (drop (length (frames_at w protein_filename)) (frames_at w allatom_filename))
      block.
Proof.
  rewrite strip_water_run. intros Hr Hlog Hin. cbn zeta.
  destruct (derive_run_wrote _ _ _ _ _ _ _ _ Hr Hlog Hin)
    as (full & fa & key & st1 & Ha & Hfa & Hkey & Hne & Hf1 & Hr1 & Hlt1 & Hlt2 & Hstrip & Hfs).
  split.
  { unfold frames_at at 1. by rewrite Hfs, lookup_insert_eq. }
  assert (frames_at w allatom_filename = fa) as -> by (unfold frames_at; by rewrite Ha, Hfa).
  eapply Forall2_impl; [by apply strip_block_spec|].
  intros f g Hg. unfold strip_frame in Hg.
  destruct (gather (coordinates f) indices) as [e|c] eqn:Hc; [done|].
  injection Hg as <-. cbn [time cell_lengths cell_angles velocities kineticEnergy
                            potentialEnergy temperature alchemicalLambda coordinates].
  destruct (gather_spec _ _ _ Hc) as [Hlen Hk].
  repeat split; try done.
  - by eapply Hk.
  - by eapply Hk.
Qed.

Lemma init_derived_succeeds env full old key indices :
  (∃ st, old = Some st ∧ is_Some (arrays st !! key))
  ∨ (∃ t t', topology full = Some t ∧ subset env t indices = inr t') →
  (init_derived env full old key indices).1 = inr tt.
Proof.
  unfold init_derived. cbn zeta. intros [(st & -> & [rows Hrows])|(t & t' & Ht & Hs)].
  - simpl. by rewrite Hrows.
  - destruct (arrays (default empty_store old) !! key); [done|]. by rewrite Ht, Hs.
Qed.

(** C3, as the code has it. Once the guards are passed (the full store
    exists, has at least min_num_frames frames, and has a ledger):
    (1) when the derived store has more frames or more ledger rows than
    the full store, or exactly one of the two counts equals that of the
    full store, strip_water raises; (2) when both counts are equal, the
    two paths name different files and setting up the derived store
    raised nothing (it had its ledger, or the topology of the full store
    could be restricted to the indices), strip_water returns. In both
    cases no frame and no ledger row is appended: the frames and the rows
    of the derived store are as before, the full store is untouched, and
    the trace has no write and no ledger append. *)
Theorem lockstep_check env allatom_filename protein_filename indices min_num_frames
    w full fa key :
  fs w !! allatom_filename = Some full →
  frames full = Some fa →
  ¬ Z.of_nat (length fa) < min_num_frames →
  ledger_key full = Some key →
  let run := strip_water env allatom_filename protein_filename indices min_num_frames w in
  let n_frames_allatom := length fa in
  let n_frames_protein := length (frames_at w protein_filename) in
  let n_files_allatom := length (rows_at w allatom_filename key) in
  let n_files_protein := length (rows_at w protein_filename key) in
  let nothing_appended :=
    frames_at run.2 protein_filename = frames_at w protein_filename
    ∧ rows_at run.2 protein_filename key = rows_at w protein_filename key
    ∧ fs run.2 !! allatom_filename = Some full
    ∧ ∃ new, log run.2 = log w ++ new
             ∧ Forall (λ e, is_write protein_filename e = false ∧ is_append e = false) new in
  (((n_frames_allatom < n_frames_protein)%nat ∨ (n_files_allatom < n_files_protein)%nat
    ∨ (n_frames_protein = n_frames_allatom ∧ n_files_protein ≠ n_files_allatom)
    ∨ (n_frames_protein ≠ n_frames_allatom ∧ n_files_protein = n_files_allatom)) →
   raised run.1 ∧ nothing_appended)
  ∧ (n_frames_protein = n_frames_allatom → n_files_protein = n_files_allatom →
     allatom_filename ≠ protein_filename →
     (∃ st, fs w !! protein_filename = Some st ∧ is_Some (arrays st !! key))
     ∨ (∃ t t', topology full = Some t ∧ subset env t indices = inr t') →
     run.1 = inr tt ∧ nothing_appended).
Proof.
  intros Ha Hfa Hmin Hkey. cbn zeta. rewrite strip_water_run. unfold derive_run.
  rewrite Ha, Hfa, bool_decide_false, Hkey by done. cbn zeta.
  pose proof (init_derived_frames env full (fs w !! protein_filename) key indices) as Hf1.
  pose proof (init_derived_rows env full (fs w !! protein_filename) key indices) as Hr1.
  pose proof (init_derived_succeeds env full (fs w !! protein_filename) key indices) as Hok.
  assert (allatom_filename = protein_filename →
          init_derived env full (fs w !! protein_filename) key indices = (inr tt, full))
    as Hsame.
  { intros <-. rewrite Ha. apply init_derived_same. by eapply ledger_key_Some. }
  destruct (init_derived env full (fs w !! protein_filename) key indices) as [r st1].
  cbn [fst snd] in *.
  assert (rows_at w allatom_filename key = default [] (arrays full !! key)) as Hra.
  { unfold rows_at. by rewrite Ha. }
  rewrite <- rows_at_default in Hr1.
  assert (<[protein_filename := st1]> (fs w) !! allatom_filename = Some full) as Ha1.
  { destruct (decide (allatom_filename = protein_filename)) as [Heq|Hne].
    - specialize (Hsame Heq). injection Hsame as _ ->. subst. apply lookup_insert_eq.
    - by rewrite lookup_insert_ne. }
  assert (∀ l : list (Event real),
            frames_at {| fs := <[protein_filename := st1]> (fs w); log := l |} protein_filename
            = frames_at w protein_filename) as Hfp.
  { intros l. unfold frames_at at 1. cbn [fs]. rewrite lookup_insert_eq, Hf1.
    by rewrite frames_at_default. }
  assert (∀ l : list (Event real),
            rows_at {| fs := <[protein_filename := st1]> (fs w); log := l |}
              protein_filename key
            = rows_at w protein_filename key) as Hrp.
  { intros l. unfold rows_at at 1. cbn [fs]. by rewrite lookup_insert_eq. }
  destruct r as [e|[]].
  { split.
    - intros _. split; [by exists e|]. cbn [snd fs log].
      rewrite Hfp, Hrp. repeat split; try done.
      eexists. split; [by rewrite <- !app_assoc|]. by repeat constructor.
    - intros _ _ _ Hinit. by specialize (Hok Hinit). }
  rewrite Hf1, <- frames_at_default, Hr1, <- Hra.
  repeat case_bool_decide; cbn [orb andb negb fst snd fs log]; rewrite ?Hfp, ?Hrp.
  all: split; [intros Hcase|intros Hf Hu Hne Hinit].
  all: try (exfalso; lia).
  all: split; [try done; try (by eexists)|].
  all: repeat split; try done.
  all: eexists; (split; [by rewrite <- !app_assoc|]); by repeat constructor.
Qed.

(** X22. The two guards of strip_water (fah.py 88-98), where they
    return: the file of the full store is missing; or it has frames, fewer
    than min_num_frames. The call prints its line and returns; nothing is
    opened for appending, the derived file is not created and no file
    changes. *)
Lemma strip_water_guards env allatom_filename protein_filename indices min_num_frames w :
  (fs w !! allatom_filename = None →
   strip_water env allatom_filename protein_filename indices min_num_frames w
   = (inr tt, {| fs := fs w; log := log w ++ [EvPrint (msg_skipping allatom_filename)] |}))
  ∧ (∀ full fa,
       fs w !! allatom_filename = Some full → frames full = Some fa →
       Z.of_nat (length fa) < min_num_frames →
       strip_water env allatom_filename protein_filename indices min_num_frames w
       = (inr tt,
          {| fs := fs w;
             log := log w ++ [EvOpen allatom_filename ModeR;
                              EvPrint (msg_allatom allatom_filename (length fa));
                              EvPrint (msg_must min_num_frames allatom_filename)] |})).
Proof.
  rewrite strip_water_run. unfold derive_run. split.
  - by intros ->.
  - intros full fa -> -> Hmin. rewrite bool_decide_true by done.
    cbn zeta. by rewrite <- app_assoc.
Qed.

(** A full store in which no frame was written yet has no coordinates
    node: [len(trj_allatom)] (fah.py 94) raises before the second guard
    compares anything. *)
Lemma strip_water_no_frames env allatom_filename protein_filename indices min_num_frames
    w full :
  fs w !! allatom_filename = Some full → frames full = None →
  strip_water env allatom_filename protein_filename indices min_num_frames w
  = (inl (NoSuchNodeError "coordinates"),
     {| fs := fs w; log := log w ++ [EvOpen allatom_filename ModeR] |}).
Proof. intros Ha Hf. rewrite strip_water_run. unfold derive_run. by rewrite Ha, Hf. Qed.

End DeriveClaims.

(** * The properties on the worked inputs *)

Example demo_merge :
  frames_at Demo.merged "full.h5"
    = [Demo.stored_frame 0; Demo.stored_frame 1; Demo.stored_frame 2]
  ∧ rows_at Demo.merged "full.h5" "processed_filenames"
    = ["clone/results-9.tar.bz2"; "clone/results-10.tar.bz2"].
Proof. split; vm_compute; reflexivity. Qed.

Example demo_deep_unit : String.length Demo.deep_unit = 1224%nat ∧ ¬ fits Demo.deep_unit.
Proof. split; [vm_compute; reflexivity|]. unfold fits. vm_compute. discriminate. Qed.

Ltac in_list := repeat first [apply list_elem_of_here | apply list_elem_of_further].

(** C5 on the docstring of [keynat] (a Python 2 session: it compares an
    int with a string). *)
Example keynat_docstring :
  Keynat.sorted_keynat Keynat.Py2 ["Z"; "a"; "10"; "1"; "9"] = inr ["1"; "9"; "10"; "Z"; "a"].
Proof. reflexivity. Qed.

(** Where the first difference pits a number against a character the
    order depends on the Python version: the number comes first in
    Python 2, the comparison raises TypeError in Python 3. *)
Example keynat_mixed :
  Keynat.sorted_keynat Keynat.Py2 ["a1"; "1a"] = inr ["1a"; "a1"]
  ∧ raised (Keynat.sorted_keynat Keynat.Py3 ["a1"; "1a"]).
Proof. split; [reflexivity | by eexists]. Qed.

Lemma merge_of_nothing_witness :
  merge Demo.env (Core17 Demo.top) "empty" "full.h5" Demo.merged
  = (inr tt, {| fs := fs Demo.merged; log := log Demo.merged ++ [] |}).
Proof.
  apply (merge_of_nothing Demo.env (Core17 Demo.top) "empty" "full.h5" Demo.merged).
  reflexivity.
Defined.




Lemma failed_load_aborts_witness :
  let once := merge Demo.env (Core17 Demo.top) "broken" "broken.h5" Demo.nothing in
  let again := merge Demo.env (Core17 Demo.top) "broken" "broken.h5" once.2 in
  once.1 = inl (IOError "broken/results-2.tar.bz2")
  ∧ (∃ pre, log Demo.stalled
            = pre ++ [EvPrint "Processing broken/results-2.tar.bz2";
                      EvLoad "broken/results-2.tar.bz2"])
  ∧ ("broken/results-2.tar.bz2" ∉ rows_at once.2 "broken.h5" "processed_filenames")
  ∧ again.1 = inl (IOError "broken/results-2.tar.bz2")
  ∧ (∃ pre, log again.2
            = log once.2 ++ pre ++ [EvPrint "Processing broken/results-2.tar.bz2";
                                    EvLoad "broken/results-2.tar.bz2"]).
Proof.
  apply (failed_load_aborts Demo.env (Core17 Demo.top) "broken" "broken.h5" Demo.nothing
           Demo.top "broken/results-2.tar.bz2" (IOError "broken/results-2.tar.bz2")
           (log Demo.stalled)).
  - reflexivity.
  - reflexivity.
  - vm_compute. in_list.
  - reflexivity.
Defined.

Lemma derive_restores_lockstep_witness :
  ∃ full key,
    fs Demo.merged !! "full.h5" = Some full
    ∧ fs Demo.derived.2 !! "full.h5" = Some full
    ∧ ledger_key full = Some key
    ∧ length (frames_at Demo.derived.2 "protein.h5")
      = length (frames_at Demo.derived.2 "full.h5")
    ∧ length (rows_at Demo.derived.2 "protein.h5" key)
      = length (rows_at Demo.derived.2 "full.h5" key)
    ∧ take (length (rows_at Demo.merged "protein.h5" key)) (rows_at Demo.derived.2 "protein.h5" key)
      = rows_at Demo.merged "protein.h5" key
    ∧ drop (length (rows_at Demo.merged "protein.h5" key)) (rows_at Demo.derived.2 "protein.h5" key)
      = map (StringAtom 1024)
          (drop (length (rows_at Demo.merged "protein.h5" key))
             (rows_at Demo.derived.2 "full.h5" key))
    ∧ (wf_rows (rows_at Demo.derived.2 "full.h5" key) →
       drop (length (rows_at Demo.merged "protein.h5" key)) (rows_at Demo.derived.2 "protein.h5" key)
       = drop (length (rows_at Demo.merged "protein.h5" key))
           (rows_at Demo.derived.2 "full.h5" key)).
Proof.
  apply (derive_restores_lockstep Demo.env "full.h5" "protein.h5" [1; -1] 1 Demo.merged
           (frames_at Demo.derived.2 "protein.h5")
           (drop (length (log Demo.merged)) (log Demo.derived.2))).
  - reflexivity.
  - vm_compute. reflexivity.
  - vm_compute. in_list.
Defined.

Lemma derived_frames_are_projections_witness :
  frames_at Demo.derived.2 "protein.h5"
    = frames_at Demo.merged "protein.h5" ++ frames_at Demo.derived.2 "protein.h5"
  ∧ Forall2
      (λ f g : Frame Z,
         time g = time f ∧ cell_lengths g = cell_lengths f ∧ cell_angles g = cell_angles f
         ∧ velocities g = None ∧ kineticEnergy g = None ∧ potentialEnergy g = None
         ∧ temperature g = None ∧ alchemicalLambda g = None
         ∧ length (coordinates g) = 2%nat
         ∧ ∀ k i, [1; -1] !! k = Some i →
             is_Some (coordinates g !! k)
             ∧ coordinates g !! k
               = coordinates f
                   !! Z.to_nat (if i <? 0 then Z.of_nat (length (coordinates f)) + i else i))
      (drop (length (frames_at Demo.merged "protein.h5")) (frames_at Demo.merged "full.h5"))
      (frames_at Demo.derived.2 "protein.h5").
Proof.
  apply (derived_frames_are_projections Demo.env "full.h5" "protein.h5" [1; -1] 1 Demo.merged
           (frames_at Demo.derived.2 "protein.h5")
           (drop (length (log Demo.merged)) (log Demo.derived.2))).
  - reflexivity.
  - vm_compute. reflexivity.
  - vm_compute. in_list.
Defined.

Example demo_derived :
  map coordinates (frames_at Demo.derived.2 "protein.h5")
    = [[(1, 1, 1); (2, 2, 2)]; [(2, 2, 2); (3, 3, 3)]; [(3, 3, 3); (4, 4, 4)]]
  ∧ rows_at Demo.derived.2 "protein.h5" "processed_filenames"
    = ["clone/results-9.tar.bz2"; "clone/results-10.tar.bz2"].
Proof. split; vm_compute; reflexivity. Qed.

Lemma lockstep_check_witness :
  raised (strip_water Demo.env "full.h5" "protein.h5" [1; -1] 1 Demo.off_lockstep).1
  ∧ frames_at (strip_water Demo.env "full.h5" "protein.h5" [1; -1] 1 Demo.off_lockstep).2
      "protein.h5"
    = frames_at Demo.off_lockstep "protein.h5".
Proof.
  destruct (lockstep_check Demo.env "full.h5" "protein.h5" [1; -1] 1 Demo.off_lockstep
              Demo.full_store [Demo.stored_frame 0; Demo.stored_frame 1]
              "processed_filenames")
    as [Hraise _].
  - reflexivity.
  - reflexivity.
  - vm_compute. discriminate.
  - reflexivity.
  - destruct Hraise as (Hr & Hf & _).
    + right. right. left. split; [reflexivity | vm_compute; discriminate].
    + split; [exact Hr | exact Hf].
Defined.

(** C3 as stated fails where a guard comes first: with min_num_frames = 3
    and a full store of two frames strip_water returns at the second guard,
    though the derived store has more frames and more ledger rows than the
    full store. *)
Lemma lockstep_check_counterexample :
  (length (frames_at Demo.ahead "full.h5") < length (frames_at Demo.ahead "protein.h5"))%nat
  ∧ (length (rows_at Demo.ahead "full.h5" "processed_filenames")
     < length (rows_at Demo.ahead "protein.h5" "processed_filenames"))%nat
  ∧ (strip_water Demo.env "full.h5" "protein.h5" [1; -1] 3 Demo.ahead).1 = inr tt
  ∧ ¬ raised (strip_water Demo.env "full.h5" "protein.h5" [1; -1] 3 Demo.ahead).1.
Proof.
  split; [vm_compute; lia|]. split; [vm_compute; lia|]. split; [reflexivity|].
  intros [e He]. vm_compute in He. discriminate.
Qed.

(** C8 fails on a full store without frames. The merge of directory
    damaged stopped at its first unit and left damaged.h5 with its ledger
    and its topology and no frame. Its frame count, zero, is below
    min_num_frames = 1, and strip_water does not return: [len(trj_allatom)]
    (fah.py 94) raises NoSuchNodeError, the exception that the function
    catches around [len(trj_protein)] (fah.py 116-119) and not here. *)
Theorem strip_water_raises_without_frames :
  is_Some (fs Demo.unstarted !! "damaged.h5")
  ∧ frames_at Demo.unstarted "damaged.h5" = []
  ∧ Z.of_nat (length (frames_at Demo.unstarted "damaged.h5")) < 1
  ∧ strip_water Demo.env "damaged.h5" "protein.h5" [1; -1] 1 Demo.unstarted
    = (inl (NoSuchNodeError "coordinates"),
       {| fs := fs Demo.unstarted;
          log := log Demo.unstarted ++ [EvOpen "damaged.h5" ModeR] |}).
Proof.
  split; [vm_compute; eauto|]. split; [reflexivity|]. split; [reflexivity|].
  by apply (strip_water_no_frames Demo.env "damaged.h5" "protein.h5" [1; -1] 1
              Demo.unstarted
              {| frames := None; arrays := {[ "processed_filenames" := [] ]};
                 topology := Some Demo.top |}).
Qed.



(** The full store of the example was built by a merge call from nothing,
    so the rows of its ledger are values of the ledger column. *)
Example demo_merged_rows_wf : wf_rows (rows_at Demo.merged "full.h5" "processed_filenames").
Proof.
  apply (merge_keeps_rows_wf Demo.env (Core17 Demo.top) "clone" "full.h5" Demo.nothing).
  constructor.
Qed.

(** * Further properties *)

(** ** What a sort by key returns *)

Section SortSplit.
Context {K A : Type} (lt : K → K → result bool).

(** [insert_by] puts the new element after the elements it finds smaller
    and right before the first one that is not. *)
Lemma insert_by_split (x : K * A) (l : list (K * A)) : ∀ l',
  insert_by lt x l = inr l' →
  ∃ pre post, l = pre ++ post ∧ l' = pre ++ x :: post
    ∧ Forall (λ y, lt y.1 x.1 = inr true) pre
    ∧ match post with [] => True | y :: _ => lt y.1 x.1 = inr false end.
Proof.
  induction l as [|y l IH]; intros l' H; simpl in H.
  - injection H as <-. by exists [], [].
  - destruct (lt y.1 x.1) as [e|[|]] eqn:Hy; [done|..].
    + destruct (insert_by lt x l) as [e|l''] eqn:E; [done|].
      injection H as <-. destruct (IH l'' eq_refl) as (pre & post & -> & -> & Hpre & Hpost).
      exists (y :: pre), post. repeat split; try done. by constructor.
    + injection H as <-. by exists [], (y :: l).
Qed.

(** An exception of the sort is an exception of a comparison. *)
Lemma insert_by_raises (x : K * A) (l : list (K * A)) e :
  insert_by lt x l = inl e → ∃ a b, lt a b = inl e.
Proof.
  induction l as [|y l IH]; simpl; [done|].
  destruct (lt y.1 x.1) as [e'|[|]] eqn:Hy; [|..|done].
  - intros [= <-]. eauto.
  - destruct (insert_by lt x l) as [e'|l'']; [|done]. intros [= <-]. by apply IH.
Qed.

Lemma sort_by_raises (l : list (K * A)) e :
  sort_by lt l = inl e → ∃ a b, lt a b = inl e.
Proof.
  induction l as [|x l IH]; simpl; [done|].
  destruct (sort_by lt l) as [e'|s]; [intros [= <-]; by apply IH|].
  apply insert_by_raises.
Qed.

End SortSplit.

Section SortAgree.
Context {K A : Type} (lt1 lt2 : K → K → result bool).
Hypothesis lt_agree : ∀ a b c, lt1 a b = inr c → lt2 a b = inr c.

Lemma insert_by_agree (x : K * A) (l : list (K * A)) : ∀ l',
  insert_by lt1 x l = inr l' → insert_by lt2 x l = inr l'.
Proof.
  induction l as [|y l IH]; intros l' H; simpl in *; [done|].
  destruct (lt1 y.1 x.1) as [e|c] eqn:Hy; [done|]. rewrite (lt_agree _ _ _ Hy).
  destruct c; [|done].
  destruct (insert_by lt1 x l) as [e|l'']; [done|]. by rewrite (IH l'').
Qed.

Lemma sort_by_agree (l : list (K * A)) : ∀ l',
  sort_by lt1 l = inr l' → sort_by lt2 l = inr l'.
Proof.
  induction l as [|x l IH]; intros l' H; simpl in *; [done|].
  destruct (sort_by lt1 l) as [e|s]; [done|]. rewrite (IH s) by done.
  by apply insert_by_agree.
Qed.

End SortAgree.

Section SortOrder.
Context {K A : Type} `{EqDecision K} (lt : K → K → result bool).
Hypothesis lt_total : ∀ a b, ∃ c, lt a b = inr c.
Hypothesis lt_asym : ∀ a b, lt a b = inr true → lt b a = inr false.
Hypothesis le_trans : ∀ a b c, lt b a = inr false → lt c b = inr false → lt c a = inr false.

Lemma insert_by_returns (x : K * A) (l : list (K * A)) : ∃ l', insert_by lt x l = inr l'.
Proof.
  induction l as [|y l [l' IH]]; simpl; [by eexists|].
  destruct (lt_total y.1 x.1) as [[|] ->]; [|by eexists].
  rewrite IH. by eexists.
Qed.

Lemma sort_by_returns (l : list (K * A)) : ∃ l', sort_by lt l = inr l'.
Proof.
  induction l as [|x l [s IH]]; simpl; [by eexists|].
  rewrite IH. apply insert_by_returns.
Qed.

(** A list in which no pair comes after a pair with a smaller key stays
    so when [insert_by] puts a pair in. *)
Lemma insert_by_sorted (x : K * A) (l : list (K * A)) : ∀ l',
  StronglySorted (λ p q, lt q.1 p.1 = inr false) l → insert_by lt x l = inr l' →
  StronglySorted (λ p q, lt q.1 p.1 = inr false) l'.
Proof.
  induction l as [|y l IH]; intros l' Hs H; simpl in H.
  - injection H as <-. repeat constructor.
  - apply StronglySorted_inv in Hs as [Hs Hall].
    destruct (lt y.1 x.1) as [e|[|]] eqn:Hy; [done|..].
    + destruct (insert_by lt x l) as [e|l''] eqn:E; [done|]. injection H as <-.
      constructor; [by apply IH|].
      rewrite (insert_by_perm _ _ _ _ E). constructor; [|done].
      by apply lt_asym.
    + injection H as <-. constructor; [by constructor|].
      constructor; [exact Hy|].
      eapply Forall_impl; [exact Hall|]. intros z Hz. cbn beta in *. by eapply le_trans.
Qed.

Lemma sort_by_sorted (l : list (K * A)) : ∀ l',
  sort_by lt l = inr l' → StronglySorted (λ p q, lt q.1 p.1 = inr false) l'.
Proof.
  induction l as [|x l IH]; intros l' H; simpl in H.
  - injection H as <-. constructor.
  - destruct (sort_by lt l) as [e|s]; [done|]. eapply insert_by_sorted; [|done]. by apply IH.
Qed.

Lemma insert_by_stable (x : K * A) (l l' : list (K * A)) (k : K) :
  insert_by lt x l = inr l' →
  filter (λ p, p.1 = k) l' = filter (λ p, p.1 = k) (x :: l).
Proof.
  intros H. apply insert_by_split in H as (pre & post & -> & -> & Hpre & _).
  rewrite filter_app, !filter_cons, filter_app.
  destruct (decide (x.1 = k)) as [Hk|Hk]; [|done].
  assert (filter (λ p : K * A, p.1 = k) pre = []) as ->; [|done].
  induction Hpre as [|y pre Hy _ IH]; [done|].
  rewrite filter_cons, decide_False; [done|].
  intros Hyk. rewrite Hyk, Hk in Hy. pose proof (lt_asym _ _ Hy). congruence.
Qed.

Lemma sort_by_stable (l : list (K * A)) (k : K) : ∀ l',
  sort_by lt l = inr l' →
  filter (λ p, p.1 = k) l' = filter (λ p, p.1 = k) l.
Proof.
  induction l as [|x l IH]; intros l' H; simpl in H.
  - by injection H as <-.
  - destruct (sort_by lt l) as [e|s]; [done|].
    rewrite (insert_by_stable _ _ _ _ H), !filter_cons, (IH s) by done. done.
Qed.

End SortOrder.

Lemma StronglySorted_lookup {B : Type} (R : B → B → Prop) (l : list B) :
  StronglySorted R l →
  ∀ i j p q, (i < j)%nat → l !! i = Some p → l !! j = Some q → R p q.
Proof.
  induction 1 as [|a l Hs IH Hall]; intros i j p q Hij Hi Hj; [done|].
  destruct j as [|j]; [lia|]. destruct i as [|i]; simpl in *.
  - injection Hi as <-. eapply Forall_forall; [exact Hall|]. by eapply list_elem_of_lookup_2.
  - eapply (IH i j); [lia|done..].
Qed.

(** The elements of a list of (key, element) pairs that have the key [k],
    when [P] tells which elements have it. *)
Lemma keyed_filter {K A : Type} `{EqDecision K} (P : A → Prop) `{∀ x, Decision (P x)}
    (k : K) (s : list (K * A)) :
  Forall (λ p, p.1 = k ↔ P p.2) s →
  map snd (filter (λ p, p.1 = k) s) = filter P (map snd s).
Proof.
  induction 1 as [|p s Hp _ IH]; [done|].
  rewrite filter_cons. cbn [map]. rewrite filter_cons.
  destruct (decide (p.1 = k)) as [Hk|Hk].
  - rewrite decide_True by (by apply Hp). cbn [map]. by rewrite IH.
  - rewrite decide_False by (by rewrite <- Hp). done.
Qed.

(** ** The order of the keys *)

Module KeyOrder.
Import Keynat.

Lemma code_inj c1 c2 : code c1 = code c2 → c1 = c2.
Proof.
  unfold code. intros H%N2Z.inj.
  rewrite <- (ascii_N_embedding c1), <- (ascii_N_embedding c2). by rewrite H.
Qed.

(** Under Python 2 the comparison of two items never raises, and it is a
    strict total order: numbers by value, characters by code, a number
    before a character. *)
Lemma item_lt_returns x y : ∃ c, item_lt Py2 x y = inr c.
Proof. destruct x, y; simpl; by eexists. Qed.

Lemma item_lt_asym x y : item_lt Py2 x y = inr true → item_lt Py2 y x = inr false.
Proof. destruct x, y; simpl; try done; intros [= H]; f_equal; lia. Qed.

Lemma item_lt_trans x y z :
  item_lt Py2 x y = inr true → item_lt Py2 y z = inr true → item_lt Py2 x z = inr true.
Proof. destruct x, y, z; simpl; try done; intros [= H1] [= H2]; f_equal; lia. Qed.

Lemma item_lt_connex x y :
  x ≠ y → item_lt Py2 x y = inr false → item_lt Py2 y x = inr true.
Proof.
  destruct x as [n|c], y as [m|d]; simpl; try done; intros Hne [= H]; f_equal.
  - assert (n ≠ m) by congruence. lia.
  - assert (code c ≠ code d) by (intros ?%code_inj; congruence). lia.
Qed.

Lemma list_lt_returns a : ∀ b, ∃ c, list_lt Py2 a b = inr c.
Proof.
  induction a as [|x a IH]; intros [|y b]; simpl; try by eexists.
  destruct (decide (x = y)); [apply IH | apply item_lt_returns].
Qed.

Lemma list_lt_asym a : ∀ b, list_lt Py2 a b = inr true → list_lt Py2 b a = inr false.
Proof.
  induction a as [|x a IH]; intros [|y b]; simpl; try done.
  destruct (decide (x = y)) as [->|Hne].
  - rewrite decide_True by done. apply IH.
  - rewrite decide_False by congruence. apply item_lt_asym.
Qed.

Lemma list_lt_trans a : ∀ b c,
  list_lt Py2 a b = inr true → list_lt Py2 b c = inr true → list_lt Py2 a c = inr true.
Proof.
  induction a as [|x a IH]; intros [|y b] [|z c]; simpl; try done.
  destruct (decide (x = y)) as [->|Hxy], (decide (y = z)) as [->|Hyz].
  - apply IH.
  - done.
  - rewrite decide_False by done. done.
  - intros H1 H2. pose proof (item_lt_trans _ _ _ H1 H2) as H3.
    destruct (decide (x = z)) as [->|Hxz]; [|done].
    apply item_lt_asym in H1. congruence.
Qed.

Lemma list_lt_connex a : ∀ b,
  a ≠ b → list_lt Py2 a b = inr false → list_lt Py2 b a = inr true.
Proof.
  induction a as [|x a IH]; intros [|y b]; simpl; try done.
  destruct (decide (x = y)) as [->|Hne].
  - rewrite decide_True by done. intros Hab. apply IH. congruence.
  - rewrite decide_False by congruence. intros _. by apply item_lt_connex.
Qed.

Lemma list_le_trans a b c :
  list_lt Py2 b a = inr false → list_lt Py2 c b = inr false → list_lt Py2 c a = inr false.
Proof.
  intros Hab Hbc.
  destruct (decide (a = b)) as [->|Hne1]; [done|].
  destruct (decide (b = c)) as [->|Hne2]; [done|].
  apply list_lt_asym. eapply list_lt_trans; apply list_lt_connex; done.
Qed.

(** Under Python 3 a comparison that returns returns what Python 2
    returns, and one that raises raises TypeError. *)
Lemma item_lt_py3 x y c : item_lt Py3 x y = inr c → item_lt Py2 x y = inr c.
Proof. by destruct x, y. Qed.

Lemma list_lt_py3 a : ∀ b c, list_lt Py3 a b = inr c → list_lt Py2 a b = inr c.
Proof.
  induction a as [|x a IH]; intros [|y b] c; simpl; try done.
  destruct (decide (x = y)); [apply IH | apply item_lt_py3].
Qed.

Lemma list_lt_raises v a : ∀ b e, list_lt v a b = inl e → v = Py3 ∧ ∃ msg, e = TypeError msg.
Proof.
  induction a as [|x a IH]; intros [|y b] e; simpl; try done.
  destruct (decide (x = y)); [apply IH|].
  destruct x, y, v; simpl; try done; intros [= <-]; eauto.
Qed.

End KeyOrder.

(** ** sorted(filenames, key=keynat) and sorted(folders, key=int) *)

Lemma keynat_keyed (l : list string) (s : list (list Keynat.item * string)) :
  s ≡ₚ map (λ x, (Keynat.keynat x, x)) l → Forall (λ p, p.1 = Keynat.keynat p.2) s.
Proof.
  intros ->. apply Forall_forall. by intros p (x & -> & _)%list_elem_of_fmap.
Qed.

(** X1. Under Python 2 sorting by natural key always returns. The result
    holds the same names, no name comes after a name with a smaller key,
    and names with the same key keep the order they had. *)
Theorem natural_sort_python2 (l : list string) :
  ∃ l', Keynat.sorted_keynat Keynat.Py2 l = inr l'
    ∧ l' ≡ₚ l
    ∧ (∀ i j x y, (i < j)%nat → l' !! i = Some x → l' !! j = Some y →
         Keynat.list_lt Keynat.Py2 (Keynat.keynat y) (Keynat.keynat x) = inr false)
    ∧ (∀ k, filter (λ x, Keynat.keynat x = k) l' = filter (λ x, Keynat.keynat x = k) l).
Proof.
  unfold Keynat.sorted_keynat.
  destruct (sort_by_returns (Keynat.list_lt Keynat.Py2) KeyOrder.list_lt_returns
              (map (λ x, (Keynat.keynat x, x)) l)) as [s Hs].
  rewrite Hs. exists (map snd s).
  pose proof (sort_by_perm _ _ _ Hs) as Hperm.
  pose proof (keynat_keyed l s Hperm) as Hkeys.
  split; [done|]. split; [|split].
  - rewrite Hperm, map_map. simpl. by rewrite map_id.
  - intros i j x y Hij Hi Hj.
    apply list_lookup_fmap_Some in Hi as (p & -> & Hp).
    apply list_lookup_fmap_Some in Hj as (q & -> & Hq).
    pose proof (Forall_lookup_1 _ _ _ _ Hkeys Hp) as <-.
    pose proof (Forall_lookup_1 _ _ _ _ Hkeys Hq) as <-.
    apply (StronglySorted_lookup
             (λ p q : list Keynat.item * string,
                Keynat.list_lt Keynat.Py2 q.1 p.1 = inr false) s) with i j; [|done..].
    eapply sort_by_sorted; [apply KeyOrder.list_lt_asym| |exact Hs].
    intros a b c. apply KeyOrder.list_le_trans.
  - intros k.
    rewrite <- (keyed_filter (λ x, Keynat.keynat x = k) k s).
    2: { eapply Forall_impl; [exact Hkeys|]. intros p ->. done. }
    rewrite (sort_by_stable _ KeyOrder.list_lt_asym _ k s Hs).
    rewrite (keyed_filter (λ x, Keynat.keynat x = k) k).
    2: { eapply Forall_impl; [by apply (keynat_keyed l)|]. intros p ->. done. }
    rewrite map_map. simpl. by rewrite map_id.
Qed.

(** X2. Under Python 3 sorting by natural key either returns what it
    returns under Python 2, or raises the TypeError of a comparison of a
    number with a character; under Python 2 it never raises. *)
Theorem natural_sort_python3 (v : Keynat.pyver) (l : list string) :
  (∀ l', Keynat.sorted_keynat v l = inr l' → Keynat.sorted_keynat Keynat.Py2 l = inr l')
  ∧ (∀ e, Keynat.sorted_keynat v l = inl e → v = Keynat.Py3 ∧ ∃ msg, e = TypeError msg).
Proof.
  unfold Keynat.sorted_keynat. split.
  - intros l' H.
    destruct (sort_by (Keynat.list_lt v) _) as [e|s] eqn:Hs; [done|].
    erewrite (sort_by_agree (Keynat.list_lt v) (Keynat.list_lt Keynat.Py2)); [done| |exact Hs].
    intros a b c. destruct v; [done | apply KeyOrder.list_lt_py3].
  - intros e H.
    destruct (sort_by (Keynat.list_lt v) _) as [e'|s] eqn:Hs; [|done].
    injection H as <-. apply sort_by_raises in Hs as (a & b & Hab).
    by eapply KeyOrder.list_lt_raises.
Qed.

Lemma natural_sort_python3_witness :
  Keynat.sorted_keynat Keynat.Py2 ["results-10"; "results-9"] = inr ["results-9"; "results-10"]
  ∧ Keynat.Py3 = Keynat.Py3
  ∧ ∃ msg, TypeError "unorderable types: int() < str()" = TypeError msg.
Proof.
  destruct (natural_sort_python3 Keynat.Py3 ["results-10"; "results-9"]) as [Hret _].
  destruct (natural_sort_python3 Keynat.Py3 ["results-x"; "results-9"]) as [_ Hraise].
  split.
  - apply Hret. reflexivity.
  - apply (Hraise (TypeError "unorderable types: int() < str()")). reflexivity.
Defined.

Lemma natural_sort_python2_witness :
  Keynat.list_lt Keynat.Py2 (Keynat.keynat "results-10") (Keynat.keynat "results-9") = inr false.
Proof.
  destruct (natural_sort_python2 ["results-10"; "results-9"]) as (l' & Hl & _ & Hs & _).
  vm_compute in Hl. injection Hl as <-.
  apply (Hs 0%nat 1%nat "results-9" "results-10"); [lia | reflexivity | reflexivity].
Defined.

(** *** sorted(os.listdir(path), key=lambda value: int(value)) *)

Lemma with_keys_keyed {K A : Type} (f : A → result K) (l : list A) : ∀ keyed,
  with_keys f l = inr keyed → Forall (λ p, f p.2 = inr p.1) keyed.
Proof.
  induction l as [|x l IH]; intros keyed H; simpl in H.
  - injection H as <-. constructor.
  - destruct (f x) as [e|k] eqn:Hx; [done|].
    destruct (with_keys f l) as [e|r]; [done|].
    injection H as <-. constructor; [done | by apply IH].
Qed.

(** The keys are computed in the order of the list: the first element
    whose key raises decides. *)
Lemma with_keys_raises {K A : Type} (f : A → result K) (l : list A) e :
  with_keys f l = inl e ↔
  ∃ pre x post, l = pre ++ x :: post ∧ f x = inl e ∧ Forall (λ y, ∃ k, f y = inr k) pre.
Proof.
  split.
  - induction l as [|x l IH]; simpl; [done|].
    destruct (f x) as [e'|k] eqn:Hx.
    + intros [= <-]. by exists [], x, l.
    + destruct (with_keys f l) as [e'|r]; [|done]. intros [= <-].
      destruct (IH eq_refl) as (pre & y & post & -> & Hy & Hpre).
      exists (x :: pre), y, post. repeat split; try done. constructor; eauto.
  - intros (pre & x & post & -> & Hx & Hpre).
    induction Hpre as [|y pre [k Hy] _ IH]; simpl.
    + by rewrite Hx.
    + by rewrite Hy, IH.
Qed.

Lemma with_keys_returns {K A : Type} (f : A → result K) (l : list A) :
  Forall (λ y, ∃ k, f y = inr k) l → ∃ keyed, with_keys f l = inr keyed.
Proof.
  induction 1 as [|x l [k Hx] _ [keyed IH]]; simpl; [by eexists|].
  rewrite Hx, IH. by eexists.
Qed.

Lemma sorted_by_int_raises f l e :
  sorted_by_int f l = inl e ↔ with_keys f l = inl e.
Proof.
  unfold sorted_by_int. destruct (with_keys f l) as [e'|keyed].
  - split; intros [= <-]; done.
  - destruct (sort_by_returns (A:=string) (λ a b : Z, inr (a <? b))
                (λ a b, ex_intro _ _ eq_refl) keyed) as [s ->].
    done.
Qed.

(** X3. When [int] accepts every name, sorting the names by their
    integer value returns: the result holds the same names, no name comes
    after a name with a smaller value, and names with the same value keep
    the order they had. *)
Theorem numeric_sort (f : string → result Z) (l : list string) :
  Forall (λ x, ∃ z, f x = inr z) l →
  ∃ l', sorted_by_int f l = inr l'
    ∧ l' ≡ₚ l
    ∧ (∀ i j x y zx zy, (i < j)%nat → l' !! i = Some x → l' !! j = Some y →
         f x = inr zx → f y = inr zy → zx ≤ zy)
    ∧ (∀ z, filter (λ x, f x = inr z) l' = filter (λ x, f x = inr z) l).
Proof.
  intros Hall. unfold sorted_by_int.
  destruct (with_keys_returns f l Hall) as [keyed Hk]. rewrite Hk.
  pose proof (with_keys_keyed _ _ _ Hk) as Hkeyed.
  pose proof (with_keys_snd _ _ _ Hk) as Hsnd.
  assert (∀ a b : Z, (inr (a <? b) : result bool) = inr true → (inr (b <? a) : result bool) = inr false)
    as Hasym by (intros a b [= H]; f_equal; lia).
  destruct (sort_by_returns (A:=string) (λ a b : Z, inr (a <? b))
              (λ a b, ex_intro _ _ eq_refl) keyed) as [s Hs].
  rewrite Hs. exists (map snd s).
  pose proof (sort_by_perm _ _ _ Hs) as Hperm.
  assert (Forall (λ p, f p.2 = inr p.1) s) as Hkeys by (by rewrite Hperm).
  split; [done|]. split; [|split].
  - by rewrite Hperm, Hsnd.
  - intros i j x y zx zy Hij Hi Hj Hx Hy.
    apply list_lookup_fmap_Some in Hi as (p & -> & Hp).
    apply list_lookup_fmap_Some in Hj as (q & -> & Hq).
    pose proof (Forall_lookup_1 _ _ _ _ Hkeys Hp) as Hp'.
    pose proof (Forall_lookup_1 _ _ _ _ Hkeys Hq) as Hq'.
    assert (p.1 = zx) as <- by congruence. assert (q.1 = zy) as <- by congruence.
    assert ((inr (q.1 <? p.1) : result bool) = inr false) as [= H]; [|lia].
    apply (StronglySorted_lookup
             (λ p q : Z * string, (inr (q.1 <? p.1) : result bool) = inr false) s) with i j;
      [|done..].
    refine (sort_by_sorted (λ a b : Z, inr (a <? b)) Hasym _ keyed s Hs).
    intros a b c [= H1] [= H2]. f_equal. lia.
  - intros z.
    rewrite <- (keyed_filter (λ x, f x = inr z) z s).
    2: { eapply Forall_impl; [exact Hkeys|]. intros p ->. split; congruence. }
    rewrite (sort_by_stable _ Hasym _ z s Hs).
    rewrite (keyed_filter (λ x, f x = inr z) z).
    2: { eapply Forall_impl; [exact Hkeyed|]. intros p ->. split; congruence. }
    by rewrite Hsnd.
Qed.

Lemma numeric_sort_witness :
  sorted_by_int (int_str Demo.env) ["10"; "9"; "09"] = inr ["9"; "09"; "10"].
Proof.
  destruct (numeric_sort (int_str Demo.env) ["10"; "9"; "09"]) as (l' & Hl & _).
  - repeat constructor; by eexists.
  - rewrite Hl. vm_compute in Hl. by injection Hl as <-.
Defined.

(** ** keynat: equal keys, and numbers against characters *)

(** X4. Two identifiers that differ only in one maximal run of digits
    have the same key exactly when the two runs have the same value; a
    leading zero does not change the value. So [keynat] does not tell
    results-007 from results-7. *)
Theorem keynat_equal_values (p d1 d2 s : string) :
  Keynat.ends_with_digit p = false →
  Keynat.all_digits d1 = true → d1 ≠ "" →
  Keynat.all_digits d2 = true → d2 ≠ "" →
  Keynat.starts_with_digit s = false →
  (Keynat.keynat (p +:+ d1 +:+ s) = Keynat.keynat (p +:+ d2 +:+ s)
   ↔ Keynat.decimal d1 = Keynat.decimal d2)
  ∧ Keynat.decimal (String "0" d1) = Keynat.decimal d1.
Proof.
  intros Hp H1 N1 H2 N2 Hs. split; [|done].
  rewrite !(KeynatFacts.keynat_app p) by (by left).
  rewrite !KeynatFacts.keynat_digits_then by done.
  split.
  - intros H%app_inv_head. by injection H.
  - by intros ->.
Qed.

Lemma keynat_equal_values_witness :
  Keynat.keynat "results-007.tar" = Keynat.keynat "results-7.tar".
Proof.
  destruct (keynat_equal_values "results-" "007" "7" ".tar") as [Hiff _];
    [reflexivity | reflexivity | discriminate | reflexivity | discriminate | reflexivity |].
  apply Hiff. reflexivity.
Defined.

(** X5. Where two identifiers first differ in a maximal run of digits on
    one side and a character that is not a digit on the other, Python 2
    puts the one with the number first, and in Python 3 the comparison of
    the two keys raises TypeError, whichever way round. *)
Theorem keynat_number_against_character (v : Keynat.pyver) (p d s1 s2 : string) (c : ascii) :
  Keynat.ends_with_digit p = false →
  Keynat.all_digits d = true → d ≠ "" → Keynat.starts_with_digit s1 = false →
  Keynat.is_digit c = false →
  let a := Keynat.keynat (p +:+ d +:+ s1) in
  let b := Keynat.keynat (p +:+ String c s2) in
  match v with
  | Keynat.Py2 => Keynat.list_lt v a b = inr true ∧ Keynat.list_lt v b a = inr false
  | Keynat.Py3 =>
      (∃ msg, Keynat.list_lt v a b = inl (TypeError msg))
      ∧ (∃ msg, Keynat.list_lt v b a = inl (TypeError msg))
  end.
Proof.
  intros Hp Hd Nd Hs Hc. cbn zeta.
  rewrite !(KeynatFacts.keynat_app p) by (by left).
  rewrite !KeynatFacts.list_lt_app.
  rewrite KeynatFacts.keynat_digits_then, KeynatFacts.keynat_char_then by done.
  simpl. destruct v; simpl; split; eauto.
Qed.

Lemma keynat_number_against_character_witness :
  (∃ msg, Keynat.list_lt Keynat.Py3 (Keynat.keynat "results-12.tar")
            (Keynat.keynat "results-x.tar") = inl (TypeError msg))
  ∧ (∃ msg, Keynat.list_lt Keynat.Py3 (Keynat.keynat "results-x.tar")
              (Keynat.keynat "results-12.tar") = inl (TypeError msg)).
Proof.
  apply (keynat_number_against_character Keynat.Py3 "results-" "12" ".tar" ".tar" "x");
    reflexivity || discriminate.
Defined.

(** ** The ledger column *)

Lemma rstrip_nul_fixed (s : string) : rstrip_nul s = s ↔ last_char s ≠ Some Ascii.zero.
Proof.
  induction s as [|c s IH]; [done|].
  cbn [rstrip_nul last_char]. destruct s as [|c' s].
  - cbn [rstrip_nul]. case_bool_decide as Hc; split; try done; congruence.
  - destruct (rstrip_nul (String c' s)) as [|c'' t] eqn:E.
    + split.
      * case_bool_decide; intros ?; simplify_eq.
      * intros H. apply IH in H. done.
    + rewrite <- IH. split; [by intros [= -> ->] | by intros ->].
Qed.

Lemma rstrip_nul_prefix (s : string) : ∃ rest, s = rstrip_nul s +:+ rest.
Proof.
  induction s as [|c s [rest IH]]; [by exists ""|].
  cbn [rstrip_nul]. destruct (rstrip_nul s) as [|c' t].
  - case_bool_decide.
    + by exists (String c s).
    + exists s. done.
  - exists rest. change (String c s = String c (String c' t +:+ rest)). by f_equal.
Qed.

Lemma substring_prefix (n : nat) : ∀ s : string, ∃ rest, s = String.substring 0 n s +:+ rest.
Proof.
  induction n as [|n IH]; intros [|c s]; simpl; try by eexists.
  destruct (IH s) as [rest Hrest]. exists rest.
  change (String c s = String c (String.substring 0 n s +:+ rest)). by f_equal.
Qed.

Lemma string_app_assoc (a b c : string) : (a +:+ b) +:+ c = a +:+ (b +:+ c).
Proof.
  induction a as [|x a IH]; [done|].
  change (String x ((a +:+ b) +:+ c) = String x (a +:+ (b +:+ c))). by rewrite IH.
Qed.

(** X6. What a [StringAtom(1024)] column keeps of an identifier: a
    prefix of it, of at most 1024 bytes; the whole identifier exactly when
    it has at most 1024 bytes and does not end in a NUL byte. *)
Theorem ledger_column_keeps (s : string) :
  (fits s ↔ (String.length s ≤ 1024)%nat ∧ last_char s ≠ Some Ascii.zero)
  ∧ (String.length (StringAtom 1024 s) ≤ 1024)%nat
  ∧ (∃ rest, s = StringAtom 1024 s +:+ rest)
  ∧ StringAtom 1024 (StringAtom 1024 s) = StringAtom 1024 s.
Proof.
  split; [|split; [|split]].
  - split.
    + intros Hfit. split; [by apply fits_length|].
      apply rstrip_nul_fixed. unfold fits, StringAtom in Hfit.
      rewrite substring_all in Hfit by (by apply fits_length). done.
    + intros [Hlen Hlast]. unfold fits, StringAtom.
      rewrite substring_all by done. by apply rstrip_nul_fixed.
  - unfold StringAtom. etrans; [apply rstrip_nul_length | apply substring_length_le].
  - unfold StringAtom. destruct (substring_prefix 1024 s) as [r1 H1].
    destruct (rstrip_nul_prefix (String.substring 0 1024 s)) as [r2 H2].
    exists (r2 +:+ r1). rewrite <- string_app_assoc, <- H2. exact H1.
  - apply StringAtom_fits.
Qed.

Lemma ledger_column_keeps_witness : fits "clone/results-9.tar.bz2".
Proof.
  destruct (ledger_column_keeps "clone/results-9.tar.bz2") as [[_ Hfits] _].
  apply Hfits. split; [vm_compute; lia | discriminate].
Defined.

(** ** The merge functions: frames, files and units *)

Section MoreTraceFacts.
Context {real : Type}.
Variable load : string → result (list (TrajFrame real)).
Variables path name : string.
Implicit Types (units rows : list string) (plan : list (string * action (real:=real))).





Lemma loop_plan_units units : ∀ rows u act,
  (u, act) ∈ loop_plan load units rows → u ∈ units.
Proof.
  induction units as [|u0 units IH]; intros rows u act; cbn [loop_plan].
  - by intros ?%elem_of_nil.
  - case_bool_decide.
    + intros [[= -> _]|Hin]%elem_of_cons; [left | right; by eapply IH].
    + destruct (load u0).
      * intros [= -> _]%list_elem_of_singleton. left.
      * intros [[= -> _]|Hin]%elem_of_cons; [left | right; by eapply IH].
Qed.

Lemma plan_merged_elem plan u :
  u ∈ plan_merged plan ↔ ∃ trj, (u, Merge trj) ∈ plan.
Proof.
  induction plan as [|[u0 [|trj|e]] plan IH]; cbn [plan_merged].
  - split; [by intros ?%elem_of_nil | by intros [? ?%elem_of_nil]].
  - rewrite IH. split; intros [trj H]; exists trj; [by right|].
    by apply elem_of_cons in H as [?|?].
  - rewrite elem_of_cons, IH. split.
    + intros [->|[trj' H]]; [exists trj; left | exists trj'; by right].
    + intros [trj' [[= -> _]|H]%elem_of_cons]; [by left | right; by exists trj'].
  - rewrite IH. split; intros [trj H]; exists trj; [by right|].
    by apply elem_of_cons in H as [?|?].
Qed.

(** A unit whose load is attempted is one of the units, and was no row of
    the ledger when the loop started. *)
Lemma loaded_unit_fresh units rows u :
  EvLoad u ∈ plan_events path name (loop_plan load units rows) →
  u ∈ units ∧ u ∉ rows.
Proof.
  intros Hin. apply load_in_plan_events in Hin as [[trj Hin]|[e Hin]].
  - split; [by eapply loop_plan_units|].
    eapply plan_merged_fresh, plan_merged_elem. by exists trj.
  - split; [by eapply loop_plan_units|].
    apply loop_plan_fail_last in Hin as (plan0 & _ & _ & Hu & _).
    intros ?. apply Hu, elem_of_app. by left.
Qed.

(** When no load fails every unit ends up in the ledger: it was a row
    already, or it is merged and its identifier appended. *)
Lemma plan_covers units : ∀ rows u,
  plan_failure (loop_plan load units rows) = None → u ∈ units →
  let rows' := rows ++ map (StringAtom 1024) (plan_merged (loop_plan load units rows)) in
  u ∈ rows' ∨ (u ∈ plan_merged (loop_plan load units rows) ∧ StringAtom 1024 u ∈ rows').
Proof.
  induction units as [|u0 units IH]; intros rows u; cbn [loop_plan]; cbn zeta.
  - by intros _ ?%elem_of_nil.
  - case_bool_decide as Hrows; cbn [plan_failure plan_merged].
    + intros Hf [->|Hin]%elem_of_cons.
      * left. apply elem_of_app. by left.
      * by apply IH.
    + destruct (load u0) as [e|trj]; cbn [plan_failure plan_merged map]; [done|].
      intros Hf [->|Hin]%elem_of_cons.
      * right. split; [left|]. apply elem_of_app. right. left.
      * destruct (IH (rows ++ [StringAtom 1024 u0]) u Hf Hin) as [H|[H1 H2]].
        -- left. by rewrite <- app_assoc in H.
        -- right. split; [by right|]. by rewrite <- app_assoc in H2.
Qed.

(** A unit whose identifier does not fit the ledger column is never found
    among rows that do: when no load fails it is merged. *)
Lemma plan_merges_unfit units : ∀ rows u,
  Forall fits rows → ¬ fits u → u ∈ units →
  plan_failure (loop_plan load units rows) = None →
  u ∈ plan_merged (loop_plan load units rows).
Proof.
  induction units as [|u0 units IH]; intros rows u Hrows Hu; cbn [loop_plan].
  - by intros ?%elem_of_nil.
  - case_bool_decide as Hin; cbn [plan_failure plan_merged].
    + intros [->|Hu0]%elem_of_cons Hf; [|by apply IH].
      exfalso. apply Hu. by eapply Forall_forall in Hrows.
    + destruct (load u0) as [e|trj]; cbn [plan_failure plan_merged]; [by intros _ ?|].
      intros [->|Hu0]%elem_of_cons Hf; [left|right].
      apply IH; try done. apply Forall_app. split; [done|].
      constructor; [apply StringAtom_fits | constructor].
Qed.

(** When the identifiers fit the ledger column and no load fails, the
    units merged are the units that were no row of the ledger. *)
Lemma plan_merges_new units : ∀ rows u,
  Forall fits units → u ∈ units → u ∉ rows →
  plan_failure (loop_plan load units rows) = None →
  u ∈ plan_merged (loop_plan load units rows).
Proof.
  induction units as [|u0 units IH]; intros rows u Hfit; cbn [loop_plan].
  - by intros ?%elem_of_nil.
  - apply Forall_cons in Hfit as [Hfit0 Hfit].
    case_bool_decide as Hin; cbn [plan_failure plan_merged].
    + intros [->|Hu0]%elem_of_cons Hu Hf; [done | by apply IH].
    + destruct (load u0) as [e|trj]; cbn [plan_failure plan_merged]; [by intros _ _ ?|].
      intros Hu0 Hu Hf. destruct (decide (u = u0)) as [->|Hne]; [left|right].
      apply elem_of_cons in Hu0 as [?|Hu0]; [done|].
      apply IH; try done. rewrite Hfit0.
      intros [?|?%list_elem_of_singleton]%elem_of_app; done.
Qed.

End MoreTraceFacts.

Section MoreMergeFacts.
Context {real Topology Top : Type}.
Implicit Types (env : Env real Topology Top) (a : adapter (Top:=Top))
  (w : World real Topology) (path output_filename : string).



Lemma arrays_opened (old : option (Store real Topology)) name (t : Topology) n :
  n ≠ name →
  arrays (opened_store old name t) !! n = arrays (default empty_store old) !! n.
Proof.
  intros Hn. unfold opened_store. cbn zeta.
  destruct (arrays _ !! name); [done|]. cbn [arrays]. by rewrite lookup_insert_ne.
Qed.

Lemma topology_opened (old : option (Store real Topology)) name (t : Topology) :
  topology (opened_store old name t)
  = match arrays (default empty_store old) !! name with
    | Some _ => topology (default empty_store old)
    | None => Some t
    end.
Proof. unfold opened_store. cbn zeta. by destruct (arrays _ !! name). Qed.


(** A merge call that finds units, written out. *)
Lemma merge_unfold env a path output_filename w top u0 units :
  prelude_top env a path output_filename = inr top →
  discover env a path = inr (u0 :: units) →
  let name := ledger_name a in
  let st := opened_store (fs w !! output_filename) name (topology_of env top) in
  let plan := loop_plan (loader env a top) (u0 :: units) (rows_at w output_filename name) in
  merge env a path output_filename w =
    (match plan_result plan with inl e => inl (surfaced a e) | inr x => inr x end,
     {| fs := <[output_filename := merged_store st name plan]> (fs w);
        log := log w ++ prelude_events a output_filename
                 ++ EvOpen output_filename ModeA :: plan_events output_filename name plan |}).
Proof.
  intros Htop Hd. cbn zeta. rewrite merge_run_eq. cbn zeta. rewrite Htop, Hd.
  unfold merge_run. cbn [fst snd fs log]. rewrite rows_at_opened, <- app_assoc.
  unfold rows_at. done.
Qed.

(** A merge call that stops before it opens the output file. *)
Lemma merge_idle env a path output_filename w :
  (∀ top u0 units, prelude_top env a path output_filename = inr top →
                   discover env a path ≠ inr (u0 :: units)) →
  (merge env a path output_filename w).2
  = {| fs := fs w; log := log w ++ prelude_events a output_filename |}.
Proof.
  intros Hidle. rewrite merge_run_eq. cbn zeta.
  destruct (prelude_top env a path output_filename) as [e|top] eqn:Htop; [done|].
  destruct (discover env a path) as [e|[|u0 units]] eqn:Hd; [done|done|].
  by destruct (Hidle top u0 units).
Qed.

Lemma merge_found env a path output_filename :
  (∀ top u0 units, prelude_top env a path output_filename = inr top →
                   discover env a path ≠ inr (u0 :: units))
  ∨ (∃ top u0 units, prelude_top env a path output_filename = inr top
                     ∧ discover env a path = inr (u0 :: units)).
Proof.
  destruct (prelude_top env a path output_filename) as [e|top]; [by left|].
  destruct (discover env a path) as [e|[|u0 units]]; [by left|by left|].
  right. by exists top, u0, units.
Qed.

Lemma rows_merged (st : Store real Topology) name plan (t : Topology) w output_filename :
  st = opened_store (fs w !! output_filename) name t →
  default [] (arrays (merged_store st name plan) !! name)
  = rows_at w output_filename name ++ map (StringAtom 1024) (plan_merged plan).
Proof.
  intros ->. unfold merged_store. cbn [arrays]. rewrite lookup_insert_eq. cbn [default].
  rewrite rows_at_opened. done.
Qed.

Lemma rows_at_merge env a path output_filename w top u0 units :
  prelude_top env a path output_filename = inr top →
  discover env a path = inr (u0 :: units) →
  rows_at (merge env a path output_filename w).2 output_filename (ledger_name a)
  = rows_at w output_filename (ledger_name a)
      ++ map (StringAtom 1024)
           (plan_merged (loop_plan (loader env a top) (u0 :: units)
                           (rows_at w output_filename (ledger_name a)))).
Proof.
  intros Htop Hd. rewrite (merge_unfold _ _ _ _ _ _ _ _ Htop Hd). cbn zeta.
  unfold rows_at at 1. cbn [snd fs]. rewrite lookup_insert_eq.
  by erewrite rows_merged.
Qed.

Lemma merge_returned env a path output_filename w top u0 units :
  prelude_top env a path output_filename = inr top →
  discover env a path = inr (u0 :: units) →
  (merge env a path output_filename w).1 = inr tt →
  plan_failure (loop_plan (loader env a top) (u0 :: units)
                  (rows_at w output_filename (ledger_name a))) = None.
Proof.
  intros Htop Hd. rewrite (merge_unfold _ _ _ _ _ _ _ _ Htop Hd). cbn zeta. cbn [fst].
  rewrite plan_result_failure. by destruct (plan_failure _) as [[? ?]|].
Qed.

Lemma merged_unit_loaded (name output_filename : string)
    (plan : list (string * action (real:=real))) u trj :
  (u, Merge trj) ∈ plan → EvLoad u ∈ plan_events output_filename name plan.
Proof.
  induction plan as [|step plan IH]; [by intros ?%elem_of_nil|].
  cbn [plan_events]. intros [<-|Hin]%elem_of_cons; apply elem_of_app; [left|right; by apply IH].
  cbn [unit_events]. apply elem_of_app. left. right. left.
Qed.

Lemma sorted_keynat_raises v (l : list string) e :
  Keynat.sorted_keynat v l = inl e → v = Keynat.Py3 ∧ ∃ msg, e = TypeError msg.
Proof.
  unfold Keynat.sorted_keynat.
  destruct (sort_by (Keynat.list_lt v) _) as [e'|s] eqn:Hs; [|done].
  intros [= <-]. apply sort_by_raises in Hs as (x & y & Hxy).
  by eapply KeyOrder.list_lt_raises.
Qed.




Lemma merge_keeps_other_arrays env a path output_filename w n :
  n ≠ ledger_name a →
  array_at (merge env a path output_filename w).2 output_filename n
  = array_at w output_filename n.
Proof.
  intros Hn.
  destruct (merge_found env a path output_filename)
    as [Hidle|(top & u0 & units & Htop & Hd)].
  - rewrite merge_idle by done. done.
  - rewrite (merge_unfold _ _ _ _ _ _ _ _ Htop Hd). cbn zeta. cbn [snd].
    unfold array_at. cbn [fs]. rewrite lookup_insert_eq.
    unfold merged_store. cbn [arrays]. rewrite lookup_insert_ne by done.
    rewrite arrays_opened by done.
    destruct (fs w !! output_filename); [done|]. apply lookup_empty.
Qed.

(** X8. A merge call changes no file but the output file, and in the
    output file no array but the ledger. *)
Theorem merge_touches_only_output env a path output_filename w :
  (∀ q, q ≠ output_filename →
        fs (merge env a path output_filename w).2 !! q = fs w !! q)
  ∧ (∀ n, n ≠ ledger_name a →
          array_at (merge env a path output_filename w).2 output_filename n
          = array_at w output_filename n).
Proof.
  split; [|intros n Hn; by apply merge_keeps_other_arrays].
  destruct (merge_found env a path output_filename)
    as [Hidle|(top & u0 & units & Htop & Hd)].
  - rewrite merge_idle by done. done.
  - rewrite (merge_unfold _ _ _ _ _ _ _ _ Htop Hd). cbn zeta. cbn [snd fs].
    intros q Hq. by rewrite lookup_insert_ne.
Qed.


(** X9. When a merge call returns, every unit it found is in the
    ledger of the output file, as the ledger column stores its identifier:
    it was a row already, or it was merged and its identifier appended. An
    identifier that fits the column is a row itself. *)
Theorem returned_merge_covers_units env a path output_filename w units u :
  (merge env a path output_filename w).1 = inr tt →
  discover env a path = inr units → u ∈ units →
  let rows' := rows_at (merge env a path output_filename w).2 output_filename (ledger_name a) in
  (u ∈ rows' ∨ StringAtom 1024 u ∈ rows') ∧ (fits u → u ∈ rows').
Proof.
  intros Hret Hd Hu. cbn zeta.
  assert (∀ rows' : list string,
            u ∈ rows' ∨ StringAtom 1024 u ∈ rows' →
            (u ∈ rows' ∨ StringAtom 1024 u ∈ rows') ∧ (fits u → u ∈ rows')) as Hfit.
  { intros rows' H. split; [done|]. intros Hf. rewrite Hf in H. by destruct H. }
  apply Hfit. clear Hfit.
  destruct (merge_found env a path output_filename)
    as [Hidle|(top & u0 & units' & Htop & Hd')].
  - exfalso. rewrite merge_run_eq in Hret. cbn zeta in Hret.
    destruct (prelude_top env a path output_filename) as [e|top] eqn:Htop; [done|].
    rewrite Hd in Hret. destruct units as [|u0 units]; [by apply elem_of_nil in Hu|].
    by destruct (Hidle top u0 units).
  - assert (units = u0 :: units') as -> by congruence.
    rewrite (rows_at_merge _ _ _ _ _ _ _ _ Htop Hd).
    pose proof (merge_returned _ _ _ _ _ _ _ _ Htop Hd Hret) as Hnone.
    destruct (plan_covers _ _ _ _ Hnone Hu) as [H|[_ H]]; [by left | by right].
Qed.


(** X10. A merge call loads no unit that is named in the ledger when
    the call starts: every load it attempts is of a unit it found that was
    no row of the ledger. *)
Theorem ledgered_units_are_not_loaded env a path output_filename w :
  ∃ new,
    log (merge env a path output_filename w).2 = log w ++ new
    ∧ ∀ u, EvLoad u ∈ new →
        (u ∉ rows_at w output_filename (ledger_name a))
        ∧ ∃ units, discover env a path = inr units ∧ u ∈ units.
Proof.
  destruct (merge_found env a path output_filename)
    as [Hidle|(top & u0 & units & Htop & Hd)].
  - rewrite merge_idle by done. exists (prelude_events a output_filename).
    split; [done|]. intros u Hin. by apply load_not_in_prelude in Hin.
  - rewrite (merge_unfold _ _ _ _ _ _ _ _ Htop Hd). cbn zeta. cbn [snd log].
    eexists. split; [reflexivity|]. intros u Hin.
    apply elem_of_app in Hin as [Hin|Hin]; [by apply load_not_in_prelude in Hin|].
    apply elem_of_cons in Hin as [Hin|Hin]; [done|].
    apply loaded_unit_fresh in Hin as [Hu Hrows]. split; [done|]. by exists (u0 :: units).
Qed.

(** X11. When a merge call finds units, the output file exists
    afterwards and has the ledger, whether the loop failed or not. The
    topology passed to the call is stored only when the file had no ledger
    before; a file that has its ledger keeps the topology it has. *)
Theorem found_units_set_up_the_output env a path output_filename w top units :
  prelude_top env a path output_filename = inr top →
  discover env a path = inr units → units ≠ [] →
  let w' := (merge env a path output_filename w).2 in
  array_at w' output_filename (ledger_name a)
    = Some (rows_at w' output_filename (ledger_name a))
  ∧ topology_at w' output_filename
    = match array_at w output_filename (ledger_name a) with
      | Some _ => topology_at w output_filename
      | None => Some (topology_of env top)
      end.
Proof.
  intros Htop Hd Hne. destruct units as [|u0 units]; [done|]. cbn zeta.
  rewrite (rows_at_merge _ _ _ _ _ _ _ _ Htop Hd).
  rewrite (merge_unfold _ _ _ _ _ _ _ _ Htop Hd). cbn zeta. cbn [snd].
  unfold array_at, topology_at. cbn [fs]. rewrite !lookup_insert_eq. split.
  - unfold merged_store. cbn [arrays]. rewrite lookup_insert_eq.
    by rewrite rows_at_opened.
  - unfold merged_store. cbn [topology]. rewrite topology_opened.
    destruct (fs w !! output_filename) as [st|]; [done|].
    cbn [default from_option id empty_store arrays]. by rewrite lookup_empty.
Qed.

(** X12. concatenate_core17_filenames is concatenate_core17 after the
    line it prints and the load of the topology file, with the exception
    of the loop passed through its handler; when the topology file does
    not load it raises and has only printed the line. *)
Theorem concatenate_core17_filenames_is_core17 env path top_filename output_filename w :
  concatenate_core17_filenames env path top_filename output_filename w =
    let w0 := {| fs := fs w; log := log w ++ [EvPrint output_filename] |} in
    match md_load_top env path top_filename output_filename with
    | inl e => (inl e, w0)
    | inr top =>
        let run := concatenate_core17 env path top output_filename w0 in
        (runtime_handler run.1, run.2)
    end.
Proof.
  rewrite concatenate_core17_filenames_run. cbn zeta.
  destruct (md_load_top env path top_filename output_filename) as [e|top]; [done|].
  rewrite concatenate_core17_run.
  destruct (Keynat.sorted_keynat _ _) as [e|[|u0 units]] eqn:Hs; [|done..].
  apply sorted_keynat_raises in Hs as (_ & msg & ->). done.
Qed.

(** X13. When finding or sorting the units raises, the merge call
    raises the same and has changed no file and opened none. For the two
    Core17 functions this only happens under Python 3 and the exception is
    the TypeError of the sort; for concatenate_ocore it is the exception of
    listing the directory, or that of [int] on the first name it does not
    accept. *)
Theorem failed_discovery_changes_nothing env a path output_filename w e :
  discover env a path = inl e →
  (merge env a path output_filename w).2
    = {| fs := fs w; log := log w ++ prelude_events a output_filename |}
  ∧ (∀ top, prelude_top env a path output_filename = inr top →
            (merge env a path output_filename w).1 = inl e)
  ∧ match a with
    | OCore _ =>
        listdir env path = inl e
        ∨ ∃ pre x post,
            listdir env path = inr (pre ++ x :: post)
            ∧ int_str env x = inl e
            ∧ Forall (λ y, ∃ z, int_str env y = inr z) pre
    | _ => python env = Keynat.Py3 ∧ ∃ msg, e = TypeError msg
    end.
Proof.
  intros Hd. split; [|split].
  - apply merge_idle. intros top u0 units _. congruence.
  - intros top Htop. rewrite merge_run_eq. cbn zeta. by rewrite Htop, Hd.
  - destruct a as [top|top_filename|top]; cbn [discover] in Hd;
      try (by apply sorted_keynat_raises in Hd).
    destruct (listdir env path) as [e'|names]; [left; congruence|]. right.
    destruct (sorted_by_int (int_str env) names) as [e'|sorted_folders] eqn:Hs; [|done].
    injection Hd as ->. apply sorted_by_int_raises, with_keys_raises in Hs
      as (pre & x & post & -> & Hx & Hpre).
    by exists pre, x, post.
Qed.

(** X14. A unit whose identifier does not fit the ledger column is
    merged by every call that returns: the rows of the ledger are values
    of the column, so the identifier is never found among them, and the
    unit is loaded and its identifier appended again. *)
Theorem unfit_unit_is_merged_every_time env a path output_filename w units u :
  wf_rows (rows_at w output_filename (ledger_name a)) →
  discover env a path = inr units → u ∈ units → ¬ fits u →
  (merge env a path output_filename w).1 = inr tt →
  ∃ new,
    log (merge env a path output_filename w).2 = log w ++ new
    ∧ EvLoad u ∈ new
    ∧ u ∈ appended output_filename (ledger_name a) new
    ∧ wf_rows (rows_at (merge env a path output_filename w).2 output_filename (ledger_name a)).
Proof.
  intros Hwf Hd Hu Hfit Hret.
  destruct (merge_found env a path output_filename)
    as [Hidle|(top & u0 & units' & Htop & Hd')].
  { exfalso. rewrite merge_run_eq in Hret. cbn zeta in Hret.
    destruct (prelude_top env a path output_filename) as [e|top] eqn:Htop; [done|].
    destruct units as [|u0 units]; [by apply elem_of_nil in Hu|].
    by destruct (Hidle top u0 units). }
  assert (units = u0 :: units') as -> by congruence.
  pose proof (merge_returned _ _ _ _ _ _ _ _ Htop Hd Hret) as Hnone.
  pose proof (plan_merges_unfit _ _ _ _ Hwf Hfit Hu Hnone) as Hm.
  rewrite (rows_at_merge _ _ _ _ _ _ _ _ Htop Hd).
  rewrite (merge_unfold _ _ _ _ _ _ _ _ Htop Hd). cbn zeta. cbn [snd log].
  eexists. split; [reflexivity|]. split; [|split].
  - apply elem_of_app. right. right.
    apply plan_merged_elem in Hm as [trj Hm]. by eapply merged_unit_loaded.
  - rewrite appended_app, appended_prelude. cbn [app appended]. by rewrite appended_plan.
  - apply Forall_app. split; [done|].
    apply Forall_forall. intros x (y & -> & _)%list_elem_of_fmap. apply StringAtom_fits.
Qed.

(** X23. What a merge call that returns has merged, when the
    identifiers it found fit the ledger column: exactly the units it found
    that were no row of the ledger when it started. *)
Theorem returned_merge_merges_what_is_new env a path output_filename w units :
  (merge env a path output_filename w).1 = inr tt →
  discover env a path = inr units → Forall fits units →
  ∃ new,
    log (merge env a path output_filename w).2 = log w ++ new
    ∧ ∀ u, u ∈ appended output_filename (ledger_name a) new
           ↔ u ∈ units ∧ u ∉ rows_at w output_filename (ledger_name a).
Proof.
  intros Hret Hd Hfit.
  destruct (merge_found env a path output_filename)
    as [Hidle|(top & u0 & units' & Htop & Hd')].
  - rewrite merge_idle by done. exists (prelude_events a output_filename).
    split; [done|]. intros u. rewrite appended_prelude. split; [by intros ?%elem_of_nil|].
    intros [Hu _]. exfalso. rewrite merge_run_eq in Hret. cbn zeta in Hret.
    destruct (prelude_top env a path output_filename) as [e|top] eqn:Htop; [done|].
    destruct units as [|u0 units]; [by apply elem_of_nil in Hu|].
    by destruct (Hidle top u0 units).
  - assert (units = u0 :: units') as -> by congruence.
    pose proof (merge_returned _ _ _ _ _ _ _ _ Htop Hd Hret) as Hnone.
    rewrite (merge_unfold _ _ _ _ _ _ _ _ Htop Hd). cbn zeta. cbn [snd log].
    eexists. split; [reflexivity|]. intros u.
    rewrite appended_app, appended_prelude. cbn [app appended]. rewrite appended_plan.
    split.
    + intros Hu. split; [|by eapply plan_merged_fresh].
      apply plan_merged_elem in Hu as [trj Hu]. by eapply loop_plan_units.
    + intros [Hu Hrows]. by apply plan_merges_new.
Qed.

End MoreMergeFacts.

(** ** strip_water: every call *)

Section MoreDeriveFacts.
Context {real Topology Top : Type}.
Implicit Types (env : Env real Topology Top) (w : World real Topology)
  (st full : Store real Topology) (key : string).

Lemma init_derived_arrays env full old key indices name :
  name ≠ key →
  arrays (init_derived env full old key indices).2 !! name
  = arrays (default empty_store old) !! name.
Proof.
  intros Hne. unfold init_derived. cbn zeta.
  destruct (arrays (default empty_store old) !! key); [done|].
  destruct (topology full) as [t|]; [destruct (subset env t indices)|];
    cbn [snd arrays]; by rewrite lookup_insert_ne.
Qed.

Lemma init_derived_topology env full old key indices :
  topology (init_derived env full old key indices).2
  = match arrays (default empty_store old) !! key, topology full with
    | None, Some t =>
        match subset env t indices with
        | inr t' => Some t'
        | inl _ => topology (default empty_store old)
        end
    | _, _ => topology (default empty_store old)
    end.
Proof.
  unfold init_derived. cbn zeta.
  destruct (arrays (default empty_store old) !! key); [done|].
  destruct (topology full) as [t|]; [|done]. by destruct (subset env t indices).
Qed.

(** The derived store has its ledger once it was set up, whether the
    set-up raised or not. *)
Lemma init_derived_has_key env full old key indices :
  is_Some (arrays (init_derived env full old key indices).2 !! key).
Proof.
  unfold init_derived. cbn zeta.
  destruct (arrays (default empty_store old) !! key) as [rows|] eqn:Hrows.
  { cbn [snd]. by rewrite Hrows. }
  destruct (topology full) as [t|]; [destruct (subset env t indices)|];
    cbn [snd arrays]; by rewrite lookup_insert_eq.
Qed.

Lemma init_derived_again env full st key indices :
  is_Some (arrays st !! key) →
  init_derived env full (Some st) key indices = (inr tt, st).
Proof. intros [rows Hrows]. unfold init_derived. simpl. by rewrite Hrows. Qed.

Lemma strip_block_length (indices : list Z) (block : list (Frame real)) out :
  strip_block indices block = inr out → length out = length block.
Proof. intros H. symmetry. eapply Forall2_length, strip_block_spec, H. Qed.

Lemma frames_at_put (files : gmap string (Store real Topology)) (trace : list (Event real))
    path st :
  frames_at {| fs := <[path := st]> files; log := trace |} path = default [] (frames st).
Proof. unfold frames_at. cbn [fs]. by rewrite lookup_insert_eq. Qed.

Lemma rows_at_put (files : gmap string (Store real Topology)) (trace : list (Event real))
    path st name :
  rows_at {| fs := <[path := st]> files; log := trace |} path name
  = default [] (arrays st !! name).
Proof. unfold rows_at. cbn [fs]. by rewrite lookup_insert_eq. Qed.

Lemma array_at_put (files : gmap string (Store real Topology)) (trace : list (Event real))
    path st name :
  array_at {| fs := <[path := st]> files; log := trace |} path name = arrays st !! name.
Proof. unfold array_at. cbn [fs]. by rewrite lookup_insert_eq. Qed.

(** A call that stops at a guard, or for want of a ledger in the full
    store, changes no file. *)
Lemma derive_run_stopped env allatom_filename protein_filename indices min_num_frames w :
  (∀ full fa key,
     fs w !! allatom_filename = Some full → frames full = Some fa →
     ¬ Z.of_nat (length fa) < min_num_frames → ledger_key full ≠ Some key) →
  fs (derive_run env allatom_filename protein_filename indices min_num_frames w).2 = fs w.
Proof.
  intros Hstop. unfold derive_run.
  destruct (fs w !! allatom_filename) as [full|] eqn:Ha; [|done].
  destruct (frames full) as [fa|] eqn:Hfa; [|done].
  cbn zeta. case_bool_decide as Hmin; [done|].
  destruct (ledger_key full) as [key|] eqn:Hkey; [|done].
  by destruct (Hstop full fa key).
Qed.

Lemma derive_run_guards env allatom_filename (min_num_frames : Z) w :
  (∀ full fa key,
     fs w !! allatom_filename = Some full → frames full = Some fa →
     ¬ Z.of_nat (length fa) < min_num_frames → ledger_key full ≠ Some key)
  ∨ ∃ full fa key,
      fs w !! allatom_filename = Some full ∧ frames full = Some fa
      ∧ ¬ Z.of_nat (length fa) < min_num_frames ∧ ledger_key full = Some key.
Proof.
  destruct (fs w !! allatom_filename) as [full|]; [|by left].
  destruct (frames full) as [fa|] eqn:Hfa; [|left; intros ? ? ? ? ?; simplify_eq; congruence].
  destruct (decide (Z.of_nat (length fa) < min_num_frames)) as [Hmin|Hmin].
  { left. intros ? ? ? ? ? ?. by simplify_eq. }
  destruct (ledger_key full) as [key|] eqn:Hkey; [|left; intros ? ? ? ? ? ?; simplify_eq; congruence].
  right. by exists full, fa, key.
Qed.

(** Where a call of strip_water that got past the guards leaves the file
    system: with the derived store set up; or with the derived store set
    up and extended. *)
Lemma derive_run_cases env allatom_filename protein_filename indices min_num_frames
    w full fa key :
  fs w !! allatom_filename = Some full → frames full = Some fa →
  ¬ Z.of_nat (length fa) < min_num_frames → ledger_key full = Some key →
  let r := derive_run env allatom_filename protein_filename indices min_num_frames w in
  let init := init_derived env full (fs w !! protein_filename) key indices in
  (fs r.2 = <[protein_filename := init.2]> (fs w)
   ∧ (r.1 = inr tt →
      init.1 = inr tt
      ∧ length (frames_at w protein_filename) = length fa
      ∧ length (rows_at w protein_filename key) = length (rows_at w allatom_filename key)))
  ∨ ∃ block,
      allatom_filename ≠ protein_filename ∧ r.1 = inr tt ∧ init.1 = inr tt
      ∧ (length (frames_at w protein_filename) < length fa)%nat
      ∧ (length (rows_at w protein_filename key)
         < length (rows_at w allatom_filename key))%nat
      ∧ strip_block indices (drop (length (frames_at w protein_filename)) fa) = inr block
      ∧ fs r.2
        = <[protein_filename :=
              {| frames := Some (frames_at w protein_filename ++ block);
                 arrays :=
                   <[key := rows_at w protein_filename key
                              ++ map (StringAtom 1024)
                                   (drop (length (rows_at w protein_filename key))
                                      (rows_at w allatom_filename key))]>
                     (arrays init.2);
                 topology := topology init.2 |}]> (fs w).
Proof.
  intros Ha Hfa Hmin Hkey. cbn zeta. unfold derive_run.
  rewrite Ha, Hfa, bool_decide_false, Hkey by done. cbn zeta.
  pose proof (init_derived_frames env full (fs w !! protein_filename) key indices) as Hf1.
  pose proof (init_derived_rows env full (fs w !! protein_filename) key indices) as Hr1.
  assert (allatom_filename = protein_filename →
          init_derived env full (fs w !! protein_filename) key indices = (inr tt, full))
    as Hsame.
  { intros <-. rewrite Ha. apply init_derived_same. by eapply ledger_key_Some. }
  destruct (init_derived env full (fs w !! protein_filename) key indices) as [r st1].
  cbn [fst snd] in *. destruct r as [e|[]]; [by left|].
  assert (rows_at w allatom_filename key = default [] (arrays full !! key)) as Hra.
  { unfold rows_at. by rewrite Ha. }
  rewrite <- rows_at_default in Hr1. rewrite Hf1, <- frames_at_default, Hr1, <- Hra.
  repeat case_bool_decide; cbn [orb andb negb fst snd fs]; try (by left).
  destruct (strip_block indices _) as [e|block] eqn:Hstrip; [by left|].
  right. exists block. cbn [fst snd fs].
  assert (allatom_filename ≠ protein_filename) as Hne.
  { intros Heq. specialize (Hsame Heq). injection Hsame as <-. subst protein_filename.
    unfold frames_at in *. rewrite Ha, Hfa in *. simpl in *. lia. }
  repeat split; try done; lia.
Qed.

(** How a call ends depends on the files only. *)
Lemma derive_run_result_fs env allatom_filename protein_filename indices min_num_frames
    w w1 :
  fs w1 = fs w →
  (derive_run env allatom_filename protein_filename indices min_num_frames w1).1
  = (derive_run env allatom_filename protein_filename indices min_num_frames w).1.
Proof.
  intros Hfs. unfold derive_run. rewrite Hfs.
  destruct (fs w !! allatom_filename) as [full|]; [|done].
  destruct (frames full) as [fa|]; [|done].
  cbn zeta. case_bool_decide; [done|].
  destruct (ledger_key full) as [key|]; [|done].
  destruct (init_derived env full (fs w !! protein_filename) key indices) as [[e|[]] st1];
    cbn [fst snd]; [done|].
  repeat case_bool_decide; cbn [orb andb negb fst snd]; try done.
  by destruct (strip_block indices _).
Qed.

(** A call on two stores in lockstep returns and changes no file. *)
Lemma derive_run_lockstep env allatom_filename protein_filename indices min_num_frames
    w full fa key st :
  fs w !! allatom_filename = Some full → frames full = Some fa →
  ¬ Z.of_nat (length fa) < min_num_frames → ledger_key full = Some key →
  fs w !! protein_filename = Some st → is_Some (arrays st !! key) →
  length (default [] (frames st)) = length fa →
  length (default [] (arrays st !! key)) = length (default [] (arrays full !! key)) →
  (derive_run env allatom_filename protein_filename indices min_num_frames w).1 = inr tt
  ∧ fs (derive_run env allatom_filename protein_filename indices min_num_frames w).2 = fs w.
Proof.
  intros Ha Hfa Hmin Hkey Hp Hrows Hlenf Hlenr. unfold derive_run.
  rewrite Ha, Hfa, bool_decide_false, Hkey, Hp by done. cbn zeta.
  rewrite init_derived_again by done. cbn [fst snd].
  rewrite Hlenf, Hlenr.
  rewrite (bool_decide_false (_ < _)%nat) by lia.
  rewrite (bool_decide_false (_ < _)%nat) by lia.
  rewrite !bool_decide_true by done. cbn [orb andb negb fst snd fs].
  split; [done|]. by apply insert_id.
Qed.

(** ** strip_water: every call *)

(** X15. Whatever it does and however it ends, strip_water changes no
    file but that of the derived store: the file of the full store, a
    different file, is after the call what it was before. *)
Theorem strip_water_leaves_the_full_store env allatom_filename protein_filename indices
    min_num_frames w :
  allatom_filename ≠ protein_filename →
  let w' := (strip_water env allatom_filename protein_filename indices min_num_frames w).2 in
  fs w' !! allatom_filename = fs w !! allatom_filename
  ∧ ∀ q, q ≠ protein_filename → fs w' !! q = fs w !! q.
Proof.
  intros _. cbn zeta. rewrite strip_water_run.
  destruct (derive_run_guards env allatom_filename min_num_frames w)
    as [Hstop|(full & fa & key & Ha & Hfa & Hmin & Hkey)].
  { by rewrite derive_run_stopped. }
  assert (allatom_filename = protein_filename →
          init_derived env full (fs w !! protein_filename) key indices = (inr tt, full))
    as Hsame.
  { intros <-. rewrite Ha. apply init_derived_same. by eapply ledger_key_Some. }
  destruct (derive_run_cases env allatom_filename protein_filename indices min_num_frames
              w full fa key Ha Hfa Hmin Hkey)
    as [[-> _]|(block & Hne & _ & _ & _ & _ & _ & ->)].
  - split; [|intros q Hq; by rewrite lookup_insert_ne].
    destruct (decide (allatom_filename = protein_filename)) as [Heq|Hne].
    + rewrite (Hsame Heq). subst. by rewrite lookup_insert_eq.
    + by rewrite lookup_insert_ne.
  - split; [|intros q Hq]; by rewrite lookup_insert_ne.
Qed.


(** X16. strip_water only ever appends to the derived store, a file
    other than the full store: whatever the call does and however it ends,
    the frames the store had are still its first frames, and the rows of
    each of its arrays are still the first rows of that array; a row that
    is added is a value of the ledger column. *)
Theorem strip_water_appends_only env allatom_filename protein_filename indices
    min_num_frames w :
  allatom_filename ≠ protein_filename →
  let w' := (strip_water env allatom_filename protein_filename indices min_num_frames w).2 in
  (∃ block, frames_at w' protein_filename = frames_at w protein_filename ++ block)
  ∧ ∀ name, ∃ rows,
      rows_at w' protein_filename name
      = rows_at w protein_filename name ++ map (StringAtom 1024) rows.
Proof.
  intros _. cbn zeta. rewrite strip_water_run.
  destruct (derive_run_guards env allatom_filename min_num_frames w)
    as [Hstop|(full & fa & key & Ha & Hfa & Hmin & Hkey)].
  { unfold frames_at, rows_at. rewrite derive_run_stopped by done.
    split; [exists []|intros name; exists []]; by rewrite app_nil_r. }
  pose proof (init_derived_frames env full (fs w !! protein_filename) key indices) as Hf1.
  pose proof (init_derived_rows env full (fs w !! protein_filename) key indices) as Hr1.
  pose proof (init_derived_arrays env full (fs w !! protein_filename) key indices) as Ha1.
  rewrite <- rows_at_default in Hr1.
  destruct (derive_run_cases env allatom_filename protein_filename indices min_num_frames
              w full fa key Ha Hfa Hmin Hkey)
    as [[Hfs _]|(block & Hne & _ & _ & _ & _ & _ & Hfs)];
    unfold frames_at at 1, rows_at at 1; rewrite Hfs, lookup_insert_eq.
  - split.
    + exists []. by rewrite Hf1, app_nil_r, frames_at_default.
    + intros name. exists []. rewrite app_nil_r.
      destruct (decide (name = key)) as [->|Hn]; [done|].
      by rewrite Ha1, rows_at_default.
  - cbn [frames arrays]. split; [by exists block|].
    intros name. destruct (decide (name = key)) as [->|Hn].
    + rewrite lookup_insert_eq. by eexists.
    + rewrite lookup_insert_ne by done. exists []. rewrite app_nil_r.
      by rewrite Ha1, rows_at_default.
Qed.

(** X17. Once strip_water has returned, calling it again with the same
    arguments (two different files) returns again and changes no file: the
    two stores are in lockstep, or the call stops at the guard it stopped
    at before. *)
Theorem strip_water_again_changes_nothing env allatom_filename protein_filename indices
    min_num_frames w :
  allatom_filename ≠ protein_filename →
  let once := strip_water env allatom_filename protein_filename indices min_num_frames w in
  let again :=
    strip_water env allatom_filename protein_filename indices min_num_frames once.2 in
  once.1 = inr tt → again.1 = inr tt ∧ fs again.2 = fs once.2.
Proof.
  intros _. cbn zeta. rewrite !strip_water_run. intros Hret.
  set (w1 := (derive_run env allatom_filename protein_filename indices min_num_frames w).2).
  destruct (derive_run_guards env allatom_filename min_num_frames w)
    as [Hstop|(full & fa & key & Ha & Hfa & Hmin & Hkey)].
  { assert (fs w1 = fs w) as Hfs by (by apply derive_run_stopped).
    assert (∀ full fa key,
              fs w1 !! allatom_filename = Some full → frames full = Some fa →
              ¬ Z.of_nat (length fa) < min_num_frames → ledger_key full ≠ Some key)
      as Hstop1 by (by rewrite Hfs).
    split; [|by apply derive_run_stopped].
    by rewrite (derive_run_result_fs _ _ _ _ _ w w1). }
  assert (allatom_filename = protein_filename →
          init_derived env full (fs w !! protein_filename) key indices = (inr tt, full))
    as Hsame.
  { intros <-. rewrite Ha. apply init_derived_same. by eapply ledger_key_Some. }
  pose proof (init_derived_frames env full (fs w !! protein_filename) key indices) as Hf1.
  pose proof (init_derived_rows env full (fs w !! protein_filename) key indices) as Hr1.
  pose proof (init_derived_has_key env full (fs w !! protein_filename) key indices) as Hk1.
  rewrite <- rows_at_default in Hr1.
  apply (f_equal (default [])) in Hf1. rewrite <- frames_at_default in Hf1.
  assert (rows_at w allatom_filename key = default [] (arrays full !! key)) as Hra.
  { unfold rows_at. by rewrite Ha. }
  assert (∀ st,
            fs w1 !! allatom_filename = Some full → fs w1 !! protein_filename = Some st →
            is_Some (arrays st !! key) →
            length (default [] (frames st)) = length fa →
            length (default [] (arrays st !! key)) = length (rows_at w allatom_filename key) →
            (derive_run env allatom_filename protein_filename indices min_num_frames w1).1
              = inr tt
            ∧ fs (derive_run env allatom_filename protein_filename indices min_num_frames
                    w1).2 = fs w1) as Hlock.
  { intros st H1 H2 H3 H4 H5. rewrite Hra in H5.
    exact (derive_run_lockstep env allatom_filename protein_filename indices min_num_frames
             w1 full fa key st H1 Hfa Hmin Hkey H2 H3 H4 H5). }
  destruct (derive_run_cases env allatom_filename protein_filename indices min_num_frames
              w full fa key Ha Hfa Hmin Hkey)
    as [[Hfs Hcount]|(block & Hne & _ & _ & Hlt1 & Hlt2 & Hstrip & Hfs)]; fold w1 in Hfs.
  - destruct (Hcount Hret) as (_ & Hcf & Hcr).
    apply (Hlock (init_derived env full (fs w !! protein_filename) key indices).2).
    + rewrite Hfs. destruct (decide (allatom_filename = protein_filename)) as [Heq|Hne].
      * rewrite (Hsame Heq). subst. by rewrite lookup_insert_eq.
      * by rewrite lookup_insert_ne.
    + rewrite Hfs. apply lookup_insert_eq.
    + done.
    + by rewrite Hf1.
    + by rewrite Hr1.
  - eapply Hlock.
    + rewrite Hfs. by rewrite lookup_insert_ne.
    + rewrite Hfs. apply lookup_insert_eq.
    + cbn [arrays]. by rewrite lookup_insert_eq.
    + cbn [frames default from_option id]. rewrite length_app.
      rewrite (strip_block_length _ _ _ Hstrip), length_drop. lia.
    + cbn [arrays]. rewrite lookup_insert_eq. cbn [default from_option id].
      rewrite length_app, length_map, length_drop. lia.
Qed.

(** *** The atom indices *)

Lemma take_index_in_range {A} (row : list A) (i : Z) :
  in_range (length row) i ↔ ∃ a, take_index row i = inr a.
Proof.
  unfold in_range, take_index. cbn zeta. split.
  - intros Hi.
    assert (0 ≤ (if i <? 0 then Z.of_nat (length row) + i else i) < Z.of_nat (length row))
      as Hj by (destruct (Z.ltb_spec i 0); lia).
    rewrite (proj2 (andb_true_iff _ _)) by (split; lia).
    destruct (lookup_lt_is_Some_2 row
                (Z.to_nat (if i <? 0 then Z.of_nat (length row) + i else i)))
      as [a Ha]; [lia|].
    rewrite Ha. by exists a.
  - intros [a Ha].
    destruct ((0 <=? _) && (_ <? _)) eqn:E; [|done].
    apply andb_true_iff in E as [E1 E2]. destruct (Z.ltb_spec i 0); lia.
Qed.

Lemma take_index_raises {A} (row : list A) (i : Z) e :
  take_index row i = inl e → e = IndexError "index out of bounds".
Proof.
  unfold take_index. cbn zeta.
  destruct ((0 <=? _) && (_ <? _)); [destruct (row !! _)|]; congruence.
Qed.

Lemma gather_in_range {A} (row : list A) (indices : list Z) :
  Forall (in_range (length row)) indices ↔ ∃ out, gather row indices = inr out.
Proof.
  induction indices as [|i indices IH]; simpl.
  - split; [by eexists | constructor].
  - rewrite Forall_cons, IH, take_index_in_range. split.
    + intros [[a ->] [out ->]]. by eexists.
    + destruct (take_index row i) as [e|a]; [by intros [? ?]|].
      destruct (gather row indices) as [e|out]; [by intros [? ?]|].
      intros _. split; by eexists.
Qed.

Lemma gather_raises {A} (row : list A) (indices : list Z) e :
  gather row indices = inl e → e = IndexError "index out of bounds".
Proof.
  induction indices as [|i indices IH]; simpl; [done|].
  destruct (take_index row i) as [e'|a] eqn:Hi.
  - intros [= <-]. by eapply take_index_raises.
  - destruct (gather row indices) as [e'|out]; [|done]. intros [= <-]. by apply IH.
Qed.

Lemma strip_block_in_range (indices : list Z) (block : list (Frame real)) :
  Forall (λ f, Forall (in_range (length (coordinates f))) indices) block
  ↔ ∃ out, strip_block indices block = inr out.
Proof.
  induction block as [|f block IH]; simpl.
  - split; [by eexists | constructor].
  - rewrite Forall_cons, IH, gather_in_range. unfold strip_frame. split.
    + intros [[c ->] [out ->]]. by eexists.
    + destruct (gather (coordinates f) indices) as [e|c]; [by intros [? ?]|].
      destruct (strip_block indices block) as [e|out]; [by intros [? ?]|].
      intros _. split; by eexists.
Qed.

Lemma strip_block_raises (indices : list Z) (block : list (Frame real)) e :
  strip_block indices block = inl e → e = IndexError "index out of bounds".
Proof.
  induction block as [|f block IH]; simpl; [done|]. unfold strip_frame.
  destruct (gather (coordinates f) indices) as [e'|c] eqn:Hc.
  - intros [= <-]. by eapply gather_raises.
  - destruct (strip_block indices block) as [e'|out]; [|done]. intros [= <-]. by apply IH.
Qed.

(** A call that gets past the guards and finds the derived store behind
    the full store in both counts. *)
Lemma derive_run_proceeds env allatom_filename protein_filename indices min_num_frames
    w full fa key :
  fs w !! allatom_filename = Some full → frames full = Some fa →
  ¬ Z.of_nat (length fa) < min_num_frames → ledger_key full = Some key →
  (init_derived env full (fs w !! protein_filename) key indices).1 = inr tt →
  (length (frames_at w protein_filename) < length fa)%nat →
  (length (rows_at w protein_filename key) < length (rows_at w allatom_filename key))%nat →
  derive_run env allatom_filename protein_filename indices min_num_frames w =
    let st1 := (init_derived env full (fs w !! protein_filename) key indices).2 in
    let rows := drop (length (rows_at w protein_filename key))
                  (rows_at w allatom_filename key) in
    let log3 :=
      log w ++ [EvOpen allatom_filename ModeR;
                EvPrint (msg_allatom allatom_filename (length fa));
                EvOpen protein_filename ModeA;
                EvPrint (msg_found (length (rows_at w allatom_filename key))
                           (length (rows_at w protein_filename key))
                           (length fa) (length (frames_at w protein_filename))
                           allatom_filename protein_filename)] in
    match strip_block indices (drop (length (frames_at w protein_filename)) fa) with
    | inl e => (inl e, {| fs := <[protein_filename := st1]> (fs w); log := log3 |})
    | inr block =>
        (inr tt,
         {| fs := <[protein_filename :=
                      {| frames := Some (frames_at w protein_filename ++ block);
                         arrays := <[key := rows_at w protein_filename key
                                              ++ map (StringAtom 1024) rows]> (arrays st1);
                         topology := topology st1 |}]> (fs w);
            log := log3 ++ [EvWrite protein_filename block;
                            EvAppend protein_filename key rows] |})
    end.
Proof.
  intros Ha Hfa Hmin Hkey Hinit Hlt1 Hlt2. cbn zeta. unfold derive_run.
  rewrite Ha, Hfa, bool_decide_false, Hkey by done. cbn zeta.
  pose proof (init_derived_frames env full (fs w !! protein_filename) key indices) as Hf1.
  pose proof (init_derived_rows env full (fs w !! protein_filename) key indices) as Hr1.
  destruct (init_derived env full (fs w !! protein_filename) key indices) as [r st1].
  cbn [fst snd] in *. subst r.
  assert (rows_at w allatom_filename key = default [] (arrays full !! key)) as Hra.
  { unfold rows_at. by rewrite Ha. }
  rewrite <- rows_at_default in Hr1. rewrite Hf1, <- frames_at_default, Hr1, <- Hra.
  rewrite (bool_decide_false (_ < _)%nat) by lia.
  rewrite (bool_decide_false (_ < _)%nat) by lia.
  rewrite (bool_decide_false (_ = _)) by lia.
  rewrite (bool_decide_false (_ = _)) by lia.
  cbn [orb]. rewrite <- !app_assoc. cbn [app]. done.
Qed.


(** X19. When strip_water gets past its guards, the derived store is
    behind the full store in frames and in ledger rows, its set-up raises
    nothing, and an atom index is out of the coordinates of a frame still
    to be stripped (numpy: not in -n .. n-1), the call raises IndexError.
    It has opened and set up the derived store by then, and has appended
    nothing: the store has the frames and the ledger rows it had, and the
    trace ends with the line that reports the counts. *)
Theorem atom_index_out_of_range env allatom_filename protein_filename indices
    min_num_frames w full fa key f i :
  fs w !! allatom_filename = Some full → frames full = Some fa →
  ¬ Z.of_nat (length fa) < min_num_frames → ledger_key full = Some key →
  (∃ st, fs w !! protein_filename = Some st ∧ is_Some (arrays st !! key))
  ∨ (∃ t t', topology full = Some t ∧ subset env t indices = inr t') →
  (length (frames_at w protein_filename) < length fa)%nat →
  (length (rows_at w protein_filename key) < length (rows_at w allatom_filename key))%nat →
  f ∈ drop (length (frames_at w protein_filename)) fa → i ∈ indices →
  ¬ in_range (length (coordinates f)) i →
  let run := strip_water env allatom_filename protein_filename indices min_num_frames w in
  run.1 = inl (IndexError "index out of bounds")
  ∧ is_Some (array_at run.2 protein_filename key)
  ∧ frames_at run.2 protein_filename = frames_at w protein_filename
  ∧ rows_at run.2 protein_filename key = rows_at w protein_filename key
  ∧ log run.2
    = log w ++ [EvOpen allatom_filename ModeR;
                EvPrint (msg_allatom allatom_filename (length fa));
                EvOpen protein_filename ModeA;
                EvPrint (msg_found (length (rows_at w allatom_filename key))
                           (length (rows_at w protein_filename key))
                           (length fa) (length (frames_at w protein_filename))
                           allatom_filename protein_filename)].
Proof.
  intros Ha Hfa Hmin Hkey Hinit Hlt1 Hlt2 Hf Hi Hout. cbn zeta.
  rewrite strip_water_run.
  rewrite (derive_run_proceeds _ _ _ _ _ _ _ _ _ Ha Hfa Hmin Hkey
             (init_derived_succeeds _ _ _ _ _ Hinit) Hlt1 Hlt2).
  cbn zeta.
  destruct (strip_block indices _) as [e|block] eqn:Hblock.
  2: { exfalso. apply Hout.
       assert (∃ out, strip_block indices
                        (drop (length (frames_at w protein_filename)) fa) = inr out)
         as Hex by (by exists block).
       apply strip_block_in_range in Hex.
       eapply Forall_forall in Hex; [|exact Hf].
       eapply Forall_forall in Hex; [|exact Hi]. done. }
  apply strip_block_raises in Hblock as ->.
  pose proof (init_derived_frames env full (fs w !! protein_filename) key indices) as Hf1.
  pose proof (init_derived_rows env full (fs w !! protein_filename) key indices) as Hr1.
  pose proof (init_derived_has_key env full (fs w !! protein_filename) key indices) as Hk1.
  cbn [fst snd]. rewrite array_at_put, frames_at_put, rows_at_put, Hf1, Hr1. cbn [log].
  by rewrite <- frames_at_default, <- rows_at_default.
Qed.

(** X20. The topology of the derived store, a file other than the full
    store, is set where its ledger is created, and nowhere else. After a
    call that got past the guards the derived store has its ledger. It has the topology of the full store
    restricted to the atom indices when it had no ledger before and that
    restriction raised nothing; in every other case its topology is what
    it was, so a set-up that failed after it created the ledger is not
    made good by a later call. *)
Theorem derived_topology_is_set_once env allatom_filename protein_filename indices
    min_num_frames w full fa key :
  allatom_filename ≠ protein_filename →
  fs w !! allatom_filename = Some full → frames full = Some fa →
  ¬ Z.of_nat (length fa) < min_num_frames → ledger_key full = Some key →
  let w' := (strip_water env allatom_filename protein_filename indices min_num_frames w).2 in
  is_Some (array_at w' protein_filename key)
  ∧ topology_at w' protein_filename
    = match array_at w protein_filename key, topology full with
      | None, Some t =>
          match subset env t indices with
          | inr t' => Some t'
          | inl _ => topology_at w protein_filename
          end
      | _, _ => topology_at w protein_filename
      end.
Proof.
  intros _ Ha Hfa Hmin Hkey. cbn zeta. rewrite strip_water_run.
  pose proof (init_derived_topology env full (fs w !! protein_filename) key indices) as Ht1.
  pose proof (init_derived_has_key env full (fs w !! protein_filename) key indices) as Hk1.
  assert (arrays (default empty_store (fs w !! protein_filename)) !! key
          = array_at w protein_filename key) as Hak.
  { unfold array_at. destruct (fs w !! protein_filename); [done|]. apply lookup_empty. }
  assert (topology (default empty_store (fs w !! protein_filename))
          = topology_at w protein_filename) as Htk.
  { unfold topology_at. by destruct (fs w !! protein_filename). }
  rewrite Hak, Htk in Ht1.
  destruct (derive_run_cases env allatom_filename protein_filename indices min_num_frames
              w full fa key Ha Hfa Hmin Hkey)
    as [[Hfs _]|(block & _ & _ & _ & _ & _ & _ & Hfs)];
    unfold array_at, topology_at; rewrite Hfs, lookup_insert_eq.
  - done.
  - cbn [arrays topology]. rewrite lookup_insert_eq. split; [by eexists | done].
Qed.

Lemma ledger_key_None w output_filename st :
  fs w !! output_filename = Some st →
  array_at w output_filename "processed_filenames" = None →
  array_at w output_filename "processed_directories" = None →
  ledger_key st = None.
Proof.
  unfold array_at, ledger_key. intros -> H1 H2. rewrite H1, H2.
  rewrite !bool_decide_false; [done|by intros [? ?]..].
Qed.

(** X21. strip_water derives nothing from a file that concatenate_ocore
    wrote. concatenate_ocore names its ledger processed_folders, and
    strip_water looks for processed_filenames or processed_directories: on
    an output file of concatenate_ocore that had neither array before
    (and is not the file to derive), the call changes no file, and once
    the file has min_num_frames frames it raises ValueError for the
    missing ledger. *)
Theorem ocore_output_is_not_strippable env path (top : Top) output_filename protein_filename
    indices min_num_frames w :
  output_filename ≠ protein_filename →
  array_at w output_filename "processed_filenames" = None →
  array_at w output_filename "processed_directories" = None →
  let w1 := (concatenate_ocore env path top output_filename w).2 in
  let run := strip_water env output_filename protein_filename indices min_num_frames w1 in
  fs run.2 = fs w1
  ∧ ∀ st fa,
      fs w1 !! output_filename = Some st → frames st = Some fa →
      ¬ Z.of_nat (length fa) < min_num_frames →
      run.1 = inl (err_no_key output_filename).
Proof.
  intros _ H1 H2. cbn zeta.
  change (concatenate_ocore env path top output_filename w)
    with (merge env (OCore top) path output_filename w).
  set (w1 := (merge env (OCore top) path output_filename w).2).
  assert (∀ st, fs w1 !! output_filename = Some st → ledger_key st = None) as Hnone.
  { intros st Hst. apply (ledger_key_None w1 output_filename); [done|..]; unfold w1;
      by rewrite merge_keeps_other_arrays. }
  rewrite strip_water_run. split.
  - apply derive_run_stopped. intros full fa key Ha _ _. rewrite (Hnone full Ha). done.
  - intros st fa Hst Hfa Hmin. unfold derive_run.
    rewrite Hst, Hfa, bool_decide_false, (Hnone st Hst) by done. done.
Qed.

End MoreDeriveFacts.

(** ** More on what the calls raise, and on a merge followed by
    strip_water *)

Section PipelineFacts.
Context {real Topology Top : Type}.
Implicit Types (env : Env real Topology Top) (a : adapter (Top:=Top))
  (w : World real Topology) (path output_filename : string).




(** X26. When strip_water gets past its guards, the derived file, a
    file other than the full store, has no ledger yet, and the set-up
    fails after creating it (the full store has no topology, or
    restricting the topology raises something other than a NodeError), the
    call raises that exception. It leaves the derived file with an empty
    ledger, with the topology and the frames it had, and has compared no
    counts. *)
Theorem failed_setup_leaves_the_ledger env allatom_filename protein_filename indices
    min_num_frames w full fa key e :
  allatom_filename ≠ protein_filename →
  fs w !! allatom_filename = Some full → frames full = Some fa →
  ¬ Z.of_nat (length fa) < min_num_frames → ledger_key full = Some key →
  array_at w protein_filename key = None →
  (topology full = None ∧ e = err_no_subset)
  ∨ (∃ t, topology full = Some t ∧ subset env t indices = inl e ∧ is_NodeError e = false) →
  let run := strip_water env allatom_filename protein_filename indices min_num_frames w in
  run.1 = inl e
  ∧ array_at run.2 protein_filename key = Some []
  ∧ topology_at run.2 protein_filename = topology_at w protein_filename
  ∧ frames_at run.2 protein_filename = frames_at w protein_filename
  ∧ log run.2 = log w ++ [EvOpen allatom_filename ModeR;
                          EvPrint (msg_allatom allatom_filename (length fa));
                          EvOpen protein_filename ModeA].
Proof.
  intros _ Ha Hfa Hmin Hkey Hnone Hfail. cbn zeta. rewrite strip_water_run.
  unfold derive_run. rewrite Ha, Hfa, bool_decide_false, Hkey by done. cbn zeta.
  assert (arrays (default empty_store (fs w !! protein_filename)) !! key = None) as Hak.
  { unfold array_at in Hnone. destruct (fs w !! protein_filename); [done|]. apply lookup_empty. }
  assert (∃ t0,
            init_derived env full (fs w !! protein_filename) key indices
            = (inl e, {| frames := frames (default empty_store (fs w !! protein_filename));
                         arrays := <[key := []]>
                                     (arrays (default empty_store (fs w !! protein_filename)));
                         topology := t0 |})
            ∧ t0 = topology (default empty_store (fs w !! protein_filename)))
    as (t0 & -> & ->).
  { eexists. unfold init_derived. cbn zeta. rewrite Hak.
    destruct Hfail as [[-> ->]|(t & -> & -> & ->)]; done. }
  cbn [fst snd]. rewrite array_at_put, frames_at_put. unfold topology_at. cbn [fs log].
  rewrite lookup_insert_eq. cbn [arrays frames topology]. rewrite lookup_insert_eq.
  rewrite <- frames_at_default, <- !app_assoc.
  repeat split; try done. by destruct (fs w !! protein_filename).
Qed.

End PipelineFacts.

(** * The further properties on the worked inputs *)


Lemma merge_touches_only_output_witness :
  fs (merge Demo.env (Core17 Demo.top) "clone" "full.h5" Demo.merged).2 !! "protein.h5"
  = fs Demo.merged !! "protein.h5"
  ∧ array_at (merge Demo.env (Core17 Demo.top) "clone" "full.h5" Demo.merged).2
      "full.h5" "processed_folders"
    = array_at Demo.merged "full.h5" "processed_folders".
Proof.
  destruct (merge_touches_only_output Demo.env (Core17 Demo.top) "clone" "full.h5" Demo.merged)
    as [Hfile Harray].
  split; [apply Hfile | apply Harray]; discriminate.
Defined.

Lemma returned_merge_covers_units_witness :
  ("clone/results-10.tar.bz2" ∈ rows_at Demo.merged "full.h5" "processed_filenames"
   ∨ StringAtom 1024 "clone/results-10.tar.bz2"
       ∈ rows_at Demo.merged "full.h5" "processed_filenames")
  ∧ (fits "clone/results-10.tar.bz2" →
     "clone/results-10.tar.bz2" ∈ rows_at Demo.merged "full.h5" "processed_filenames").
Proof.
  apply (returned_merge_covers_units Demo.env (Core17 Demo.top) "clone" "full.h5" Demo.nothing
           ["clone/results-9.tar.bz2"; "clone/results-10.tar.bz2"]).
  - reflexivity.
  - reflexivity.
  - in_list.
Defined.

Lemma ledgered_units_are_not_loaded_witness :
  ("clone/results-9.tar.bz2" ∉ rows_at Demo.nothing "full.h5" "processed_filenames")
  ∧ ∃ units, discover Demo.env (Core17 Demo.top) "clone" = inr units
             ∧ "clone/results-9.tar.bz2" ∈ units.
Proof.
  destruct (ledgered_units_are_not_loaded Demo.env (Core17 Demo.top) "clone" "full.h5"
              Demo.nothing) as (new & Hlog & Hload).
  change (log Demo.nothing ++ new) with new in Hlog. subst new.
  apply (Hload "clone/results-9.tar.bz2"). vm_compute. in_list.
Defined.

Lemma found_units_set_up_the_output_witness :
  array_at Demo.merged "full.h5" "processed_filenames"
    = Some (rows_at Demo.merged "full.h5" "processed_filenames")
  ∧ topology_at Demo.merged "full.h5"
    = match array_at Demo.nothing "full.h5" "processed_filenames" with
      | Some _ => topology_at Demo.nothing "full.h5"
      | None => Some Demo.top
      end.
Proof.
  apply (found_units_set_up_the_output Demo.env (Core17 Demo.top) "clone" "full.h5"
           Demo.nothing Demo.top ["clone/results-9.tar.bz2"; "clone/results-10.tar.bz2"]).
  - reflexivity.
  - reflexivity.
  - discriminate.
Defined.

Lemma failed_discovery_changes_nothing_witness :
  (merge Demo.env (OCore Demo.top) "missing" "full.h5" Demo.merged).2
    = {| fs := fs Demo.merged; log := log Demo.merged ++ [] |}
  ∧ (∀ top, prelude_top Demo.env (OCore Demo.top) "missing" "full.h5" = inr top →
            (merge Demo.env (OCore Demo.top) "missing" "full.h5" Demo.merged).1
            = inl (OSError "missing"))
  ∧ (listdir Demo.env "missing" = inl (OSError "missing")
     ∨ ∃ pre x post,
         listdir Demo.env "missing" = inr (pre ++ x :: post)
         ∧ int_str Demo.env x = inl (OSError "missing")
         ∧ Forall (λ y, ∃ z, int_str Demo.env y = inr z) pre).
Proof.
  apply (failed_discovery_changes_nothing Demo.env (OCore Demo.top) "missing" "full.h5"
           Demo.merged (OSError "missing")).
  reflexivity.
Defined.

Lemma unfit_unit_is_merged_every_time_witness :
  ∃ new,
    log (merge Demo.env (Core17 Demo.top) Demo.deep "full.h5" Demo.nothing).2
      = log Demo.nothing ++ new
    ∧ EvLoad Demo.deep_unit ∈ new
    ∧ Demo.deep_unit ∈ appended "full.h5" "processed_filenames" new
    ∧ wf_rows (rows_at (merge Demo.env (Core17 Demo.top) Demo.deep "full.h5" Demo.nothing).2
                 "full.h5" "processed_filenames").
Proof.
  apply (unfit_unit_is_merged_every_time Demo.env (Core17 Demo.top) Demo.deep "full.h5"
           Demo.nothing [Demo.deep_unit] Demo.deep_unit).
  - constructor.
  - vm_compute. reflexivity.
  - in_list.
  - unfold fits. intros H. apply (f_equal String.length) in H. vm_compute in H. discriminate.
  - vm_compute. reflexivity.
Defined.

Lemma returned_merge_merges_what_is_new_witness :
  "clone/results-9.tar.bz2" ∈ appended "full.h5" "processed_filenames" (log Demo.merged).
Proof.
  destruct (returned_merge_merges_what_is_new Demo.env (Core17 Demo.top) "clone" "full.h5"
              Demo.nothing ["clone/results-9.tar.bz2"; "clone/results-10.tar.bz2"])
    as (new & Hlog & Hnew).
  - reflexivity.
  - reflexivity.
  - repeat constructor; reflexivity.
  - change (log Demo.nothing ++ new) with new in Hlog. subst new.
    apply Hnew. split; [in_list | vm_compute; by intros ?%elem_of_nil].
Defined.

Lemma strip_water_leaves_the_full_store_witness :
  fs Demo.derived.2 !! "full.h5" = fs Demo.merged !! "full.h5"
  ∧ fs Demo.derived.2 !! "other.h5" = fs Demo.merged !! "other.h5".
Proof.
  destruct (strip_water_leaves_the_full_store Demo.env "full.h5" "protein.h5" [1; -1] 1
              Demo.merged) as [Hfull Hother].
  - discriminate.
  - split; [exact Hfull | apply Hother; discriminate].
Defined.

Lemma strip_water_appends_only_witness :
  (∃ block, frames_at Demo.derived.2 "protein.h5"
            = frames_at Demo.merged "protein.h5" ++ block)
  ∧ ∀ name, ∃ rows,
      rows_at Demo.derived.2 "protein.h5" name
      = rows_at Demo.merged "protein.h5" name ++ map (StringAtom 1024) rows.
Proof.
  apply (strip_water_appends_only Demo.env "full.h5" "protein.h5" [1; -1] 1 Demo.merged).
  discriminate.
Defined.

Lemma strip_water_again_changes_nothing_witness :
  (strip_water Demo.env "full.h5" "protein.h5" [1; -1] 1 Demo.derived.2).1 = inr tt
  ∧ fs (strip_water Demo.env "full.h5" "protein.h5" [1; -1] 1 Demo.derived.2).2
    = fs Demo.derived.2.
Proof.
  apply (strip_water_again_changes_nothing Demo.env "full.h5" "protein.h5" [1; -1] 1
           Demo.merged).
  - discriminate.
  - reflexivity.
Defined.


Lemma atom_index_out_of_range_witness :
  (strip_water Demo.env "full.h5" "protein.h5" [1; 3] 1 DemoDerive.half_set_up).1
    = inl (IndexError "index out of bounds")
  ∧ is_Some (array_at (strip_water Demo.env "full.h5" "protein.h5" [1; 3] 1
                         DemoDerive.half_set_up).2 "protein.h5" "processed_filenames")
  ∧ frames_at (strip_water Demo.env "full.h5" "protein.h5" [1; 3] 1
                 DemoDerive.half_set_up).2 "protein.h5"
    = frames_at DemoDerive.half_set_up "protein.h5".
Proof.
  destruct (atom_index_out_of_range Demo.env "full.h5" "protein.h5" [1; 3] 1
              DemoDerive.half_set_up
              (default empty_store (fs DemoDerive.half_set_up !! "full.h5"))
              (frames_at DemoDerive.half_set_up "full.h5") "processed_filenames"
              (Demo.stored_frame 0) 3) as (Hr & Hk & Hf & _).
  - vm_compute. reflexivity.
  - reflexivity.
  - vm_compute. discriminate.
  - reflexivity.
  - left. exists (default empty_store (fs DemoDerive.half_set_up !! "protein.h5")).
    split; [vm_compute; reflexivity | vm_compute; eauto].
  - vm_compute. lia.
  - vm_compute. lia.
  - vm_compute. in_list.
  - in_list.
  - unfold in_range. vm_compute. intros [_ H]. discriminate.
  - split; [exact Hr | split; [exact Hk | exact Hf]].
Defined.

Lemma derived_topology_is_set_once_witness :
  is_Some (array_at Demo.derived.2 "protein.h5" "processed_filenames")
  ∧ topology_at Demo.derived.2 "protein.h5" = Some ["CA"; "O"].
Proof.
  destruct (derived_topology_is_set_once Demo.env "full.h5" "protein.h5" [1; -1] 1
              Demo.merged (default empty_store (fs Demo.merged !! "full.h5"))
              (frames_at Demo.merged "full.h5") "processed_filenames") as [Hk Ht].
  - discriminate.
  - vm_compute. reflexivity.
  - reflexivity.
  - vm_compute. discriminate.
  - reflexivity.
  - split; [exact Hk|]. etrans; [exact Ht|]. vm_compute. reflexivity.
Defined.

(** After the failed set-up the derived store has its ledger and no
    topology; the next call, with good atom indices, strips the frames and
    leaves the store without a topology. *)
Example demo_half_set_up :
  array_at DemoDerive.half_set_up "protein.h5" "processed_filenames" = Some []
  ∧ topology_at DemoDerive.half_set_up "protein.h5" = None
  ∧ (strip_water Demo.env "full.h5" "protein.h5" [1; -1] 1 DemoDerive.half_set_up).1 = inr tt
  ∧ length (frames_at (strip_water Demo.env "full.h5" "protein.h5" [1; -1] 1
                         DemoDerive.half_set_up).2 "protein.h5") = 3%nat
  ∧ topology_at (strip_water Demo.env "full.h5" "protein.h5" [1; -1] 1
                   DemoDerive.half_set_up).2 "protein.h5" = None.
Proof. repeat split; vm_compute; reflexivity. Qed.

Lemma ocore_output_is_not_strippable_witness :
  fs (strip_water Demo.env "stream.h5" "protein.h5" [1; -1] 1 DemoDerive.streamed).2
    = fs DemoDerive.streamed
  ∧ (strip_water Demo.env "stream.h5" "protein.h5" [1; -1] 1 DemoDerive.streamed).1
    = inl (err_no_key "stream.h5").
Proof.
  destruct (ocore_output_is_not_strippable Demo.env "stream" Demo.top "stream.h5"
              "protein.h5" [1; -1] 1 Demo.nothing) as [Hfs Hraise].
  - discriminate.
  - reflexivity.
  - reflexivity.
  - split; [exact Hfs|].
    apply (Hraise (default empty_store (fs DemoDerive.streamed !! "stream.h5"))
             (frames_at DemoDerive.streamed "stream.h5")).
    + vm_compute. reflexivity.
    + reflexivity.
    + vm_compute. discriminate.
Defined.

Lemma strip_water_guards_witness :
  strip_water Demo.env "full.h5" "protein.h5" [1; -1] 1 Demo.nothing
  = (inr tt, {| fs := fs Demo.nothing;
                log := log Demo.nothing ++ [EvPrint (msg_skipping "full.h5")] |})
  ∧ strip_water Demo.env "full.h5" "protein.h5" [1; -1] 5 Demo.merged
    = (inr tt,
       {| fs := fs Demo.merged;
          log := log Demo.merged
                   ++ [EvOpen "full.h5" ModeR;
                       EvPrint (msg_allatom "full.h5"
                                  (length (frames_at Demo.merged "full.h5")));
                       EvPrint (msg_must 5 "full.h5")] |}).
Proof.
  split.
  - apply (proj1 (strip_water_guards Demo.env "full.h5" "protein.h5" [1; -1] 1 Demo.nothing)).
    reflexivity.
  - apply (proj2 (strip_water_guards Demo.env "full.h5" "protein.h5" [1; -1] 5 Demo.merged)
             (default empty_store (fs Demo.merged !! "full.h5"))
             (frames_at Demo.merged "full.h5")).
    + vm_compute. reflexivity.
    + reflexivity.
    + vm_compute. reflexivity.
Defined.



Lemma failed_setup_leaves_the_ledger_witness :
  (strip_water Demo.env "full.h5" "protein.h5" [1; 3] 1 Demo.merged).1
    = inl (IndexError "index out of bounds")
  ∧ array_at DemoDerive.half_set_up "protein.h5" "processed_filenames" = Some []
  ∧ topology_at DemoDerive.half_set_up "protein.h5" = topology_at Demo.merged "protein.h5".
Proof.
  destruct (failed_setup_leaves_the_ledger Demo.env "full.h5" "protein.h5" [1; 3] 1
              Demo.merged (default empty_store (fs Demo.merged !! "full.h5"))
              (frames_at Demo.merged "full.h5") "processed_filenames"
              (IndexError "index out of bounds")) as (Hr & Hk & Ht & _).
  - discriminate.
  - vm_compute. reflexivity.
  - reflexivity.
  - vm_compute. discriminate.
  - reflexivity.
  - reflexivity.
  - right. exists Demo.top. repeat split; reflexivity.
  - split; [exact Hr | split; [exact Hk | exact Ht]].
Defined.
